(** * Live transcription recorder: model and verified properties

    Shallow embedding of [src/components/Recorder.tsx] (the React component
    [Recorder]) together with the part of the browser it drives.

    - The component's [useState] cells and [useRef] cells are record fields
      that keep the source's names.  A state setter takes effect at once:
      every handler runs against the latest render.
    - JavaScript objects that are shared by reference (audio contexts, media
      streams, audio nodes, live sessions, interval timers) live in a store
      ([Browser]); a ref or a closure variable holds an index into it.
    - An [async] function is split at its [await]; a callback is a function
      of the world that the matching [Event] runs.
    - Strings are sequences of UTF-16 code units, numbers that only ever hold
      whole seconds are [Z].
    - The input-level preview ([startPreview] and [stopPreview]) owns refs of
      its own and never touches the ones of the recorder; it is modelled
      apart, over the same store, after the recorder.  The PCM encoding
      [createBlob] is modelled on samples that are rational numbers. *)

From Stdlib Require Import ZArith Lia String Ascii Sorted.
From Stdlib Require Import DecimalString DecimalZ QArith Qround Qminmax Qpower.
From stdpp Require Import base list.

Local Open Scope Z_scope.

(** ** JavaScript strings *)

Definition jsstring := list N.

Definition js (s : string) : jsstring :=
  map N_of_ascii (list_ascii_of_string s).

(** [WhiteSpace] and [LineTerminator] code points, the ones
    [String.prototype.trim] removes. *)
Definition isWhiteSpace (c : N) : bool :=
  match c with
  | 9%N | 10%N | 11%N | 12%N | 13%N | 32%N | 160%N | 5760%N
  | 8232%N | 8233%N | 8239%N | 8287%N | 12288%N | 65279%N => true
  | _ => (8192 <=? c)%N && (c <=? 8202)%N
  end.

Fixpoint trimStart (s : jsstring) : jsstring :=
  match s with
  | c :: s' => if isWhiteSpace c then trimStart s' else s
  | [] => []
  end.

Definition trimEnd (s : jsstring) : jsstring := rev (trimStart (rev s)).

Definition trim (s : jsstring) : jsstring := trimEnd (trimStart s).

(** A string is truthy when it is not empty. *)
Definition truthy (s : jsstring) : bool :=
  match s with [] => false | _ => true end.

Fixpoint startsWith (s p : jsstring) {struct p} : bool :=
  match p, s with
  | [], _ => true
  | c :: p', d :: s' => (c =? d)%N && startsWith s' p'
  | _ :: _, [] => false
  end.

(** [s.substring(n)] for [0 <= n]. *)
Definition substring (n : nat) (s : jsstring) : jsstring := drop n s.

(** [xs.join(' ')]. *)
Fixpoint join (xs : list jsstring) : jsstring :=
  match xs with
  | [] => []
  | [x] => x
  | x :: rest => x ++ 32%N :: join rest
  end.

(** ** Data model *)

Record TranscriptChunk := mkChunk {
  timestamp : Z;
  text : jsstring
}.

Record RecordingResult := mkResult {
  r_startTime : Z;
  r_endTime : Z;
  r_duration : Z;
  r_text : jsstring;
  r_chunks : list TranscriptChunk
}.

(** [LiveServerMessage], as far as [onmessage] reads it. *)
Record Transcription := { it_text : option jsstring }.

Record ServerContent := {
  inputTranscription : option Transcription;
  turnComplete : option bool
}.

Record LiveServerMessage := { serverContent : option ServerContent }.

Definition partialText (t : jsstring) : LiveServerMessage :=
  {| serverContent := Some {| inputTranscription := Some {| it_text := Some t |};
                              turnComplete := None |} |}.

Definition turnCompleteMsg : LiveServerMessage :=
  {| serverContent := Some {| inputTranscription := None;
                              turnComplete := Some true |} |}.

(** ** Component state *)

Record ReactState := mkState {
  isRecording : bool;
  transcript : jsstring;
  elapsedTime : Z;
  error : option jsstring;
  startTime : option Z
}.

Record TurnRefs := mkTurn {
  chunksRef : list TranscriptChunk;
  currentTurnRef : jsstring;
  turnStartTimeRef : Z;
  isTurnActiveRef : bool;
  elapsedTimeRef : Z
}.

Record MediaRefs := mkMedia {
  streamRef : option nat;
  audioContextRef : option nat;
  processorRef : option nat;
  sourceRef : option nat;
  sessionRef : option nat;
  timerRef : option nat
}.

(** ** The browser side *)

Inductive ContextState := Running | ContextClosed.
Inductive TrackState := Live | Ended.
Inductive ConnState := Connecting | Open | Closed | Errored.

Definition MediaStream := list TrackState.

Record SourceNode := mkSource {
  src_stream : nat;
  src_out : option nat          (* the processor it feeds *)
}.

Record ProcessorNode := mkProcessor {
  proc_session : nat;           (* [sessionPromise] of the closure *)
  proc_out : bool               (* connected to the destination *)
}.

(** A live session with the variables its callbacks close over. *)
Record Session := mkSession {
  conn : ConnState;
  sess_context : nat;
  sess_stream : nat;
  sent : list nat               (* [sendRealtimeInput] calls, oldest first *)
}.

(** A pending [getUserMedia] promise of [startRecording]. *)
Record MediaRequest := mkRequest {
  req_context : nat;
  req_settled : bool
}.

Record Browser := mkBrowser {
  contexts : list ContextState;
  streams : list MediaStream;
  sources : list SourceNode;
  processors : list ProcessorNode;
  sessions : list Session;
  timers : list bool;           (* interval still scheduled *)
  requests : list MediaRequest
}.

Record World := mkWorld {
  ui : ReactState;
  turn : TurnRefs;
  media : MediaRefs;
  browser : Browser;
  mounted : bool
}.

Definition initialWorld : World :=
  {| ui := mkState false [] 0 None None;
     turn := mkTurn [] [] 0 false 0;
     media := mkMedia None None None None None None;
     browser := mkBrowser [] [] [] [] [] [] [];
     mounted := true |}.

(** ** Field updates *)

Definition setIsRecording (v : bool) (w : World) : World :=
  let s := ui w in
  mkWorld (mkState v (transcript s) (elapsedTime s) (error s) (startTime s))
          (turn w) (media w) (browser w) (mounted w).

Definition setTranscript (v : jsstring) (w : World) : World :=
  let s := ui w in
  mkWorld (mkState (isRecording s) v (elapsedTime s) (error s) (startTime s))
          (turn w) (media w) (browser w) (mounted w).

Definition setElapsedTime (f : Z -> Z) (w : World) : World :=
  let s := ui w in
  mkWorld (mkState (isRecording s) (transcript s) (f (elapsedTime s)) (error s)
                   (startTime s))
          (turn w) (media w) (browser w) (mounted w).

Definition setError (v : option jsstring) (w : World) : World :=
  let s := ui w in
  mkWorld (mkState (isRecording s) (transcript s) (elapsedTime s) v (startTime s))
          (turn w) (media w) (browser w) (mounted w).

Definition setStartTime (v : option Z) (w : World) : World :=
  let s := ui w in
  mkWorld (mkState (isRecording s) (transcript s) (elapsedTime s) (error s) v)
          (turn w) (media w) (browser w) (mounted w).

Definition withTurn (f : TurnRefs -> TurnRefs) (w : World) : World :=
  mkWorld (ui w) (f (turn w)) (media w) (browser w) (mounted w).

Definition withMedia (f : MediaRefs -> MediaRefs) (w : World) : World :=
  mkWorld (ui w) (turn w) (f (media w)) (browser w) (mounted w).

Definition withBrowser (f : Browser -> Browser) (w : World) : World :=
  mkWorld (ui w) (turn w) (media w) (f (browser w)) (mounted w).

Definition set_streamRef (v : option nat) (m : MediaRefs) : MediaRefs :=
  mkMedia v (audioContextRef m) (processorRef m) (sourceRef m) (sessionRef m)
          (timerRef m).

Definition set_audioContextRef (v : option nat) (m : MediaRefs) : MediaRefs :=
  mkMedia (streamRef m) v (processorRef m) (sourceRef m) (sessionRef m)
          (timerRef m).

Definition set_processorRef (v : option nat) (m : MediaRefs) : MediaRefs :=
  mkMedia (streamRef m) (audioContextRef m) v (sourceRef m) (sessionRef m)
          (timerRef m).

Definition set_sourceRef (v : option nat) (m : MediaRefs) : MediaRefs :=
  mkMedia (streamRef m) (audioContextRef m) (processorRef m) v (sessionRef m)
          (timerRef m).

Definition set_sessionRef (v : option nat) (m : MediaRefs) : MediaRefs :=
  mkMedia (streamRef m) (audioContextRef m) (processorRef m) (sourceRef m) v
          (timerRef m).

Definition set_timerRef (v : option nat) (m : MediaRefs) : MediaRefs :=
  mkMedia (streamRef m) (audioContextRef m) (processorRef m) (sourceRef m)
          (sessionRef m) v.

Definition set_contexts (v : list ContextState) (b : Browser) : Browser :=
  mkBrowser v (streams b) (sources b) (processors b) (sessions b) (timers b)
            (requests b).

Definition set_streams (v : list MediaStream) (b : Browser) : Browser :=
  mkBrowser (contexts b) v (sources b) (processors b) (sessions b) (timers b)
            (requests b).

Definition set_sources (v : list SourceNode) (b : Browser) : Browser :=
  mkBrowser (contexts b) (streams b) v (processors b) (sessions b) (timers b)
            (requests b).

Definition set_processors (v : list ProcessorNode) (b : Browser) : Browser :=
  mkBrowser (contexts b) (streams b) (sources b) v (sessions b) (timers b)
            (requests b).

Definition set_sessions (v : list Session) (b : Browser) : Browser :=
  mkBrowser (contexts b) (streams b) (sources b) (processors b) v (timers b)
            (requests b).

Definition set_timers (v : list bool) (b : Browser) : Browser :=
  mkBrowser (contexts b) (streams b) (sources b) (processors b) (sessions b) v
            (requests b).

Definition set_requests (v : list MediaRequest) (b : Browser) : Browser :=
  mkBrowser (contexts b) (streams b) (sources b) (processors b) (sessions b)
            (timers b) v.

(** ** Browser operations the component calls *)

(** [audioContext.close()] *)
Definition closeContext (c : nat) (b : Browser) : Browser :=
  set_contexts (<[c := ContextClosed]> (contexts b)) b.

(** [stream.getTracks().forEach(track => track.stop())] *)
Definition stopTracks (s : nat) (b : Browser) : Browser :=
  set_streams (alter (map (fun _ => Ended)) s (streams b)) b.

(** [source.disconnect()] *)
Definition disconnectSource (n : nat) (b : Browser) : Browser :=
  set_sources (alter (fun x => mkSource (src_stream x) None) n (sources b)) b.

(** [processor.disconnect()] *)
Definition disconnectProcessor (n : nat) (b : Browser) : Browser :=
  set_processors
    (alter (fun x => mkProcessor (proc_session x) false) n (processors b)) b.

(** [window.clearInterval(id)] *)
Definition clearInterval (t : nat) (b : Browser) : Browser :=
  set_timers (<[t := false]> (timers b)) b.

Definition setConn (sid : nat) (c : ConnState) (b : Browser) : Browser :=
  set_sessions
    (alter (fun s => mkSession c (sess_context s) (sess_stream s) (sent s))
           sid (sessions b)) b.

(** [session.sendRealtimeInput({ media: pcmBlob })] *)
Definition sendRealtimeInput (sid frame : nat) (b : Browser) : Browser :=
  set_sessions
    (alter (fun s => mkSession (conn s) (sess_context s) (sess_stream s)
                               (sent s ++ [frame]))
           sid (sessions b)) b.

(** ** [stopEverything] (Recorder.tsx, lines 76-101)

    [window.setInterval] hands out positive ids, so the truthiness test on
    [timerRef.current] is the null test.  The session branch only drops the
    reference: nothing is called on the session object. *)

Definition releaseProcessor (w : World) : World :=
  match processorRef (media w) with
  | Some p => withMedia (set_processorRef None)
                        (withBrowser (disconnectProcessor p) w)
  | None => w
  end.

Definition releaseSource (w : World) : World :=
  match sourceRef (media w) with
  | Some s => withMedia (set_sourceRef None) (withBrowser (disconnectSource s) w)
  | None => w
  end.

Definition releaseAudioContext (w : World) : World :=
  match audioContextRef (media w) with
  | Some c => withMedia (set_audioContextRef None)
                        (withBrowser (closeContext c) w)
  | None => w
  end.

Definition releaseStream (w : World) : World :=
  match streamRef (media w) with
  | Some s => withMedia (set_streamRef None) (withBrowser (stopTracks s) w)
  | None => w
  end.

Definition dropSession (w : World) : World :=
  match sessionRef (media w) with
  | Some _ => withMedia (set_sessionRef None) w
  | None => w
  end.

Definition releaseTimer (w : World) : World :=
  match timerRef (media w) with
  | Some t => withMedia (set_timerRef None) (withBrowser (clearInterval t) w)
  | None => w
  end.

Definition stopEverything (w : World) : World :=
  setIsRecording false
    (releaseTimer
       (dropSession
          (releaseStream
             (releaseAudioContext (releaseSource (releaseProcessor w)))))).

(** ** The turn reconciler: [onmessage] (Recorder.tsx, lines 271-313) *)

(** Lines 282-287: the repeated text of the last committed chunk is cut off
    the front of [txt]. *)
Definition stripRepeat (chunks : list TranscriptChunk) (txt : jsstring)
  : jsstring :=
  match last chunks with
  | Some lastChunk =>
      if (5 <? length (text lastChunk))%nat && startsWith txt (text lastChunk)
      then substring (length (text lastChunk)) txt
      else txt
  | None => txt
  end.

(** Lines 278-290, for a truthy [text]. *)
Definition onTranscription (txt : jsstring) (t : TurnRefs) : TurnRefs :=
  if isTurnActiveRef t then
    mkTurn (chunksRef t) (currentTurnRef t ++ txt) (turnStartTimeRef t) true
           (elapsedTimeRef t)
  else
    mkTurn (chunksRef t) (currentTurnRef t ++ stripRepeat (chunksRef t) txt)
           (elapsedTimeRef t) true (elapsedTimeRef t).

(** Lines 295-303. *)
Definition onTurnComplete (t : TurnRefs) : TurnRefs :=
  let chunks :=
    if truthy (trim (currentTurnRef t))
    then chunksRef t ++ [mkChunk (turnStartTimeRef t) (trim (currentTurnRef t))]
    else chunksRef t in
  mkTurn chunks [] (turnStartTimeRef t) false (elapsedTimeRef t).

(** Lines 308-310. *)
Definition fullText (t : TurnRefs) : jsstring :=
  let committedText := join (map text (chunksRef t)) in
  let currentText := currentTurnRef t in
  committedText
    ++ (if truthy committedText && truthy currentText then [32%N] else [])
    ++ currentText.

(** The text of [content?.inputTranscription], when the two [if]s let it by. *)
Definition incomingText (m : LiveServerMessage) : option jsstring :=
  match serverContent m with
  | Some c =>
      match inputTranscription c with
      | Some tr =>
          match it_text tr with
          | Some txt => if truthy txt then Some txt else None
          | None => None
          end
      | None => None
      end
  | None => None
  end.

(** [content?.turnComplete] as a condition. *)
Definition isTurnComplete (m : LiveServerMessage) : bool :=
  match serverContent m with
  | Some c => match turnComplete c with Some b => b | None => false end
  | None => false
  end.

(** The refs after the first [if] of the handler. *)
Definition afterTranscription (m : LiveServerMessage) (t : TurnRefs)
  : TurnRefs :=
  match incomingText m with
  | Some txt => onTranscription txt t
  | None => t
  end.

Definition reconcile (m : LiveServerMessage) (t : TurnRefs) : TurnRefs :=
  let t1 := afterTranscription m t in
  if isTurnComplete m then onTurnComplete t1 else t1.

Definition onmessage (m : LiveServerMessage) (w : World) : World :=
  let needsUpdate :=
    match incomingText m with Some _ => true | None => false end
    || isTurnComplete m in
  let w1 := withTurn (reconcile m) w in
  if needsUpdate then setTranscript (fullText (turn w1)) w1 else w1.

(** ** The other session callbacks (lines 245-270 and 314-320) *)

(** The interval callback of lines 248-251. *)
Definition bumpElapsed (t : TurnRefs) : TurnRefs :=
  mkTurn (chunksRef t) (currentTurnRef t) (turnStartTimeRef t)
         (isTurnActiveRef t) (elapsedTimeRef t + 1).

Definition tick (w : World) : World :=
  withTurn bumpElapsed (setElapsedTime (fun prev => prev + 1) w).

(** [onopen] of the session [sid], whose closure holds [audioContext] and
    [stream]: the timer is started and the audio graph is built and wired. *)
Definition onopen (sid : nat) (s : Session) (w : World) : World :=
  let w := setIsRecording true w in
  let t := length (timers (browser w)) in
  let w := withBrowser (fun b => set_timers (timers b ++ [true]) b) w in
  let w := withMedia (set_timerRef (Some t)) w in
  let source := length (sources (browser w)) in
  let processor := length (processors (browser w)) in
  let w := withMedia (set_sourceRef (Some source)) w in
  let w := withMedia (set_processorRef (Some processor)) w in
  withBrowser
    (fun b =>
       set_processors (processors b ++ [mkProcessor sid true])
         (set_sources (sources b ++ [mkSource (sess_stream s) (Some processor)])
                      b))
    w.

(** [processor.onaudioprocess]: installed by [onopen], so the promise of the
    session has been fulfilled when it runs. *)
Definition onaudioprocess (p frame : nat) (w : World) : World :=
  match processors (browser w) !! p with
  | Some pr =>
      withBrowser (sendRealtimeInput (proc_session pr) frame)
                  (withMedia (set_sessionRef (Some (proc_session pr))) w)
  | None => w
  end.

Definition onclose (w : World) : World := setIsRecording false w.

Definition onerror (message : option jsstring) (w : World) : World :=
  let msg := match message with
             | Some m => m
             | None => js "Connection error. Please try again."
             end in
  stopEverything (setError (Some msg) w).

(** ** [startRecording] (lines 200-328), split at [await getUserMedia] *)

Definition resetTurn (t : TurnRefs) : TurnRefs := mkTurn [] [] 0 false 0.

Definition startRecording (hasApiKey : bool) (now : Z) (w : World) : World :=
  let w := setError None w in
  let w := setTranscript [] w in
  let w := setElapsedTime (fun _ => 0) w in
  let w := setStartTime (Some now) w in
  let w := withTurn resetTurn w in
  if hasApiKey then
    let c := length (contexts (browser w)) in
    let w := withBrowser (fun b => set_contexts (contexts b ++ [Running]) b) w in
    let w := withMedia (set_audioContextRef (Some c)) w in
    withBrowser (fun b => set_requests (requests b ++ [mkRequest c false]) b) w
  else
    stopEverything (setError (Some (js "API Key not found")) w).

Definition settle (r : nat) (b : Browser) : Browser :=
  set_requests (alter (fun q => mkRequest (req_context q) true) r (requests b)) b.

(** The promise is fulfilled: lines 235-322. *)
Definition startRecording_granted (r : nat) (q : MediaRequest) (w : World)
  : World :=
  let w := withBrowser (settle r) w in
  let stream := length (streams (browser w)) in
  let w := withBrowser (fun b => set_streams (streams b ++ [[Live]]) b) w in
  let w := withMedia (set_streamRef (Some stream)) w in
  withBrowser
    (fun b => set_sessions
                (sessions b ++ [mkSession Connecting (req_context q) stream []])
                b)
    w.

(** The promise is rejected: the [catch] of lines 324-327. *)
Definition startRecording_denied (r : nat) (message : jsstring) (w : World)
  : World :=
  let msg := if truthy message then message
             else js "Could not start recording" in
  stopEverything (setError (Some msg) (withBrowser (settle r) w)).

(** ** [toggleRecording] and [handleFinish] (lines 330-362) *)

Definition toggleRecording (hasApiKey : bool) (now : Z) (w : World) : World :=
  if isRecording (ui w) then stopEverything w
  else startRecording hasApiKey now w.

(** [a || b] on numbers. *)
Definition orElse (a b : Z) : Z := if a =? 0 then b else a.

Definition pushChunk (c : TranscriptChunk) (t : TurnRefs) : TurnRefs :=
  mkTurn (chunksRef t ++ [c]) (currentTurnRef t) (turnStartTimeRef t)
         (isTurnActiveRef t) (elapsedTimeRef t).

(** [confirmed] is the answer [confirm] would give; the result is the
    argument of [onFinish], [None] when the handler returns early. *)
Definition handleFinish (now : Z) (confirmed : bool) (w : World)
  : World * option RecordingResult :=
  let w1 := if isRecording (ui w) then stopEverything w else w in
  let t := turn w1 in
  let w2 :=
    if truthy (trim (currentTurnRef t))
    then withTurn
           (pushChunk (mkChunk (orElse (turnStartTimeRef t) (elapsedTimeRef t))
                               (trim (currentTurnRef t))))
           w1
    else w1 in
  if (length (chunksRef (turn w2)) =? 0)%nat && negb confirmed
  then (w2, None)
  else
    let finalTranscript := join (map text (chunksRef (turn w2))) in
    (w2, Some {| r_startTime := default now (startTime (ui w));
                 r_endTime := now;
                 r_duration := elapsedTime (ui w);
                 r_text := finalTranscript;
                 r_chunks := chunksRef (turn w2) |}).

(** The cleanup of the mount effect (lines 181-184). *)
Definition unmount (w : World) : World :=
  let w := stopEverything w in
  mkWorld (ui w) (turn w) (media w) (browser w) false.

(** ** Events

    What the user, the browser and the remote service can do to a mounted
    or unmounted recorder.  An event that cannot happen in a state (a click
    on an unmounted view or a disabled button, a callback of a connection
    that is not in the right state, a timer that was cleared) leaves the
    state as it is. *)

Inductive Event :=
| ToggleClick (hasApiKey : bool) (now : Z)
| FinishClick (now : Z) (confirmed : bool)
| CancelClick
| Unmount
| MicGranted (request : nat)
| MicDenied (request : nat) (message : jsstring)
| SessionOpen (sid : nat)
| SessionMessage (sid : nat) (m : LiveServerMessage)
| SessionClose (sid : nat)
| SessionError (sid : nat) (message : option jsstring)
| TimerTick (timer : nat)
| AudioFrame (stream frame : nat).

Definition isLive (t : TrackState) : bool :=
  match t with Live => true | Ended => false end.

Definition hasLiveTrack (b : Browser) (s : nat) : bool :=
  match streams b !! s with
  | Some tracks => existsb isLive tracks
  | None => false
  end.

Definition contextRunning (b : Browser) (c : nat) : bool :=
  match contexts b !! c with
  | Some Running => true
  | _ => false
  end.

(** The processor a source node hands a buffer of stream [s] to: the source
    reads [s], [s] still has a live track, the source is connected to a
    processor that is connected to the destination, and the context of the
    graph is running. *)
Definition feeds (b : Browser) (s : nat) (n : SourceNode) : option nat :=
  if (src_stream n =? s)%nat && hasLiveTrack b s then
    match src_out n with
    | Some p =>
        match processors b !! p with
        | Some pr =>
            match sessions b !! proc_session pr with
            | Some se =>
                if proc_out pr && contextRunning b (sess_context se)
                then Some p else None
            | None => None
            end
        | None => None
        end
    | None => None
    end
  else None.

Definition wiredProcessor (b : Browser) (s : nat) : option nat :=
  head (omap (feeds b s) (sources b)).

(** The "Finish & Save" button is disabled when
    [transcript.length === 0 && !isRecording]. *)
Definition finishEnabled (w : World) : bool :=
  negb ((length (transcript (ui w)) =? 0)%nat && negb (isRecording (ui w))).

Definition step (w : World) (e : Event) : World :=
  match e with
  | ToggleClick hasApiKey now =>
      if mounted w then toggleRecording hasApiKey now w else w
  | FinishClick now confirmed =>
      (* [onFinish] of App.tsx saves the result and switches the view: the
         unmount that follows is an event of its own *)
      if mounted w && finishEnabled w
      then fst (handleFinish now confirmed w) else w
  | CancelClick =>
      (* [onCancel] of App.tsx switches the view, which unmounts the recorder *)
      if mounted w then unmount w else w
  | Unmount => if mounted w then unmount w else w
  | MicGranted r =>
      match requests (browser w) !! r with
      | Some q => if req_settled q then w else startRecording_granted r q w
      | None => w
      end
  | MicDenied r message =>
      match requests (browser w) !! r with
      | Some q => if req_settled q then w else startRecording_denied r message w
      | None => w
      end
  | SessionOpen sid =>
      match sessions (browser w) !! sid with
      | Some s =>
          match conn s with
          | Connecting => onopen sid s (withBrowser (setConn sid Open) w)
          | _ => w
          end
      | None => w
      end
  | SessionMessage sid m =>
      match sessions (browser w) !! sid with
      | Some s => match conn s with Open => onmessage m w | _ => w end
      | None => w
      end
  | SessionClose sid =>
      match sessions (browser w) !! sid with
      | Some s =>
          match conn s with
          | Open => onclose (withBrowser (setConn sid Closed) w)
          | _ => w
          end
      | None => w
      end
  | SessionError sid message =>
      match sessions (browser w) !! sid with
      | Some s =>
          match conn s with
          | Connecting | Open =>
              onerror message (withBrowser (setConn sid Errored) w)
          | _ => w
          end
      | None => w
      end
  | TimerTick t =>
      match timers (browser w) !! t with
      | Some true => tick w
      | _ => w
      end
  | AudioFrame s frame =>
      match wiredProcessor (browser w) s with
      | Some p => onaudioprocess p frame w
      | None => w
      end
  end.

Definition run (w : World) (evs : list Event) : World := fold_left step evs w.

(** ** What is still open *)

Definition contextOpen (c : ContextState) : bool :=
  match c with Running => true | ContextClosed => false end.

Definition sourceConnected (n : SourceNode) : bool :=
  match src_out n with Some _ => true | None => false end.

Definition connectionOpen (s : Session) : bool :=
  match conn s with
  | Connecting | Open => true
  | Closed | Errored => false
  end.

(** Live tracks, running contexts and connected nodes in the whole store. *)
Definition audioHandleCount (b : Browser) : nat :=
  (length (filter (fun t => isLive t = true) (concat (streams b)))
   + length (filter (fun c => contextOpen c = true) (contexts b))
   + length (filter (fun n => sourceConnected n = true) (sources b))
   + length (filter (fun p => proc_out p = true) (processors b)))%nat.

Definition openConnectionCount (b : Browser) : nat :=
  length (filter (fun s => connectionOpen s = true) (sessions b)).

Definition activeTimerCount (b : Browser) : nat :=
  length (filter (fun t => t = true) (timers b)).

(** ** Sessions as traces

    A recording session starts when [startRecording] resets the refs and is
    over when [handleFinish] hands the result to [onFinish]. *)

Definition startsRecording (w : World) (e : Event) : bool :=
  match e with
  | ToggleClick _ _ => mounted w && negb (isRecording (ui w))
  | _ => false
  end.

Definition handsOff (w : World) (e : Event) : bool :=
  match e with
  | FinishClick now confirmed =>
      mounted w && finishEnabled w
      && match snd (handleFinish now confirmed w) with
         | Some _ => true
         | None => false
         end
  | _ => false
  end.

(** No event of the trace starts a new recording. *)
Fixpoint staysInSession (w : World) (evs : list Event) : bool :=
  match evs with
  | [] => true
  | e :: rest => negb (startsRecording w e) && staysInSession (step w e) rest
  end.

(** Nor does one hand the result off. *)
Fixpoint sessionGoesOn (w : World) (evs : list Event) : bool :=
  match evs with
  | [] => true
  | e :: rest =>
      negb (startsRecording w e) && negb (handsOff w e)
      && sessionGoesOn (step w e) rest
  end.

(** Buffers of stream [s] captured along a trace. *)
Definition capturedOn (s : nat) (e : Event) : bool :=
  match e with
  | AudioFrame s' _ => (s' =? s)%nat
  | _ => false
  end.

Fixpoint framesCaptured (s : nat) (evs : list Event) : nat :=
  match evs with
  | [] => 0
  | e :: rest => (if capturedOn s e then 1 else 0) + framesCaptured s rest
  end%nat.

(** Timestamps never go down and never are negative. *)
Definition timestampsOrdered (chunks : list TranscriptChunk) : Prop :=
  StronglySorted Z.le (map timestamp chunks)
  /\ Forall (fun c => 0 <= timestamp c) chunks.

(** The refs own whatever is open in the store. *)
Definition ownsAll (w : World) : Prop :=
  (forall i, contexts (browser w) !! i = Some Running ->
             audioContextRef (media w) = Some i)
  /\ (forall i ts, streams (browser w) !! i = Some ts -> existsb isLive ts = true ->
                   streamRef (media w) = Some i)
  /\ (forall i n, sources (browser w) !! i = Some n -> sourceConnected n = true ->
                  sourceRef (media w) = Some i)
  /\ (forall i p, processors (browser w) !! i = Some p -> proc_out p = true ->
                  processorRef (media w) = Some i).

Definition noMedia : MediaRefs := mkMedia None None None None None None.

(** ** Invariants and example states *)

(** A turn that started in the first second and is still open when the
    user finishes after seven seconds. *)
Definition turnOpenedAtZero : list Event :=
  [ToggleClick true 0; MicGranted 0; SessionOpen 0;
   SessionMessage 0 (partialText (js "and that concludes"))]
  ++ repeat (TimerTick 0) 7.

Definition sameElapsed (w : World) (e : Event) : Prop :=
  elapsedTime (ui (step w e)) = elapsedTime (ui w).

(** The five things an event can do to the turn refs. *)
Inductive TurnEffect (w : World) (e : Event) : Prop :=
| te_none : turn (step w e) = turn w -> sameElapsed w e -> TurnEffect w e
| te_reset : startsRecording w e = true ->
             turn (step w e) = resetTurn (turn w) ->
             elapsedTime (ui (step w e)) = 0 -> TurnEffect w e
| te_message m : turn (step w e) = reconcile m (turn w) -> sameElapsed w e ->
                 TurnEffect w e
| te_tick : turn (step w e) = bumpElapsed (turn w) ->
            elapsedTime (ui (step w e)) = elapsedTime (ui w) + 1 ->
            TurnEffect w e
| te_finish now confirmed :
    e = FinishClick now confirmed -> mounted w && finishEnabled w = true ->
    turn (step w e) = turn (fst (handleFinish now confirmed w)) ->
    sameElapsed w e -> TurnEffect w e.

Definition synced (w : World) : Prop :=
  elapsedTime (ui w) = elapsedTimeRef (turn w).

(** What holds of the turn refs all along a session. *)
Definition turnInv (t : TurnRefs) : Prop :=
  0 <= turnStartTimeRef t <= elapsedTimeRef t
  /\ timestampsOrdered (chunksRef t)
  /\ Forall (fun c => timestamp c <= elapsedTimeRef t) (chunksRef t)
  /\ (isTurnActiveRef t = true ->
      Forall (fun c => timestamp c <= turnStartTimeRef t) (chunksRef t))
  /\ (isTurnActiveRef t = false -> currentTurnRef t = []).

(** Every handle a ref pointed to is released in the store [b]. *)
Definition released (m : MediaRefs) (b : Browser) : Prop :=
  (forall c, audioContextRef m = Some c -> contextRunning b c = false)
  /\ (forall s, streamRef m = Some s -> hasLiveTrack b s = false)
  /\ (forall n x, sourceRef m = Some n -> sources b !! n = Some x ->
                  src_out x = None)
  /\ (forall p x, processorRef m = Some p -> processors b !! p = Some x ->
                  proc_out x = false)
  /\ (forall t, timerRef m = Some t -> timers b !! t <> Some true).

(** One recording that streams audio: the state the examples stop. *)
Definition streamingTrace : list Event :=
  [ToggleClick true 0; MicGranted 0; SessionOpen 0; AudioFrame 0 1;
   SessionMessage 0 (partialText (js "Hello")); TimerTick 0].

Definition streaming : World :=
  Eval vm_compute in run initialWorld streamingTrace.

(** Two recordings at once: the button starts a recording whenever
    [isRecording] is off, and it stays off until a connection opens.  Each
    start overwrites the refs of the one before. *)
Definition twoStartsTrace : list Event :=
  [ToggleClick true 0; ToggleClick true 1; MicGranted 0; MicGranted 1;
   SessionOpen 0; SessionOpen 1;
   SessionMessage 0 (partialText (js "Hello"));
   SessionMessage 0 turnCompleteMsg].

Definition twoStarts : World :=
  Eval vm_compute in run initialWorld twoStartsTrace.

(** A recording started again after the remote side closed the first:
    [onclose] turns [isRecording] off and releases nothing. *)
Definition restartedTrace : list Event :=
  [ToggleClick true 0; MicGranted 0; SessionOpen 0; SessionClose 0;
   ToggleClick true 5; MicGranted 1; SessionOpen 1].

Definition restarted : World :=
  Eval vm_compute in run initialWorld restartedTrace.

(** How sessions, processors and sources hang together in every reachable
    store: a connecting session has sent nothing and has no processor; a
    connected source feeds a processor of the session that reads the same
    stream; a processor belongs to a session of the store. *)
Definition wiring (b : Browser) : Prop :=
  (forall sid se, sessions b !! sid = Some se -> conn se = Connecting ->
                  sent se = []
                  /\ forall p, (proc_session <$> processors b) !! p <> Some sid)
  /\ (forall i n p, sources b !! i = Some n -> src_out n = Some p ->
                    exists s, (proc_session <$> processors b) !! p = Some s
                              /\ (sess_stream <$> sessions b) !! s
                                 = Some (src_stream n))
  /\ (forall p s, (proc_session <$> processors b) !! p = Some s ->
                  (s < length (sessions b))%nat).

(** The session [se] at [sid] is still there, on the same stream, with at
    most [extra] more buffers sent. *)
Definition carried (se : Session) (l : list Session) (sid extra : nat) : Prop :=
  exists se', l !! sid = Some se'
              /\ sess_stream se' = sess_stream se
              /\ (length (sent se') <= length (sent se) + extra)%nat.

(** Where streams and sources come from: a session reads a stream of the
    store, no two sessions read the same stream, and a source node reads the
    stream of a session that has left [Connecting]. *)
Definition provenance (b : Browser) : Prop :=
  (forall sid se, sessions b !! sid = Some se ->
                  (sess_stream se < length (streams b))%nat)
  /\ (forall a c sa sc, sessions b !! a = Some sa -> sessions b !! c = Some sc ->
                        sess_stream sa = sess_stream sc -> a = c)
  /\ (forall i s, (src_stream <$> sources b) !! i = Some s ->
                  exists sid se, sessions b !! sid = Some se
                                 /\ sess_stream se = s
                                 /\ conn se <> Connecting).

(** ** The rest of the recorder *)

(** A chunk as the reconciler makes them: some text, nothing to trim. *)
Definition wellFormedChunk (c : TranscriptChunk) : Prop :=
  truthy (text c) = true /\ trim (text c) = text c.

(** The buffers a stream captures along a trace, oldest first. *)
Definition capturedFrame (s : nat) (e : Event) : option nat :=
  match e with
  | AudioFrame s' frame => if (s' =? s)%nat then Some frame else None
  | _ => None
  end.

Definition capturedFrames (s : nat) (evs : list Event) : list nat :=
  omap (capturedFrame s) evs.

(** Every interval that is still scheduled is the one [timerRef] holds. *)
Definition ownsTimers (w : World) : Prop :=
  forall t, timers (browser w) !! t = Some true -> timerRef (media w) = Some t.

(** [formatTime] (lines 364-368) on whole seconds that are safe integers,
    as every count of seconds of the recorder is.  Up to [MAX_SAFE_INTEGER]
    a whole number is a double; its quotient by 60 is below [2 ^ 48], where
    two doubles are at most [2 ^ -5] apart, and it is at least a sixtieth
    away from the next whole number, so the rounded quotient stays below
    that number and [Math.floor] of it is the floor division.  [%] is exact
    and keeps the sign of the dividend.  A whole number below [10 ^ 21]
    prints all its decimal digits, with a minus sign when negative.  Beyond
    the safe integers the quotient may round up to a whole number and large
    numbers print with an exponent: the definitions are not the code
    there, and what is proved of them stays within [wholeSeconds]. *)
Definition MAX_SAFE_INTEGER : Z := 9007199254740991.

Definition wholeSeconds (n : Z) : Prop := 0 <= n <= MAX_SAFE_INTEGER.

Definition toString (n : Z) : jsstring :=
  js (NilZero.string_of_int (Z.to_int n)).

(** [s.padStart(targetLength, c)] for a one-character filler. *)
Definition padStart (targetLength : nat) (c : N) (s : jsstring) : jsstring :=
  repeat c (targetLength - length s) ++ s.

Definition formatTime (seconds : Z) : jsstring :=
  let mins := seconds / 60 in
  let secs := Z.rem seconds 60 in
  toString mins ++ 58%N :: padStart 2 48%N (toString secs).

(** What every reachable state satisfies: the chunks are well formed, text
    is in flight only while a turn is active, the turn started between
    second 0 and now, and the live transcript is not empty when there is a
    chunk or text in flight. *)
Definition viewInv (w : World) : Prop :=
  Forall wellFormedChunk (chunksRef (turn w))
  /\ (isTurnActiveRef (turn w) = true \/ currentTurnRef (turn w) = [])
  /\ 0 <= turnStartTimeRef (turn w) <= elapsedTimeRef (turn w)
  /\ ((chunksRef (turn w) = [] /\ currentTurnRef (turn w) = [])
      \/ truthy (transcript (ui w)) = true).

(** The shapes a step takes, as far as the turn refs and the live
    transcript go. *)
Inductive StepShape (w : World) (e : Event) : Prop :=
| ss_quiet : turn (step w e) = turn w ->
             transcript (ui (step w e)) = transcript (ui w) -> StepShape w e
| ss_start k now : step w e = startRecording k now w -> StepShape w e
| ss_message m : step w e = onmessage m w -> StepShape w e
| ss_tick : step w e = tick w -> StepShape w e
| ss_finish now c : step w e = fst (handleFinish now c w) -> StepShape w e.

(** The session [se] at [sid] is still there, on the same stream, and has
    sent [ext] since. *)
Definition sentSince (se : Session) (l : list Session) (sid : nat)
    (ext : list nat) : Prop :=
  exists se', l !! sid = Some se'
              /\ sess_stream se' = sess_stream se
              /\ sent se' = sent se ++ ext.

(** ** The PCM encoder: [encode] and [createBlob] (lines 21-41)

    A sample of a [Float32Array] is not a number, an infinity, or a
    rational.  The arithmetic [createBlob] does on it is exact in double
    precision: [Math.min] and [Math.max] round nothing, a product with
    [0x8000] only moves the exponent, and a product of a 24-bit significand
    with [0x7FFF] has at most 39 significant bits.  So the rationals compute
    what the code computes.  The byte view of the [Int16Array] is little
    endian, as on the hardware browsers run on. *)

Inductive float32 :=
| F_nan
| F_inf (negative : bool)
| F_num (q : Q).

(** [Math.min(1, x)] *)
Definition min1 (x : float32) : float32 :=
  match x with
  | F_nan => F_nan
  | F_inf true => F_inf true
  | F_inf false => F_num 1
  | F_num q => F_num (Qmin 1 q)
  end.

(** [Math.max(-1, x)] *)
Definition maxNeg1 (x : float32) : float32 :=
  match x with
  | F_nan => F_nan
  | F_inf true => F_num (-1)
  | F_inf false => F_inf false
  | F_num q => F_num (Qmax (-1) q)
  end.

(** [s < 0 ? s * 0x8000 : s * 0x7FFF] *)
Definition scaleSample (s : float32) : float32 :=
  match s with
  | F_nan => F_nan
  | F_inf negative => F_inf negative
  | F_num q => if Qle_bool 0 q then F_num (q * inject_Z 32767)
               else F_num (q * inject_Z 32768)
  end.

(** Rounding toward zero. *)
Definition truncate (q : Q) : Z :=
  if Qle_bool 0 q then Qfloor q else Qceiling q.

Definition wrap16 (z : Z) : Z := (z + 32768) mod 65536 - 32768.

(** Storing a number into an [Int16Array]. *)
Definition toInt16 (v : float32) : Z :=
  match v with
  | F_num q => wrap16 (truncate q)
  | _ => 0
  end.

Definition pcmSample (x : float32) : Z :=
  toInt16 (scaleSample (maxNeg1 (min1 x))).

(** [new Uint8Array(int16.buffer)] *)
Definition bytesOfInt16 (v : Z) : list Z :=
  let u := v mod 65536 in [u mod 256; u / 256].

Definition bytesOfInt16Array (vs : list Z) : list Z :=
  concat (map bytesOfInt16 vs).

(** The base64 alphabet. *)
Definition base64Char (i : Z) : N :=
  Z.to_N (if i <? 26 then 65 + i
          else if i <? 52 then 71 + i
          else if i <? 62 then i - 4
          else if i =? 62 then 43 else 47).

Fixpoint base64 (bytes : list Z) : jsstring :=
  match bytes with
  | a :: b :: c :: rest =>
      base64Char (a / 4) :: base64Char (a mod 4 * 16 + b / 16)
      :: base64Char (b mod 16 * 4 + c / 64) :: base64Char (c mod 64)
      :: base64 rest
  | [a; b] =>
      [base64Char (a / 4); base64Char (a mod 4 * 16 + b / 16);
       base64Char (b mod 16 * 4); 61%N]
  | [a] => [base64Char (a / 4); base64Char (a mod 4 * 16); 61%N; 61%N]
  | [] => []
  end.

(** [btoa]: throws on a code unit above 255. *)
Definition btoa (binary : jsstring) : option jsstring :=
  if forallb (fun c => (c <=? 255)%N) binary
  then Some (base64 (map Z.of_N binary))
  else None.

(** [encode]: the loop appends [String.fromCharCode(bytes[i])]. *)
Definition encode (bytes : list Z) : option jsstring :=
  let binary := fold_left (fun acc b => acc ++ [Z.to_N b]) bytes [] in
  btoa binary.

Record PcmBlob := mkBlob {
  blob_data : option jsstring;     (* [None]: [btoa] threw *)
  blob_mimeType : jsstring
}.

Definition createBlob (data : list float32) : PcmBlob :=
  let int16 := map pcmSample data in
  {| blob_data := encode (bytesOfInt16Array int16);
     blob_mimeType := js "audio/pcm;rate=16000" |}.

(** An element of a [Uint8Array]. *)
Definition isByte (b : Z) : Prop := 0 <= b < 256.

(** Reading base64 back, to show that nothing is lost. *)
Definition base64Index (c : N) : Z :=
  let c := Z.of_N c in
  if (65 <=? c) && (c <=? 90) then c - 65
  else if (97 <=? c) && (c <=? 122) then c - 71
  else if (48 <=? c) && (c <=? 57) then c + 4
  else if c =? 43 then 62 else 63.

Fixpoint unbase64 (s : jsstring) : list Z :=
  match s with
  | c1 :: c2 :: c3 :: c4 :: rest =>
      let i1 := base64Index c1 in
      let i2 := base64Index c2 in
      let i3 := base64Index c3 in
      let i4 := base64Index c4 in
      if (c3 =? 61)%N then [i1 * 4 + i2 / 16]
      else if (c4 =? 61)%N then [i1 * 4 + i2 / 16; i2 mod 16 * 16 + i3 / 4]
      else i1 * 4 + i2 / 16 :: i2 mod 16 * 16 + i3 / 4 :: i3 mod 4 * 64 + i4
           :: unbase64 rest
  | _ => []
  end.

Definition isBase64Char (c : N) : bool :=
  let c := Z.of_N c in
  ((65 <=? c) && (c <=? 90)) || ((97 <=? c) && (c <=? 122))
  || ((48 <=? c) && (c <=? 57)) || (c =? 43) || (c =? 47) || (c =? 61).

(** ** The lecture store (services/storageService.ts) and the handlers of
    App.tsx that feed it

    A lecture as stored.  [l_sessions], [l_chunks] and [l_tags] can be
    missing in legacy data.  What the generative service produced is opaque
    here and stands as its JSON text.  Dates are instants, as in the
    recorder.  What is written with [JSON.stringify] is read back the same
    by [JSON.parse]. *)

Record TranscriptSession := mkSessionRec {
  s_id : jsstring;
  s_startTime : Z;
  s_endTime : Z;
  s_duration : Z;
  s_text : jsstring
}.

Record LectureData := mkLecture {
  l_id : jsstring;
  l_title : jsstring;
  l_date : Z;
  l_duration : Z;
  l_transcriptText : jsstring;
  l_sessions : option (list TranscriptSession);
  l_chunks : option (list TranscriptChunk);
  l_tags : option (list jsstring);
  l_summary : option jsstring;
  l_flashcards : option jsstring;
  l_quiz : option jsstring;
  l_studyNotes : option jsstring;
  l_mindmap : option jsstring;
  l_chatHistory : option jsstring
}.

(** The item of [localStorage] under [STORAGE_KEY]: missing (or the empty
    string), a JSON array of lectures, JSON that is no array, or no JSON. *)
Inductive Stored :=
| NoItem
| Items (ls : list LectureData)
| NotAnArray
| NotJson.

(** What a call comes to: it throws, or it returns. *)
Inductive Outcome (A : Type) :=
| Threw
| Done (a : A).
Arguments Threw {A}.
Arguments Done {A} a.

(** [lectures.sort((a, b) => date(b) - date(a))]: a stable sort, latest
    first. *)
Fixpoint insertByDate (x : LectureData) (ls : list LectureData)
  : list LectureData :=
  match ls with
  | [] => [x]
  | y :: rest => if l_date y <=? l_date x then x :: y :: rest
                 else y :: insertByDate x rest
  end.

Definition sortByDateDesc (ls : list LectureData) : list LectureData :=
  foldr insertByDate [] ls.

Definition findIndexById (id : jsstring) (ls : list LectureData) : option nat :=
  fst <$> list_find (fun l => l_id l = id) ls.

Definition findById (id : jsstring) (ls : list LectureData)
  : option LectureData :=
  snd <$> list_find (fun l => l_id l = id) ls.

Section Storage.

(** Whether [localStorage.setItem] accepts the list: it throws when the
    quota is exceeded. *)
Variable fits : list LectureData -> bool.

(** [saveLecture]: the outcome carries the store and whether the user was
    alerted that the storage is full. *)
Definition saveLecture (lecture : LectureData) (st : Stored)
  : Outcome (Stored * bool) :=
  let parsed :=
    match st with
    | NoItem => Done []
    | Items ls => Done ls
    | NotAnArray | NotJson => Threw
    end in
  match parsed with
  | Threw => Threw
  | Done lectures =>
      let lectures :=
        match findIndexById (l_id lecture) lectures with
        | Some index => <[index := lecture]> lectures
        | None => lectures ++ [lecture]
        end in
      let lectures := sortByDateDesc lectures in
      if fits lectures then Done (Items lectures, false)
      else Done (st, true)
  end.

Definition getLectures (st : Stored) : list LectureData :=
  match st with
  | Items ls => ls
  | NoItem | NotAnArray | NotJson => []
  end.

Definition getLectureById (id : jsstring) (st : Stored) : option LectureData :=
  findById id (getLectures st).

Definition deleteLecture (id : jsstring) (st : Stored) : Outcome Stored :=
  let lectures := getLectures st in
  let filtered := filter (fun l => l_id l <> id) lectures in
  if fits filtered then Done (Items filtered) else Threw.

(** What [JSON.parse] makes of an imported file. *)
Inductive ImportFile :=
| BadJson
| NoDataArray
| Data (ls : list LectureData).

(** The [forEach] of [importData]: lectures whose id is not there yet are
    pushed and counted. *)
Definition mergeLecture (acc : list LectureData * nat) (nl : LectureData)
  : list LectureData * nat :=
  match findById (l_id nl) (fst acc) with
  | Some _ => acc
  | None => (fst acc ++ [nl], S (snd acc))
  end.

(** [importData]: the promise resolves with the number added ([Some]) or
    is rejected ([None]). *)
Definition importData (file : ImportFile) (st : Stored) : Stored * option nat :=
  match file with
  | BadJson | NoDataArray => (st, None)
  | Data newLectures =>
      let merged := fold_left mergeLecture newLectures (getLectures st, 0%nat) in
      if fits (fst merged) then (Items (fst merged), Some (snd merged))
      else (st, None)
  end.

(** *** App.tsx *)

Inductive ViewMode := dashboard | record | detail.

Record App := mkApp {
  lectures : list LectureData;
  viewMode : ViewMode;
  selectedLectureId : option jsstring;
  pendingLectureId : option jsstring;
  showGenModal : bool;
  storage : Stored
}.

(** What the handler draws from outside: the UUIDs, the lecture id made of
    the clock and a random number, the clock, and the localised title. *)
Record Fresh := mkFresh {
  sessionId : jsstring;
  legacySessionId : jsstring;
  lectureId : jsstring;
  clock : Z;
  lectureTitle : jsstring
}.

Definition sessionOf (f : Fresh) (result : RecordingResult) : TranscriptSession :=
  mkSessionRec (sessionId f) (r_startTime result) (r_endTime result)
               (r_duration result) (r_text result).

(** The lecture an appending save builds from [existing] (lines 84-101). *)
Definition appendedLecture (f : Fresh) (existing : LectureData)
    (result : RecordingResult) : LectureData :=
  let newSession := sessionOf f result in
  {| l_id := l_id existing;
     l_title := l_title existing;
     l_date := l_date existing;
     l_duration := l_duration existing + r_duration result;
     l_transcriptText :=
       l_transcriptText existing ++ [10%N; 10%N] ++ r_text result;
     l_sessions :=
       Some match l_sessions existing with
            | Some ss => ss ++ [newSession]
            | None =>
                [mkSessionRec (legacySessionId f) (l_date existing) (clock f)
                              (l_duration existing) (l_transcriptText existing);
                 newSession]
            end;
     l_chunks := Some (default [] (l_chunks existing) ++ r_chunks result);
     l_tags := l_tags existing;
     l_summary := None;
     l_flashcards := None;
     l_quiz := None;
     l_studyNotes := None;
     l_mindmap := None;
     l_chatHistory := l_chatHistory existing |}.

(** The lecture a first save builds (lines 103-113). *)
Definition createdLecture (f : Fresh) (result : RecordingResult) : LectureData :=
  {| l_id := lectureId f;
     l_title := lectureTitle f;
     l_date := r_startTime result;
     l_duration := r_duration result;
     l_transcriptText := r_text result;
     l_sessions := Some [sessionOf f result];
     l_chunks := Some (r_chunks result);
     l_tags := Some [];
     l_summary := None;
     l_flashcards := None;
     l_quiz := None;
     l_studyNotes := None;
     l_mindmap := None;
     l_chatHistory := None |}.

(** How a handler ends: it returns, or an exception leaves it, with the
    state as it then is. *)
Inductive Handled :=
| Returned (a : App)
| Rejected (a : App).

(** The tail of the handler (lines 116-123); [saveLecture] may throw, and
    then nothing after it runs. *)
Definition saveAndShow (lecture : LectureData) (a : App) : Handled :=
  match saveLecture lecture (storage a) with
  | Threw => Rejected a
  | Done (st, _) =>
      Returned {| lectures := getLectures st;
                  viewMode := detail;
                  selectedLectureId := selectedLectureId a;
                  pendingLectureId := Some (l_id lecture);
                  showGenModal := true;
                  storage := st |}
  end.

Definition setSelectedLectureId (v : option jsstring) (a : App) : App :=
  mkApp (lectures a) (viewMode a) v (pendingLectureId a) (showGenModal a)
        (storage a).

Definition isRecordMode (v : ViewMode) : bool :=
  match v with record => true | _ => false end.

(** [handleRecordingFinished] (lines 65-124). *)
Definition handleRecordingFinished (f : Fresh) (result : RecordingResult)
    (a : App) : Handled :=
  match selectedLectureId a with
  | Some selected =>
      if truthy selected && isRecordMode (viewMode a) then
        match findById selected (lectures a) with
        | None => Returned a
        | Some existing => saveAndShow (appendedLecture f existing result) a
        end
      else
        saveAndShow (createdLecture f result)
                    (setSelectedLectureId (Some (lectureId f)) a)
  | None =>
      saveAndShow (createdLecture f result)
                  (setSelectedLectureId (Some (lectureId f)) a)
  end.

(** [handleDeleteLecture] (lines 192-197). *)
Definition handleDeleteLecture (id : jsstring) (a : App) : Handled :=
  match deleteLecture id (storage a) with
  | Threw => Rejected a
  | Done st =>
      Returned {| lectures := getLectures st;
                  viewMode := dashboard;
                  selectedLectureId := None;
                  pendingLectureId := pendingLectureId a;
                  showGenModal := showGenModal a;
                  storage := st |}
  end.

(** [handleUpdateLecture] (lines 187-190). *)
Definition handleUpdateLecture (lecture : LectureData) (a : App) : Handled :=
  match saveLecture lecture (storage a) with
  | Threw => Rejected a
  | Done (st, _) =>
      Returned (mkApp (getLectures st) (viewMode a) (selectedLectureId a)
                      (pendingLectureId a) (showGenModal a) st)
  end.

End Storage.

(** Ids that occur once. *)
Definition uniqueIds (ls : list LectureData) : Prop := NoDup (map l_id ls).

Definition latestFirst (ls : list LectureData) : Prop :=
  StronglySorted (fun a b => l_date b <= l_date a) ls.



(** The list [saveLecture] sorts: the lecture replaces the one with its id,
    or is pushed. *)
Definition placed (lecture : LectureData) (ls : list LectureData)
  : list LectureData :=
  match findIndexById (l_id lecture) ls with
  | Some index => <[index := lecture]> ls
  | None => ls ++ [lecture]
  end.

(** What [saveLecture] reads from the store before it writes. *)
Definition parsedStore (st : Stored) : option (list LectureData) :=
  match st with
  | NoItem => Some []
  | Items ls => Some ls
  | NotAnArray | NotJson => None
  end.

(** Two lectures and a store for the examples. *)
Definition lectureOf (id : string) (date : Z) : LectureData :=
  mkLecture (js id) (js "Lecture") date 60 (js "some text") None None None
            None None None None None None.

Definition alwaysFits (ls : list LectureData) : bool := true.

Definition neverFits (ls : list LectureData) : bool := false.

(** The handler takes the appending branch. *)
Definition appendsTo (a : App) (id : jsstring) : Prop :=
  selectedLectureId a = Some id /\ truthy id = true /\ viewMode a = record.

(** The handler takes the creating branch. *)
Definition createsNew (a : App) : Prop :=
  match selectedLectureId a with
  | Some id => truthy id && isRecordMode (viewMode a) = false
  | None => True
  end.

(** The list shown is the list stored. *)
Definition inSync (a : App) : Prop := lectures a = getLectures (storage a).

Definition endsInSync (h : Handled) : Prop :=
  match h with
  | Returned a => inSync a
  | Rejected a => inSync a
  end.

Definition someFresh : Fresh :=
  mkFresh (js "s-1") (js "s-0") (js "lect_1") 5000 (js "Lecture today").

Definition someResult : RecordingResult :=
  mkResult 1000 4000 3 (js "Hello world")
           [mkChunk 0 (js "Hello"); mkChunk 2 (js "world")].

(** ** Microphone selection and the level preview (lines 50-54, 70-73,
    103-198)

    The setup screen lists the audio inputs and shows the level of the
    selected one.  The preview opens a stream and an audio context of its
    own in the store the recorder uses, and holds them in refs of its own.
    A [requestAnimationFrame] callback is an entry of [frames], [true] while
    it is pending; its handle is never zero, so a ref that holds one is
    truthy.  The analyser graph of a preview is reachable from its context
    only and is not kept apart from it. *)

Inductive DeviceKind := audioinput | audiooutput | videoinput.

Record MediaDeviceInfo := mkDevice {
  deviceId : jsstring;
  kind : DeviceKind;
  label : jsstring
}.

Record PreviewRefs := mkPreview {
  previewContextRef : option nat;
  previewStreamRef : option nat;
  previewAnimationFrameRef : option nat
}.

Record Setup := mkSetup {
  recorder : World;
  devices : list MediaDeviceInfo;
  selectedDeviceId : jsstring;
  previewVolume : Q;
  preview : PreviewRefs;
  frames : list bool;
  previewRequests : list bool        (* [getUserMedia] promises: settled? *)
}.

Definition initialSetup : Setup :=
  mkSetup initialWorld [] [] 0%Q (mkPreview None None None) [] [].

Definition meterInRange (s : Setup) : Prop :=
  (0 <= previewVolume s)%Q /\ (previewVolume s <= 100)%Q.

Definition withRecorder (f : World -> World) (s : Setup) : Setup :=
  mkSetup (f (recorder s)) (devices s) (selectedDeviceId s) (previewVolume s)
          (preview s) (frames s) (previewRequests s).

Definition setDevices (v : list MediaDeviceInfo) (s : Setup) : Setup :=
  mkSetup (recorder s) v (selectedDeviceId s) (previewVolume s)
          (preview s) (frames s) (previewRequests s).

Definition setSelectedDeviceId (v : jsstring) (s : Setup) : Setup :=
  mkSetup (recorder s) (devices s) v (previewVolume s)
          (preview s) (frames s) (previewRequests s).

Definition setPreviewVolume (v : Q) (s : Setup) : Setup :=
  mkSetup (recorder s) (devices s) (selectedDeviceId s) v
          (preview s) (frames s) (previewRequests s).

Definition withPreview (f : PreviewRefs -> PreviewRefs) (s : Setup) : Setup :=
  mkSetup (recorder s) (devices s) (selectedDeviceId s) (previewVolume s)
          (f (preview s)) (frames s) (previewRequests s).

Definition set_frames (v : list bool) (s : Setup) : Setup :=
  mkSetup (recorder s) (devices s) (selectedDeviceId s) (previewVolume s)
          (preview s) v (previewRequests s).

Definition set_previewRequests (v : list bool) (s : Setup) : Setup :=
  mkSetup (recorder s) (devices s) (selectedDeviceId s) (previewVolume s)
          (preview s) (frames s) v.

Definition set_previewContextRef (v : option nat) (p : PreviewRefs)
  : PreviewRefs :=
  mkPreview v (previewStreamRef p) (previewAnimationFrameRef p).

Definition set_previewStreamRef (v : option nat) (p : PreviewRefs)
  : PreviewRefs :=
  mkPreview (previewContextRef p) v (previewAnimationFrameRef p).

Definition set_previewAnimationFrameRef (v : option nat) (p : PreviewRefs)
  : PreviewRefs :=
  mkPreview (previewContextRef p) (previewStreamRef p) v.

(** [cancelAnimationFrame(id)] *)
Definition cancelAnimationFrame (f : nat) (s : Setup) : Setup :=
  set_frames (<[f := false]> (frames s)) s.

(** [stopPreview] (lines 103-117) *)
Definition cancelPreviewFrame (s : Setup) : Setup :=
  match previewAnimationFrameRef (preview s) with
  | Some f =>
      withPreview (set_previewAnimationFrameRef None) (cancelAnimationFrame f s)
  | None => s
  end.

Definition releasePreviewStream (s : Setup) : Setup :=
  match previewStreamRef (preview s) with
  | Some m =>
      withPreview (set_previewStreamRef None)
                  (withRecorder (withBrowser (stopTracks m)) s)
  | None => s
  end.

Definition releasePreviewContext (s : Setup) : Setup :=
  match previewContextRef (preview s) with
  | Some c =>
      withPreview (set_previewContextRef None)
                  (withRecorder (withBrowser (closeContext c)) s)
  | None => s
  end.

Definition stopPreview (s : Setup) : Setup :=
  setPreviewVolume 0
    (releasePreviewContext (releasePreviewStream (cancelPreviewFrame s))).

(** [stream.active]: some track has not ended.  [ref.current?.active] of an
    empty ref is [undefined]. *)
Definition streamActive (b : Browser) (r : option nat) : bool :=
  match r with
  | Some m => hasLiveTrack b m
  | None => false
  end.

(** Numbers of the meter are doubles, kept as the rationals they are.  An
    arithmetic operation gives the double nearest to the exact result, the
    one with the even significand when two are as near: [roundDouble], for
    the results that are zero or normal numbers, as the ones here are.  For
    [x] between [2 ^ e] and [2 ^ (e + 1)] the doubles are the multiples of
    [2 ^ (e - 52)]. *)
Definition roundHalfEven (x : Q) : Z :=
  let f := Qfloor x in
  match (x - inject_Z f ?= 1 # 2)%Q with
  | Lt => f
  | Gt => f + 1
  | Eq => if Z.even f then f else f + 1
  end.

Definition binade (x : Q) : Z :=
  let e := Z.log2 (Qnum x) - Z.log2 (Zpos (Qden x)) in
  if Qle_bool (2 ^ e) x then e else e - 1.

Definition roundPositive (x : Q) : Q :=
  let e := binade x in
  (inject_Z (roundHalfEven (x * 2 ^ (52 - e))) * 2 ^ (e - 52))%Q.

Definition roundDouble (x : Q) : Q :=
  match Qnum x with
  | 0 => 0%Q
  | Zpos _ => roundPositive x
  | Zneg _ => (- roundPositive (- x))%Q
  end.

Definition divide (a b : Q) : Q := roundDouble (a / b).
Definition multiply (a b : Q) : Q := roundDouble (a * b).

(** The number the meter shows for the bytes [getByteFrequencyData] wrote
    into [dataArray] (lines 144-147).  The array has
    [analyser.frequencyBinCount] entries, half of the [fftSize] of 256; the
    sum of its bytes is a whole number and exact. *)
Definition frequencyBinCount : nat := 128.

Definition sumBytes (data : list Z) : Z := fold_left Z.add data 0.

Definition level (data : list Z) : Q :=
  let sum := inject_Z (sumBytes data) in
  let avg := divide sum (inject_Z (Z.of_nat (length data))) in
  Qmin 100 (multiply (divide avg 50) 100).

(** [updateVolume] (lines 141-149): the stream it looks at is the one the
    ref holds when it runs. *)
Definition updateVolume (data : list Z) (s : Setup) : Setup :=
  if streamActive (browser (recorder s)) (previewStreamRef (preview s)) then
    let s := setPreviewVolume (level data) s in
    let f := length (frames s) in
    withPreview (set_previewAnimationFrameRef (Some f))
                (set_frames (frames s ++ [true]) s)
  else s.

(** [startPreview] up to its [await] (lines 119-126) ... *)
Definition startPreview (device : jsstring) (s : Setup) : Setup :=
  let s := stopPreview s in
  if truthy device then set_previewRequests (previewRequests s ++ [false]) s
  else s.

Definition settlePreview (r : nat) (s : Setup) : Setup :=
  set_previewRequests (<[r := true]> (previewRequests s)) s.

(** ... and after it, when the stream is granted (lines 127-150).  [data]
    is what the analyser reads at the first [updateVolume]. *)
Definition startPreview_granted (r : nat) (data : list Z) (s : Setup) : Setup :=
  let s := settlePreview r s in
  let stream := length (streams (browser (recorder s))) in
  let s := withRecorder
             (withBrowser (fun b => set_streams (streams b ++ [[Live]]) b)) s in
  let s := withPreview (set_previewStreamRef (Some stream)) s in
  let ctx := length (contexts (browser (recorder s))) in
  let s := withRecorder
             (withBrowser (fun b => set_contexts (contexts b ++ [Running]) b))
             s in
  let s := withPreview (set_previewContextRef (Some ctx)) s in
  updateVolume data s.

(** The promise of request [r] is settled, once. *)
Definition previewGranted (r : nat) (data : list Z) (s : Setup) : Setup :=
  match previewRequests s !! r with
  | Some false => startPreview_granted r data s
  | _ => s
  end.

(** [initDevices] (lines 158-178), from the answer [all] of
    [enumerateDevices] on. *)
Definition isAudioInput (d : MediaDeviceInfo) : bool :=
  match kind d with audioinput => true | _ => false end.

Definition isDefaultDevice (d : MediaDeviceInfo) : bool :=
  bool_decide (deviceId d = js "default").

Definition initialId (audioInputs : list MediaDeviceInfo) : option jsstring :=
  match audioInputs with
  | [] => None
  | first :: _ =>
      Some match find isDefaultDevice audioInputs with
           | Some defaultDevice => deviceId defaultDevice
           | None => deviceId first
           end
  end.

Definition initDevices_enumerated (all : list MediaDeviceInfo) (s : Setup)
  : Setup :=
  let audioInputs := List.filter isAudioInput all in
  let s := setDevices audioInputs s in
  match initialId audioInputs with
  | Some id => setSelectedDeviceId id s
  | None => s
  end.

(** The cleanup of the mount effect (lines 181-184). *)
Definition unmountSetup (s : Setup) : Setup :=
  stopPreview (withRecorder unmount s).

(** The refs of the preview hold nothing. *)
Definition previewIdle (s : Setup) : Prop :=
  preview s = mkPreview None None None.

Definition offersDefault (ds : list MediaDeviceInfo) : Prop :=
  exists d, d ∈ ds /\ isAudioInput d = true /\ deviceId d = js "default".

(** * Properties *)

(** ** Strings *)

Lemma startsWith_app (p r : jsstring) : startsWith (p ++ r) p = true.
Proof.
  induction p as [|c p IH]; simpl; [reflexivity|].
  rewrite N.eqb_refl. exact IH.
Qed.

Lemma startsWith_inv (s p : jsstring) :
  startsWith s p = true -> s = p ++ substring (length p) s.
Proof.
  revert s. induction p as [|c p IH]; intros s H; simpl in *.
  - reflexivity.
  - destruct s as [|d s]; [discriminate|].
    apply andb_prop in H as [Hc Hs]. apply N.eqb_eq in Hc. subst d.
    unfold substring in *. simpl. f_equal. apply IH, Hs.
Qed.

Lemma substring_app (p r : jsstring) : substring (length p) (p ++ r) = r.
Proof. unfold substring. apply drop_app_length. Qed.

Lemma truthy_true (s : jsstring) : truthy s = true <-> s <> [].
Proof. destruct s; simpl; split; intros; congruence. Qed.

Lemma truthy_false (s : jsstring) : truthy s = false <-> s = [].
Proof. destruct s; simpl; split; intros; congruence. Qed.

Lemma trimStart_head (s : jsstring) c r :
  trimStart s = c :: r -> isWhiteSpace c = false.
Proof.
  induction s as [|d s IH]; simpl; [discriminate|].
  destruct (isWhiteSpace d) eqn:Hd; [exact IH|].
  intros [= <- _]. exact Hd.
Qed.

Lemma trimStart_nil (s : jsstring) :
  trimStart s = [] <-> forallb isWhiteSpace s = true.
Proof.
  induction s as [|d s IH]; simpl; [tauto|].
  destruct (isWhiteSpace d); simpl; [exact IH|].
  split; discriminate.
Qed.

Lemma forallb_rev {A} (f : A -> bool) (l : list A) :
  forallb f (rev l) = forallb f l.
Proof.
  induction l as [|x l IH]; simpl; [reflexivity|].
  rewrite forallb_app, IH. simpl. rewrite andb_true_r. apply andb_comm.
Qed.

(** [trim] leaves nothing exactly of the strings made of white space. *)
Lemma trim_nil (s : jsstring) :
  trim s = [] <-> forallb isWhiteSpace s = true.
Proof.
  unfold trim, trimEnd. rewrite <- trimStart_nil. split.
  - intros H. apply (f_equal (@rev N)) in H. rewrite rev_involutive in H.
    simpl in H. apply trimStart_nil in H. rewrite forallb_rev in H.
    destruct (trimStart s) as [|c r] eqn:E; [reflexivity|].
    apply trimStart_head in E. simpl in H. rewrite E in H. discriminate.
  - intros ->. reflexivity.
Qed.

(** ** [stopEverything] *)

Ltac case_refs w :=
  destruct w as [s t [r1 r2 r3 r4 r5 r6] b mo];
  destruct r1, r2, r3, r4, r5, r6.

Lemma stopEverything_turn (w : World) : turn (stopEverything w) = turn w.
Proof. case_refs w; reflexivity. Qed.

Lemma stopEverything_media (w : World) : media (stopEverything w) = noMedia.
Proof. case_refs w; reflexivity. Qed.

Lemma stopEverything_ui (w : World) :
  ui (stopEverything w)
  = mkState false (transcript (ui w)) (elapsedTime (ui w)) (error (ui w))
            (startTime (ui w)).
Proof. case_refs w; reflexivity. Qed.

Lemma stopEverything_mounted (w : World) :
  mounted (stopEverything w) = mounted w.
Proof. case_refs w; reflexivity. Qed.

Lemma stopEverything_sessions (w : World) :
  sessions (browser (stopEverything w)) = sessions (browser w).
Proof. case_refs w; reflexivity. Qed.

Lemma stopEverything_stopped (w : World) :
  media w = noMedia -> isRecording (ui w) = false -> stopEverything w = w.
Proof.
  destruct w as [[i tr el er st] t m b mo]. simpl. intros -> ->. reflexivity.
Qed.

#[global] Arguments stopEverything : simpl never.

(** ** The reconciler *)

Lemma handleFinish_turn now confirmed (w : World) :
  turn (fst (handleFinish now confirmed w))
  = if truthy (trim (currentTurnRef (turn w)))
    then pushChunk (mkChunk (orElse (turnStartTimeRef (turn w))
                                    (elapsedTimeRef (turn w)))
                            (trim (currentTurnRef (turn w))))
                   (turn w)
    else turn w.
Proof.
  unfold handleFinish.
  assert (Ht : turn (if isRecording (ui w) then stopEverything w else w) = turn w).
  { destruct (isRecording (ui w)); [apply stopEverything_turn|reflexivity]. }
  rewrite Ht.
  destruct (truthy (trim (currentTurnRef (turn w)))) eqn:E;
    match goal with |- context [if ?c then (_, None) else _] => destruct c end;
    simpl; rewrite ?Ht; reflexivity.
Qed.

Lemma handleFinish_result now confirmed (w w' : World) r :
  handleFinish now confirmed w = (w', Some r) ->
  r_chunks r = chunksRef (turn w')
  /\ r_text r = join (map text (chunksRef (turn w')))
  /\ r_duration r = elapsedTime (ui w)
  /\ r_endTime r = now.
Proof.
  unfold handleFinish.
  match goal with |- context [if ?c then (_, None) else _] => destruct c end;
    [discriminate|].
  intros [= <- <-]. simpl. auto.
Qed.

Lemma handleFinish_snd now confirmed (w : World) :
  let w' := fst (handleFinish now confirmed w) in
  snd (handleFinish now confirmed w)
  = if (length (chunksRef (turn w')) =? 0)%nat && negb confirmed then None
    else Some (mkResult (default now (startTime (ui w))) now
                        (elapsedTime (ui w))
                        (join (map text (chunksRef (turn w'))))
                        (chunksRef (turn w'))).
Proof.
  unfold handleFinish.
  match goal with |- context [if ?c then (_, None) else _] => destruct c eqn:E end;
    simpl; rewrite E; reflexivity.
Qed.

(** C5 — a message with [turnComplete] set commits the trimmed in-flight
    buffer as one chunk stamped with [turnStartTimeRef] when something is
    left after trimming, commits nothing when the buffer is empty or white
    space only, and in both cases empties the buffer and marks the turn
    inactive.  The buffer is the one the [turnComplete] branch sees: for a
    message without text that is the buffer before the event. *)
Theorem turn_complete_commits_buffer (m : LiveServerMessage) (w : World) :
  isTurnComplete m = true ->
  let t1 := afterTranscription m (turn w) in
  let buffer := currentTurnRef t1 in
  let t' := turn (onmessage m w) in
  (incomingText m = None -> t1 = turn w)
  /\ chunksRef t1 = chunksRef (turn w)
  /\ (trim buffer <> [] ->
      chunksRef t'
      = chunksRef (turn w) ++ [mkChunk (turnStartTimeRef t1) (trim buffer)])
  /\ (forallb isWhiteSpace buffer = true -> chunksRef t' = chunksRef (turn w))
  /\ currentTurnRef t' = []
  /\ isTurnActiveRef t' = false.
Proof.
  intros Hc t1 buffer t'.
  assert (Ht' : t' = onTurnComplete t1).
  { subst t' t1. unfold onmessage, reconcile. rewrite Hc.
    rewrite orb_true_r. destruct w; reflexivity. }
  assert (Hch : chunksRef t1 = chunksRef (turn w)).
  { subst t1. unfold afterTranscription.
    destruct (incomingText m); [|reflexivity].
    unfold onTranscription. destruct (isTurnActiveRef (turn w)); reflexivity. }
  split; [|split; [exact Hch|]].
  - intros Hn. subst t1. unfold afterTranscription. rewrite Hn. reflexivity.
  - rewrite Ht'. unfold onTurnComplete. simpl. fold buffer. rewrite Hch.
    repeat split.
    + intros Hb. apply truthy_true in Hb. rewrite Hb. reflexivity.
    + intros Hb. apply trim_nil in Hb. rewrite Hb. reflexivity.
Qed.

Lemma turn_complete_commits_buffer_witness :
  let w := withTurn (fun _ => mkTurn [] (js " so far ") 4 true 6) initialWorld in
  isTurnComplete turnCompleteMsg = true
  /\ chunksRef (turn (onmessage turnCompleteMsg w)) = [mkChunk 4 (js "so far")]
  /\ currentTurnRef (turn (onmessage turnCompleteMsg w)) = []
  /\ isTurnActiveRef (turn (onmessage turnCompleteMsg w)) = false.
Proof.
  intros w.
  pose proof (turn_complete_commits_buffer turnCompleteMsg w eq_refl)
    as (_ & _ & H & _ & Hb & Ha).
  split; [reflexivity|]. split; [|split; [exact Hb|exact Ha]].
  apply H. vm_compute. discriminate.
Defined.

Lemma reconcile_partialText (txt : jsstring) (t : TurnRefs) :
  txt <> [] -> reconcile (partialText txt) t = onTranscription txt t.
Proof.
  intros H. unfold reconcile, afterTranscription, incomingText. simpl.
  apply truthy_true in H. rewrite H. reflexivity.
Qed.

(** C3, as stated, fails twice: a repeated chunk of exactly five characters
    is not stripped, and stripping ["the mitochondria is"] leaves the blank
    that followed it in the buffer. *)
Lemma strip_at_five_counterexample :
  let t := mkTurn [mkChunk 0 (js "hello")] [] 0 false 3 in
  let m := mkTurn [mkChunk 0 (js "the mitochondria is")] [] 0 false 3 in
  (startsWith (js "hello world") (js "hello") = true
   /\ (5 <= length (js "hello"))%nat
   /\ currentTurnRef (reconcile (partialText (js "hello world")) t)
      <> js " world")
  /\ currentTurnRef
       (reconcile (partialText (js "the mitochondria is the powerhouse")) m)
     <> js "the powerhouse".
Proof. vm_compute. repeat split; (lia || discriminate). Qed.

(** C3, amended — when a partial text opens a new turn and starts with the
    whole text of the last committed chunk, that prefix is stripped only if
    the chunk text is longer than five code units; what follows the prefix,
    a leading blank included, is appended to the in-flight buffer.  A chunk
    text of five code units or fewer, or a text that does not start with
    it, is appended whole. *)
Theorem new_turn_strips_repeated_chunk
    (t : TurnRefs) (lastChunk : TranscriptChunk) (txt : jsstring) :
  isTurnActiveRef t = false ->
  last (chunksRef t) = Some lastChunk ->
  txt <> [] ->
  let t' := reconcile (partialText txt) t in
  (forall rest, (5 < length (text lastChunk))%nat ->
                txt = text lastChunk ++ rest ->
                currentTurnRef t' = currentTurnRef t ++ rest)
  /\ ((length (text lastChunk) <= 5)%nat ->
      currentTurnRef t' = currentTurnRef t ++ txt)
  /\ (startsWith txt (text lastChunk) = false ->
      currentTurnRef t' = currentTurnRef t ++ txt).
Proof.
  intros Ha Hl Ht t'. subst t'. rewrite reconcile_partialText by exact Ht.
  unfold onTranscription, stripRepeat. rewrite Ha, Hl. simpl.
  repeat split.
  - intros rest Hlen ->. apply Nat.ltb_lt in Hlen. rewrite Hlen.
    rewrite startsWith_app, substring_app. reflexivity.
  - intros Hlen. apply Nat.ltb_ge in Hlen. rewrite Hlen. reflexivity.
  - intros ->. rewrite andb_false_r. reflexivity.
Qed.

Lemma new_turn_strips_repeated_chunk_witness :
  let t := mkTurn [mkChunk 0 (js "the mitochondria is")] [] 0 false 3 in
  let txt := js "the mitochondria is the powerhouse" in
  isTurnActiveRef t = false
  /\ last (chunksRef t) = Some (mkChunk 0 (js "the mitochondria is"))
  /\ txt <> []
  /\ currentTurnRef (reconcile (partialText txt) t) = js " the powerhouse".
Proof.
  intros t txt.
  assert (Hne : txt <> []) by (vm_compute; discriminate).
  pose proof (new_turn_strips_repeated_chunk t
                (mkChunk 0 (js "the mitochondria is")) txt
                eq_refl eq_refl Hne) as (H & _ & _).
  split; [reflexivity|]. split; [reflexivity|]. split; [exact Hne|].
  apply (H (js " the powerhouse")); [vm_compute; lia|reflexivity].
Defined.

(** What [handleFinish] stamps the forced chunk with. *)
Lemma handleFinish_timestamp now confirmed (w : World) :
  trim (currentTurnRef (turn w)) <> [] ->
  chunksRef (turn (fst (handleFinish now confirmed w)))
  = chunksRef (turn w)
    ++ [mkChunk (if turnStartTimeRef (turn w) =? 0
                 then elapsedTimeRef (turn w)
                 else turnStartTimeRef (turn w))
                (trim (currentTurnRef (turn w)))].
Proof.
  intros H. rewrite handleFinish_turn. apply truthy_true in H. rewrite H.
  reflexivity.
Qed.

(** C2 — the code at the failing input: the turn is active and started at
    second 0, yet the chunk [handleFinish] appends carries the elapsed time
    7, because [turnStartTimeRef.current || elapsedTimeRef.current] takes a
    start at 0 for no start at all. *)
Theorem finish_restamps_turn_started_at_zero :
  let w := run initialWorld turnOpenedAtZero in
  isTurnActiveRef (turn w) = true
  /\ turnStartTimeRef (turn w) = 0
  /\ elapsedTimeRef (turn w) = 7
  /\ currentTurnRef (turn w) = js "and that concludes"
  /\ option_map r_chunks (snd (handleFinish 9 true w))
     = Some [mkChunk 7 (js "and that concludes")].
Proof. vm_compute. repeat split. Qed.

(** ** What one event does to the turn refs *)

Lemma onmessage_turn m (w : World) : turn (onmessage m w) = reconcile m (turn w).
Proof.
  unfold onmessage.
  match goal with |- context [if ?c then _ else _] => destruct c end;
    reflexivity.
Qed.

Lemma onmessage_elapsedTime m (w : World) :
  elapsedTime (ui (onmessage m w)) = elapsedTime (ui w).
Proof.
  unfold onmessage.
  match goal with |- context [if ?c then _ else _] => destruct c end;
    reflexivity.
Qed.

Lemma startRecording_turn k now (w : World) :
  turn (startRecording k now w) = resetTurn (turn w).
Proof.
  unfold startRecording. destruct k; [reflexivity|].
  rewrite stopEverything_turn. reflexivity.
Qed.

Lemma startRecording_elapsedTime k now (w : World) :
  elapsedTime (ui (startRecording k now w)) = 0.
Proof.
  unfold startRecording. destruct k; [reflexivity|].
  rewrite stopEverything_ui. reflexivity.
Qed.

Lemma handleFinish_elapsedTime now confirmed (w : World) :
  elapsedTime (ui (fst (handleFinish now confirmed w))) = elapsedTime (ui w).
Proof.
  unfold handleFinish.
  assert (He : elapsedTime (ui (if isRecording (ui w) then stopEverything w
                                else w)) = elapsedTime (ui w)).
  { destruct (isRecording (ui w)); [|reflexivity].
    rewrite stopEverything_ui. reflexivity. }
  repeat match goal with
         | |- context [if ?c then _ else _] =>
             lazymatch c with
             | isRecording _ => fail
             | _ => destruct c
             end
         end; simpl; exact He.
Qed.

Lemma unmount_turn (w : World) : turn (unmount w) = turn w.
Proof. unfold unmount. cbn [turn]. apply stopEverything_turn. Qed.

Lemma unmount_elapsedTime (w : World) :
  elapsedTime (ui (unmount w)) = elapsedTime (ui w).
Proof. unfold unmount. cbn [ui]. rewrite stopEverything_ui. reflexivity. Qed.

#[global] Arguments unmount : simpl never.

Lemma stop_no_effect (w w' : World) (e : Event) :
  step w e = stopEverything w' -> turn w' = turn w ->
  elapsedTime (ui w') = elapsedTime (ui w) -> TurnEffect w e.
Proof.
  intros Hs Ht He. apply te_none; unfold sameElapsed; rewrite Hs.
  - rewrite stopEverything_turn. exact Ht.
  - rewrite stopEverything_ui. exact He.
Qed.

Lemma step_turn_effect (w : World) (e : Event) : TurnEffect w e.
Proof.
  destruct e as [k now|now c| | |r|r msg|sid|sid m|sid|sid msg|t|s f]; simpl.
  - (* toggle *)
    destruct (mounted w) eqn:Hm; [|apply te_none; unfold sameElapsed; simpl;
                                   rewrite ?Hm; reflexivity].
    unfold toggleRecording. destruct (isRecording (ui w)) eqn:Hr.
    + eapply stop_no_effect; simpl; rewrite ?Hm; unfold toggleRecording;
        rewrite ?Hr; reflexivity.
    + apply te_reset; simpl; rewrite ?Hm, ?Hr; unfold toggleRecording;
        rewrite ?Hr; auto using startRecording_turn, startRecording_elapsedTime.
  - (* finish *)
    destruct (mounted w && finishEnabled w) eqn:Hg.
    + eapply te_finish; eauto; unfold sameElapsed; simpl; rewrite Hg;
        auto using handleFinish_elapsedTime.
    + apply te_none; unfold sameElapsed; simpl; rewrite Hg; reflexivity.
  - (* cancel *)
    destruct (mounted w) eqn:Hm.
    + apply te_none; unfold sameElapsed; simpl; rewrite Hm;
        auto using unmount_turn, unmount_elapsedTime.
    + apply te_none; unfold sameElapsed; simpl; rewrite Hm; reflexivity.
  - (* unmount *)
    destruct (mounted w) eqn:Hm.
    + apply te_none; unfold sameElapsed; simpl; rewrite Hm;
        auto using unmount_turn, unmount_elapsedTime.
    + apply te_none; unfold sameElapsed; simpl; rewrite Hm; reflexivity.
  - (* microphone granted *)
    apply te_none; unfold sameElapsed; simpl;
      destruct (requests (browser w) !! r) as [q|]; try reflexivity;
      destruct (req_settled q); reflexivity.
  - (* microphone denied *)
    destruct (requests (browser w) !! r) as [q|] eqn:Hq;
      [destruct (req_settled q) eqn:Hs|].
    + apply te_none; unfold sameElapsed; simpl; rewrite Hq, Hs; reflexivity.
    + eapply stop_no_effect; simpl; rewrite ?Hq, ?Hs;
        unfold startRecording_denied; reflexivity.
    + apply te_none; unfold sameElapsed; simpl; rewrite Hq; reflexivity.
  - (* open *)
    apply te_none; unfold sameElapsed; simpl;
      destruct (sessions (browser w) !! sid) as [se|]; try reflexivity;
      destruct (conn se); reflexivity.
  - (* message *)
    destruct (sessions (browser w) !! sid) as [se|] eqn:Hs;
      [destruct (conn se) eqn:Hc|].
    all: try (apply te_none; unfold sameElapsed; simpl; rewrite Hs, ?Hc;
              reflexivity).
    apply (te_message _ _ m); unfold sameElapsed; simpl; rewrite Hs, Hc;
      auto using onmessage_turn, onmessage_elapsedTime.
  - (* close *)
    apply te_none; unfold sameElapsed; simpl;
      destruct (sessions (browser w) !! sid) as [se|]; try reflexivity;
      destruct (conn se); reflexivity.
  - (* error *)
    destruct (sessions (browser w) !! sid) as [se|] eqn:Hs;
      [destruct (conn se) eqn:Hc|].
    all: try (apply te_none; unfold sameElapsed; simpl; rewrite Hs, ?Hc;
              reflexivity).
    all: eapply stop_no_effect; simpl; rewrite ?Hs, ?Hc; unfold onerror;
      reflexivity.
  - (* tick *)
    destruct (timers (browser w) !! t) as [[|]|] eqn:Ht.
    + apply te_tick; simpl; rewrite Ht; reflexivity.
    + apply te_none; unfold sameElapsed; simpl; rewrite Ht; reflexivity.
    + apply te_none; unfold sameElapsed; simpl; rewrite Ht; reflexivity.
  - (* audio *)
    apply te_none; unfold sameElapsed; simpl;
      destruct (wiredProcessor (browser w) s) as [p|]; try reflexivity;
      unfold onaudioprocess; destruct (processors (browser w) !! p);
      reflexivity.
Qed.

(** ** Append-only chunks *)

Lemma reconcile_chunks_prefix m (t : TurnRefs) :
  chunksRef t `prefix_of` chunksRef (reconcile m t).
Proof.
  unfold reconcile, afterTranscription, onTurnComplete, onTranscription.
  destruct (incomingText m), (isTurnComplete m), (isTurnActiveRef t); simpl;
    try reflexivity;
    match goal with |- context [if ?c then _ else _] => destruct c end;
    try reflexivity; apply prefix_app_r; reflexivity.
Qed.

Lemma handleFinish_chunks_prefix now confirmed (w : World) :
  chunksRef (turn w) `prefix_of` chunksRef (turn (fst (handleFinish now confirmed w))).
Proof.
  rewrite handleFinish_turn.
  destruct (truthy (trim (currentTurnRef (turn w)))); simpl;
    [apply prefix_app_r|]; reflexivity.
Qed.

Lemma step_chunks_prefix (w : World) (e : Event) :
  startsRecording w e = false ->
  chunksRef (turn w) `prefix_of` chunksRef (turn (step w e)).
Proof.
  intros Hs.
  destruct (step_turn_effect w e) as [H _|H _ _|m H _|H _|now c _ _ H _]; rewrite ?H.
  - reflexivity.
  - congruence.
  - apply reconcile_chunks_prefix.
  - reflexivity.
  - apply handleFinish_chunks_prefix.
Qed.

Lemma staysInSession_app (w : World) (evs1 evs2 : list Event) :
  staysInSession w (evs1 ++ evs2)
  = staysInSession w evs1 && staysInSession (run w evs1) evs2.
Proof.
  revert w. induction evs1 as [|e evs1 IH]; intros w; simpl; [reflexivity|].
  rewrite IH, andb_assoc. reflexivity.
Qed.

Lemma run_app (w : World) (evs1 evs2 : list Event) :
  run w (evs1 ++ evs2) = run (run w evs1) evs2.
Proof. apply fold_left_app. Qed.

Lemma run_chunks_prefix (w : World) (evs : list Event) :
  staysInSession w evs = true ->
  chunksRef (turn w) `prefix_of` chunksRef (turn (run w evs)).
Proof.
  revert w. induction evs as [|e evs IH]; intros w H; simpl in *.
  - reflexivity.
  - apply andb_prop in H as [He Hr]. apply negb_true_iff in He.
    etransitivity; [apply step_chunks_prefix, He|apply IH, Hr].
Qed.

(** C4 — within one session (no event of the trace restarts recording) the
    committed chunks after a first stretch of events are a prefix of the
    committed chunks after any longer stretch: every chunk keeps its index,
    its timestamp and its text. *)
Theorem committed_chunks_append_only (w : World) (evs1 evs2 : list Event) :
  staysInSession w (evs1 ++ evs2) = true ->
  let earlier := chunksRef (turn (run w evs1)) in
  let later := chunksRef (turn (run w (evs1 ++ evs2))) in
  earlier `prefix_of` later
  /\ forall i c, earlier !! i = Some c -> later !! i = Some c.
Proof.
  intros H earlier later.
  rewrite staysInSession_app in H. apply andb_prop in H as [_ H].
  assert (Hp : earlier `prefix_of` later).
  { subst earlier later. rewrite run_app. apply run_chunks_prefix, H. }
  split; [exact Hp|].
  intros i c Hi. eapply prefix_lookup_Some; eauto.
Qed.

Lemma committed_chunks_append_only_witness :
  let w := run initialWorld
             [ToggleClick true 0; MicGranted 0; SessionOpen 0] in
  let evs1 := [SessionMessage 0 (partialText (js "Hello"));
               SessionMessage 0 (partialText (js " world"));
               TimerTick 0; SessionMessage 0 turnCompleteMsg] in
  let evs2 := [TimerTick 0; SessionMessage 0 (partialText (js "Next point"));
               FinishClick 9 true] in
  staysInSession w (evs1 ++ evs2) = true
  /\ [mkChunk 0 (js "Hello world")]
       `prefix_of` chunksRef (turn (run w (evs1 ++ evs2))).
Proof.
  intros w evs1 evs2.
  assert (H : staysInSession w (evs1 ++ evs2) = true) by (vm_compute; reflexivity).
  split; [exact H|].
  apply (committed_chunks_append_only w evs1 evs2 H).
Defined.

(** ** Duration *)

Lemma reconcile_elapsed m (t : TurnRefs) :
  elapsedTimeRef (reconcile m t) = elapsedTimeRef t.
Proof.
  unfold reconcile, afterTranscription, onTurnComplete, onTranscription.
  destruct (incomingText m), (isTurnComplete m), (isTurnActiveRef t);
    reflexivity.
Qed.

Lemma step_synced (w : World) (e : Event) : synced w -> synced (step w e).
Proof.
  unfold synced. intros H.
  destruct (step_turn_effect w e)
    as [Ht He|_ Ht He|m Ht He|Ht He|now c _ _ Ht He]; unfold sameElapsed in *;
    rewrite Ht, He.
  - exact H.
  - reflexivity.
  - rewrite reconcile_elapsed. exact H.
  - simpl. rewrite H. reflexivity.
  - rewrite handleFinish_turn.
    destruct (truthy (trim (currentTurnRef (turn w)))); exact H.
Qed.

Lemma run_synced (w : World) (evs : list Event) : synced w -> synced (run w evs).
Proof.
  revert w. induction evs as [|e evs IH]; intros w H; simpl; [exact H|].
  apply IH, step_synced, H.
Qed.

(** C9 — whenever [handleFinish] hands a result off, its [duration] is the
    elapsed-seconds counter at that moment (the state cell and the ref
    agree on it), whatever the chunks and their timestamps are; it returns
    without a result only when there is nothing to save and the user
    declines. *)
Theorem finish_duration_is_elapsed_seconds
    (evs : list Event) (now : Z) (confirmed : bool) :
  let w := run initialWorld evs in
  match snd (handleFinish now confirmed w) with
  | Some r => r_duration r = elapsedTimeRef (turn w)
              /\ r_duration r = elapsedTime (ui w)
  | None => confirmed = false /\ chunksRef (turn w) = []
            /\ trim (currentTurnRef (turn w)) = []
  end.
Proof.
  intros w.
  assert (Hs : synced w) by (apply run_synced; reflexivity).
  rewrite handleFinish_snd, handleFinish_turn. cbv zeta.
  destruct (truthy (trim (currentTurnRef (turn w)))) eqn:Eb; simpl.
  - rewrite length_app, Nat.add_comm. simpl. split; [exact Hs|reflexivity].
  - apply truthy_false in Eb.
    destruct (chunksRef (turn w)) as [|c cs]; simpl;
      [destruct confirmed; simpl|]; auto.
Qed.

(** Finishing at second 125 of a session whose only chunk started at 0. *)
Lemma finish_duration_at_125 :
  let w := run initialWorld
             ([ToggleClick true 0; MicGranted 0; SessionOpen 0;
               SessionMessage 0 (partialText (js "Hello"));
               SessionMessage 0 turnCompleteMsg]
              ++ repeat (TimerTick 0) 125) in
  elapsedTime (ui w) = 125
  /\ map timestamp (chunksRef (turn w)) = [0]
  /\ option_map r_duration (snd (handleFinish 130000 true w)) = Some 125.
Proof. vm_compute. repeat split. Qed.

(** ** Timestamps *)

Lemma StronglySorted_snoc (l : list Z) (x : Z) :
  StronglySorted Z.le l -> Forall (fun y => y <= x) l ->
  StronglySorted Z.le (l ++ [x]).
Proof.
  induction 1 as [|y l Hs IH Hy]; intros Hx; simpl.
  - repeat constructor.
  - apply Forall_cons_1 in Hx as [Hyx Hx]. constructor; [auto|].
    apply Forall_app; split; [exact Hy|repeat constructor; exact Hyx].
Qed.

Lemma timestampsOrdered_push (chunks : list TranscriptChunk) ts txt :
  timestampsOrdered chunks -> 0 <= ts ->
  Forall (fun c => timestamp c <= ts) chunks ->
  timestampsOrdered (chunks ++ [mkChunk ts txt]).
Proof.
  intros [Hs Hn] Hts Hle. split.
  - rewrite map_app. simpl. apply StronglySorted_snoc; [exact Hs|].
    apply Forall_map. exact Hle.
  - apply Forall_app; split; [exact Hn|repeat constructor; exact Hts].
Qed.

Lemma turnInv_reset (t : TurnRefs) : turnInv (resetTurn t).
Proof.
  unfold turnInv, timestampsOrdered. simpl.
  repeat split; intros; try lia; constructor.
Qed.

Lemma turnInv_bump (t : TurnRefs) : turnInv t -> turnInv (bumpElapsed t).
Proof.
  intros (Hb & Ho & He & Ha & Hi). unfold turnInv. simpl.
  repeat split; try lia; try apply Ho; auto.
  eapply Forall_impl; [exact He|]. simpl. intros; lia.
Qed.

Lemma turnInv_transcription txt (t : TurnRefs) :
  turnInv t -> turnInv (onTranscription txt t).
Proof.
  intros (Hb & Ho & He & Ha & Hi). unfold turnInv, onTranscription.
  destruct (isTurnActiveRef t) eqn:E; simpl;
    repeat split; try lia; try apply Ho; auto; discriminate.
Qed.

Lemma turnInv_turnComplete (t : TurnRefs) :
  turnInv t -> turnInv (onTurnComplete t).
Proof.
  intros (Hb & Ho & He & Ha & Hi). unfold turnInv, onTurnComplete. simpl.
  destruct (truthy (trim (currentTurnRef t))) eqn:Et.
  - assert (Hact : isTurnActiveRef t = true).
    { destruct (isTurnActiveRef t); [reflexivity|].
      rewrite Hi in Et by reflexivity. discriminate. }
    repeat split; try lia; try discriminate.
    + apply timestampsOrdered_push; [exact Ho|lia|auto].
    + apply timestampsOrdered_push; [exact Ho|lia|auto].
    + apply Forall_app; split; [exact He|]. repeat constructor. simpl. lia.
  - repeat split; try lia; try apply Ho; auto; discriminate.
Qed.

Lemma turnInv_reconcile m (t : TurnRefs) : turnInv t -> turnInv (reconcile m t).
Proof.
  intros H. unfold reconcile, afterTranscription.
  destruct (incomingText m), (isTurnComplete m);
    auto using turnInv_transcription, turnInv_turnComplete.
Qed.

(** The chunks [handleFinish] ends up with are still in order. *)
Lemma turnInv_finish now confirmed (w : World) :
  turnInv (turn w) ->
  timestampsOrdered (chunksRef (turn (fst (handleFinish now confirmed w)))).
Proof.
  intros (Hb & Ho & He & Ha & Hi). rewrite handleFinish_turn.
  destruct (truthy (trim (currentTurnRef (turn w)))) eqn:Et; [|exact Ho].
  assert (Hact : isTurnActiveRef (turn w) = true).
  { destruct (isTurnActiveRef (turn w)); [reflexivity|].
    rewrite Hi in Et by reflexivity. discriminate. }
  simpl. unfold orElse.
  destruct (turnStartTimeRef (turn w) =? 0);
    apply timestampsOrdered_push; auto; lia.
Qed.

(** A finish that hands nothing off has pushed nothing. *)
Lemma handleFinish_declined now confirmed (w : World) :
  snd (handleFinish now confirmed w) = None ->
  turn (fst (handleFinish now confirmed w)) = turn w.
Proof.
  rewrite handleFinish_snd, handleFinish_turn. cbv zeta.
  destruct (truthy (trim (currentTurnRef (turn w)))); [|reflexivity].
  simpl. rewrite length_app, Nat.add_comm. simpl. discriminate.
Qed.

Lemma step_turnInv (w : World) (e : Event) :
  startsRecording w e = false -> handsOff w e = false ->
  turnInv (turn w) -> turnInv (turn (step w e)).
Proof.
  intros Hs Hh H.
  destruct (step_turn_effect w e)
    as [Ht _|Hr _ _|m Ht _|Ht _|now c -> Hg Ht _]; rewrite ?Ht.
  - exact H.
  - congruence.
  - apply turnInv_reconcile, H.
  - apply turnInv_bump, H.
  - simpl in Hh. rewrite Hg in Hh. simpl in Hh.
    rewrite handleFinish_declined; [exact H|].
    destruct (snd (handleFinish now c w)); [discriminate|reflexivity].
Qed.

Lemma run_turnInv (w : World) (evs : list Event) :
  sessionGoesOn w evs = true -> turnInv (turn w) ->
  turnInv (turn (run w evs)).
Proof.
  revert w. induction evs as [|e evs IH]; intros w Hg H; simpl in *.
  - exact H.
  - apply andb_prop in Hg as [Hg Hr]. apply andb_prop in Hg as [Hs Hh].
    apply negb_true_iff in Hs, Hh. apply IH; [exact Hr|].
    apply step_turnInv; assumption.
Qed.


(** C10 — from the reset of [startRecording] on, as long as the session
    goes on (no restart, nothing handed off yet), the committed chunks carry
    timestamps that are not negative and never go down in append order; so
    do the chunks of the result a finish then hands off. *)
Theorem chunk_timestamps_never_go_down
    (w0 : World) (hasApiKey : bool) (now : Z) (evs : list Event) :
  let w := run (startRecording hasApiKey now w0) evs in
  sessionGoesOn (startRecording hasApiKey now w0) evs = true ->
  timestampsOrdered (chunksRef (turn w))
  /\ forall now' confirmed w' r,
       handleFinish now' confirmed w = (w', Some r) ->
       timestampsOrdered (r_chunks r).
Proof.
  intros w Hg.
  assert (H : turnInv (turn w)).
  { apply run_turnInv; [exact Hg|].
    rewrite startRecording_turn. apply turnInv_reset. }
  split; [apply H|].
  intros now' c w' r Hf.
  destruct (handleFinish_result _ _ _ _ _ Hf) as (-> & _).
  replace w' with (fst (handleFinish now' c w)) by (rewrite Hf; reflexivity).
  apply turnInv_finish, H.
Qed.

Lemma chunk_timestamps_never_go_down_witness :
  let evs := [MicGranted 0; SessionOpen 0;
              SessionMessage 0 (partialText (js "Hello world"));
              TimerTick 0; TimerTick 0; SessionMessage 0 turnCompleteMsg;
              TimerTick 0; SessionMessage 0 (partialText (js "Next point"));
              TimerTick 0] in
  let w := run (startRecording true 0 initialWorld) evs in
  sessionGoesOn (startRecording true 0 initialWorld) evs = true
  /\ map timestamp (chunksRef (turn w)) = [0]
  /\ timestampsOrdered (chunksRef (turn w))
  /\ timestampsOrdered [mkChunk 0 (js "Hello world"); mkChunk 3 (js "Next point")].
Proof.
  intros evs w.
  assert (Hg : sessionGoesOn (startRecording true 0 initialWorld) evs = true)
    by (vm_compute; reflexivity).
  destruct (chunk_timestamps_never_go_down initialWorld true 0 evs Hg)
    as [Ho Hr].
  split; [exact Hg|]. split; [vm_compute; reflexivity|]. split; [exact Ho|].
  apply (Hr 9 true (fst (handleFinish 9 true w))
            (mkResult 0 9 4 (js "Hello world Next point")
               [mkChunk 0 (js "Hello world"); mkChunk 3 (js "Next point")])).
  vm_compute. reflexivity.
Defined.

(** ** What [stopEverything] does to the store *)

Lemma stopEverything_contexts (w : World) :
  contexts (browser (stopEverything w))
  = match audioContextRef (media w) with
    | Some c => <[c := ContextClosed]> (contexts (browser w))
    | None => contexts (browser w)
    end.
Proof. case_refs w; reflexivity. Qed.

Lemma stopEverything_streams (w : World) :
  streams (browser (stopEverything w))
  = match streamRef (media w) with
    | Some s => alter (map (fun _ => Ended)) s (streams (browser w))
    | None => streams (browser w)
    end.
Proof. case_refs w; reflexivity. Qed.

Lemma stopEverything_sources (w : World) :
  sources (browser (stopEverything w))
  = match sourceRef (media w) with
    | Some n => alter (fun x => mkSource (src_stream x) None) n
                      (sources (browser w))
    | None => sources (browser w)
    end.
Proof. case_refs w; reflexivity. Qed.

Lemma stopEverything_processors (w : World) :
  processors (browser (stopEverything w))
  = match processorRef (media w) with
    | Some p => alter (fun x => mkProcessor (proc_session x) false) p
                      (processors (browser w))
    | None => processors (browser w)
    end.
Proof. case_refs w; reflexivity. Qed.

Lemma stopEverything_timers (w : World) :
  timers (browser (stopEverything w))
  = match timerRef (media w) with
    | Some t => <[t := false]> (timers (browser w))
    | None => timers (browser w)
    end.
Proof. case_refs w; reflexivity. Qed.

Lemma stopEverything_requests (w : World) :
  requests (browser (stopEverything w)) = requests (browser w).
Proof. case_refs w; reflexivity. Qed.

Lemma existsb_all_ended (ts : list TrackState) :
  existsb isLive (map (fun _ => Ended) ts) = false.
Proof. induction ts; simpl; auto. Qed.

Lemma stopEverything_released (w : World) :
  released (media w) (browser (stopEverything w)).
Proof.
  unfold released, contextRunning, hasLiveTrack.
  rewrite stopEverything_contexts, stopEverything_streams,
    stopEverything_sources, stopEverything_processors, stopEverything_timers.
  repeat split.
  - intros c ->.
    destruct (<[c:=ContextClosed]> (contexts (browser w)) !! c) as [[]|] eqn:E;
      try reflexivity.
    apply list_lookup_insert_Some in E.
    destruct E as [(_ & E & _)|(Hne & _)]; congruence.
  - intros s ->. rewrite list_lookup_alter_eq.
    destruct (_ !! s); simpl; [|reflexivity].
    apply existsb_all_ended.
  - intros n x -> Hx. rewrite list_lookup_alter_eq in Hx.
    destruct (sources (browser w) !! n); simpl in Hx; [|discriminate].
    injection Hx as <-. reflexivity.
  - intros p x -> Hx. rewrite list_lookup_alter_eq in Hx.
    destruct (processors (browser w) !! p); simpl in Hx; [|discriminate].
    injection Hx as <-. reflexivity.
  - intros t -> Ht. apply list_lookup_insert_Some in Ht.
    destruct Ht as [(_ & Ht & _)|(Hne & _)]; congruence.
Qed.

(** [stopEverything] opens nothing. *)
Lemma stopEverything_opens_nothing (w : World) :
  (forall i, contexts (browser (stopEverything w)) !! i = Some Running ->
             contexts (browser w) !! i = Some Running
             /\ audioContextRef (media w) <> Some i)
  /\ (forall i ts, streams (browser (stopEverything w)) !! i = Some ts ->
                   existsb isLive ts = true ->
                   streams (browser w) !! i = Some ts
                   /\ streamRef (media w) <> Some i)
  /\ (forall i n, sources (browser (stopEverything w)) !! i = Some n ->
                  sourceConnected n = true ->
                  sources (browser w) !! i = Some n
                  /\ sourceRef (media w) <> Some i)
  /\ (forall i p, processors (browser (stopEverything w)) !! i = Some p ->
                  proc_out p = true ->
                  processors (browser w) !! i = Some p
                  /\ processorRef (media w) <> Some i).
Proof.
  rewrite stopEverything_contexts, stopEverything_streams,
    stopEverything_sources, stopEverything_processors.
  split; [|split; [|split]].
  - intros i H. destruct (audioContextRef (media w)) as [c|]; [|split; [exact H|congruence]].
    apply list_lookup_insert_Some in H.
    destruct H as [(_ & H & _)|(Hne & H)]; [discriminate|split; [exact H|congruence]].
  - intros i ts H Hl. destruct (streamRef (media w)) as [s|]; [|split; [exact H|congruence]].
    destruct (decide (s = i)) as [->|Hne];
      [|rewrite list_lookup_alter_ne in H by exact Hne; split; [exact H|congruence]].
    rewrite list_lookup_alter_eq in H.
    destruct (_ !! i); simpl in H; [|discriminate].
    injection H as <-. rewrite existsb_all_ended in Hl. discriminate.
  - intros i n H Hl. destruct (sourceRef (media w)) as [s|]; [|split; [exact H|congruence]].
    destruct (decide (s = i)) as [->|Hne];
      [|rewrite list_lookup_alter_ne in H by exact Hne; split; [exact H|congruence]].
    rewrite list_lookup_alter_eq in H.
    destruct (sources (browser w) !! i); simpl in H; [|discriminate].
    injection H as <-. discriminate.
  - intros i n H Hl. destruct (processorRef (media w)) as [s|]; [|split; [exact H|congruence]].
    destruct (decide (s = i)) as [->|Hne];
      [|rewrite list_lookup_alter_ne in H by exact Hne; split; [exact H|congruence]].
    rewrite list_lookup_alter_eq in H.
    destruct (processors (browser w) !! i); simpl in H; [|discriminate].
    injection H as <-. discriminate.
Qed.

Lemma filter_none {A} (P : A -> Prop) `{!forall x, Decision (P x)} (l : list A) :
  Forall (fun x => ~ P x) l -> length (filter P l) = 0%nat.
Proof.
  induction 1 as [|x l Hx _ IH]; [reflexivity|].
  rewrite filter_cons_False by exact Hx. exact IH.
Qed.

Lemma no_live_track (ss : list MediaStream) :
  Forall (fun ts => existsb isLive ts = false) ss ->
  Forall (fun t => ~ isLive t = true) (concat ss).
Proof.
  induction 1 as [|ts ss Hts _ IH]; simpl; [constructor|].
  apply Forall_app; split; [|exact IH].
  clear -Hts. induction ts as [|t ts IH]; [constructor|].
  simpl in Hts. apply orb_false_elim in Hts as [Ht Hts].
  constructor; [congruence|auto].
Qed.

Lemma audioHandleCount_zero (b : Browser) :
  (forall i, contexts b !! i <> Some Running) ->
  (forall i ts, streams b !! i = Some ts -> existsb isLive ts = false) ->
  (forall i n, sources b !! i = Some n -> sourceConnected n = false) ->
  (forall i p, processors b !! i = Some p -> proc_out p = false) ->
  audioHandleCount b = 0%nat.
Proof.
  intros Hc Hs Hn Hp. unfold audioHandleCount.
  rewrite !filter_none; [reflexivity| | | |].
  - apply Forall_lookup. intros i p Hi. rewrite (Hp i p Hi). discriminate.
  - apply Forall_lookup. intros i n Hi. rewrite (Hn i n Hi). discriminate.
  - apply Forall_lookup. intros i c Hi. destruct c; [|discriminate].
    destruct (Hc i Hi).
  - apply no_live_track, Forall_lookup. exact Hs.
Qed.

(** When the refs own everything that is open, nothing is open afterwards. *)
Lemma stopEverything_no_handles (w : World) :
  ownsAll w -> audioHandleCount (browser (stopEverything w)) = 0%nat.
Proof.
  intros (Oc & Os & On & Op).
  destruct (stopEverything_opens_nothing w) as (Nc & Ns & Nn & Np).
  apply audioHandleCount_zero.
  - intros i H. destruct (Nc i H) as [H1 H2]. auto.
  - intros i ts H. destruct (existsb isLive ts) eqn:E; [|reflexivity].
    destruct (Ns i ts H E) as [H1 H2]. destruct H2. eauto.
  - intros i n H. destruct (sourceConnected n) eqn:E; [|reflexivity].
    destruct (Nn i n H E) as [H1 H2]. destruct H2. eauto.
  - intros i p H. destruct (proc_out p) eqn:E; [|reflexivity].
    destruct (Np i p H E) as [H1 H2]. destruct H2. eauto.
Qed.

Lemma stopEverything_twice (w : World) :
  stopEverything (stopEverything w) = stopEverything w.
Proof.
  apply stopEverything_stopped.
  - apply stopEverything_media.
  - rewrite stopEverything_ui. reflexivity.
Qed.

Lemma streaming_reached : streaming = run initialWorld streamingTrace.
Proof. vm_compute. reflexivity. Qed.

Lemma streaming_ownsAll : ownsAll streaming.
Proof.
  split; [|split; [|split]].
  - intros [|i] H; [reflexivity|discriminate].
  - intros [|i] ts H; [reflexivity|discriminate].
  - intros [|i] n H; [reflexivity|discriminate].
  - intros [|i] p H; [reflexivity|discriminate].
Defined.

(** [stopEverything] is idempotent: a second call changes nothing, neither
    in the component nor in the store.  After one call every ref is null
    (the session reference included), recording is off, every handle the
    refs pointed to is released and the timer is cleared; when the refs own
    all that is open, no audio handle is left.  Called on a stopped recorder
    it is a no-op. *)
Lemma stopEverything_idempotent (w : World) :
  stopEverything (stopEverything w) = stopEverything w
  /\ media (stopEverything w) = noMedia
  /\ isRecording (ui (stopEverything w)) = false
  /\ released (media w) (browser (stopEverything w))
  /\ (ownsAll w -> audioHandleCount (browser (stopEverything w)) = 0%nat)
  /\ (media w = noMedia -> isRecording (ui w) = false -> stopEverything w = w).
Proof.
  split; [apply stopEverything_twice|].
  split; [apply stopEverything_media|].
  split; [rewrite stopEverything_ui; reflexivity|].
  split; [apply stopEverything_released|].
  split; [apply stopEverything_no_handles|apply stopEverything_stopped].
Qed.

Lemma stopEverything_idempotent_streaming :
  ownsAll streaming
  /\ audioHandleCount (browser streaming) = 4%nat
  /\ activeTimerCount (browser streaming) = 1%nat
  /\ audioHandleCount (browser (stopEverything streaming)) = 0%nat
  /\ activeTimerCount (browser (stopEverything streaming)) = 0%nat
  /\ stopEverything (stopEverything streaming) = stopEverything streaming
  /\ stopEverything (stopEverything (stopEverything streaming))
     = stopEverything streaming.
Proof.
  destruct (stopEverything_idempotent streaming) as (H2 & _ & _ & _ & H0 & _).
  destruct (stopEverything_idempotent (stopEverything streaming))
    as (_ & Hm & Hr & _ & _ & Hn).
  split; [exact streaming_ownsAll|].
  split; [reflexivity|]. split; [reflexivity|].
  split; [exact (H0 streaming_ownsAll)|].
  split; [reflexivity|]. split; [exact H2|].
  rewrite (Hn Hm Hr). exact H2.
Defined.

(** C8 — the code at the failing input: [stopEverything] called twice on
    a recording that streams audio.  The second call changes nothing, no
    audio handle is left and the timer is cleared, but the end state is not
    one with the session closed: the connection is still [Open]. *)
Theorem stop_twice_leaves_session_open :
  let once := stopEverything streaming in
  let twice := stopEverything once in
  twice = once
  /\ media twice = noMedia
  /\ isRecording (ui twice) = false
  /\ audioHandleCount (browser twice) = 0%nat
  /\ activeTimerCount (browser twice) = 0%nat
  /\ map conn (sessions (browser twice)) = [Open]
  /\ openConnectionCount (browser twice) = 1%nat.
Proof. vm_compute. repeat split. Qed.

(** ** Exit paths and the connection *)

Lemma handleFinish_browser now confirmed (w : World) :
  browser (fst (handleFinish now confirmed w))
  = browser (if isRecording (ui w) then stopEverything w else w).
Proof.
  unfold handleFinish.
  repeat match goal with
         | |- context [if ?c then _ else _] =>
             lazymatch c with
             | isRecording _ => fail
             | _ => destruct c
             end
         end; reflexivity.
Qed.

(** No click and no unmount does anything to a session of the store: the
    component never calls [close] on one. *)
Lemma exit_paths_keep_sessions (w : World) (e : Event) :
  match e with
  | ToggleClick _ _ => isRecording (ui w) = true
  | FinishClick _ _ | CancelClick | Unmount => True
  | _ => False
  end ->
  sessions (browser (step w e)) = sessions (browser w).
Proof.
  destruct e; simpl; try tauto; intros H.
  - destruct (mounted w); [|reflexivity]. unfold toggleRecording.
    rewrite H. apply stopEverything_sessions.
  - destruct (mounted w && finishEnabled w); [|reflexivity].
    rewrite handleFinish_browser.
    destruct (isRecording (ui w)); [apply stopEverything_sessions|reflexivity].
  - destruct (mounted w); [|reflexivity]. unfold unmount. simpl.
    apply stopEverything_sessions.
  - destruct (mounted w); [|reflexivity]. unfold unmount. simpl.
    apply stopEverything_sessions.
Qed.

(** C1 — the code at the failing input: a recording that streams audio is
    stopped, finished, cancelled or unmounted.  Every audio handle is
    released and the timer is cleared, but the session is still [Open]:
    [stopEverything] sets [sessionRef.current] to null and calls nothing on
    the session.  Only after a transport error is no connection open. *)
Theorem exits_leave_connection_open :
  streaming = run initialWorld streamingTrace
  /\ Forall
       (fun e =>
          let w := step streaming e in
          media w = noMedia
          /\ audioHandleCount (browser w) = 0%nat
          /\ activeTimerCount (browser w) = 0%nat
          /\ map conn (sessions (browser w)) = [Open]
          /\ openConnectionCount (browser w) = 1%nat)
       [ToggleClick true 9; FinishClick 9 true; CancelClick; Unmount]
  /\ (let w := step streaming (SessionError 0 None) in
      audioHandleCount (browser w) = 0%nat
      /\ map conn (sessions (browser w)) = [Errored]
      /\ openConnectionCount (browser w) = 0%nat).
Proof.
  split; [exact streaming_reached|].
  split; [repeat constructor|vm_compute; repeat split].
Qed.

(** [onclose] releases nothing and turns [isRecording] off, so the finish
    that follows skips [stopEverything]: the audio handles and the timer
    stay until the view is unmounted. *)
Lemma finish_after_remote_close_keeps_audio :
  let closed := step streaming (SessionClose 0) in
  let finished := step closed (FinishClick 9 true) in
  handsOff closed (FinishClick 9 true) = true
  /\ audioHandleCount (browser finished) = 4%nat
  /\ activeTimerCount (browser finished) = 1%nat
  /\ audioHandleCount (browser (step finished Unmount)) = 0%nat.
Proof. vm_compute. repeat split. Qed.

(** ** Transport errors *)

(** C6 — the code at the failing input: two starts before a connection
    opens, both connections open and a chunk committed, then a transport
    error on either connection.  The chunk and the buffer are kept and the
    refs are emptied, but only what the refs held, the context, stream,
    nodes and interval of the second start, is released.  The context of
    the first start still runs, its track is live, its two nodes are
    connected and its interval is scheduled; with the refs empty neither
    [stopEverything] nor the unmount of the view releases them.  The same
    is left behind by a transport error on a recording that was started
    again after the remote side closed the first. *)
Theorem transport_error_leaves_first_start_open :
  twoStarts = run initialWorld twoStartsTrace
  /\ map conn (sessions (browser twoStarts)) = [Open; Open]
  /\ Forall
       (fun sid =>
          let w := step twoStarts (SessionError sid None) in
          chunksRef (turn w) = [mkChunk 0 (js "Hello")]
          /\ chunksRef (turn w) = chunksRef (turn twoStarts)
          /\ currentTurnRef (turn w) = currentTurnRef (turn twoStarts)
          /\ media w = noMedia
          /\ contextRunning (browser w) 0 = true
          /\ hasLiveTrack (browser w) 0 = true
          /\ audioHandleCount (browser w) = 4%nat
          /\ activeTimerCount (browser w) = 1%nat
          /\ stopEverything w = w
          /\ audioHandleCount (browser (unmount w)) = 4%nat
          /\ activeTimerCount (browser (unmount w)) = 1%nat)
       [0%nat; 1%nat]
  /\ restarted = run initialWorld restartedTrace
  /\ map conn (sessions (browser restarted)) = [Closed; Open]
  /\ (let w := step restarted (SessionError 1 None) in
      media w = noMedia
      /\ contextRunning (browser w) 0 = true
      /\ hasLiveTrack (browser w) 0 = true
      /\ audioHandleCount (browser w) = 4%nat
      /\ activeTimerCount (browser w) = 1%nat
      /\ audioHandleCount (browser (unmount w)) = 4%nat).
Proof.
  split; [vm_compute; reflexivity|]. split; [reflexivity|].
  split; [repeat constructor|].
  split; [vm_compute; reflexivity|]. split; [reflexivity|].
  vm_compute. repeat split.
Qed.

(** X30 — a transport error on an open session leaves the committed chunks
    and the in-flight buffer as they were, empties every ref, releases every
    handle a ref held and leaves the connection [Errored]; when the refs
    held every audio handle that was open, none is open afterwards.  A later
    [handleFinish] hands off a result whose chunks start with every chunk
    committed before the error, and declines only when there is no chunk at
    all and the user does not confirm. *)
Theorem transport_error_keeps_transcript
    (w : World) (sid : nat) (se : Session) (message : option jsstring) :
  sessions (browser w) !! sid = Some se ->
  conn se = Open ->
  let w' := step w (SessionError sid message) in
  chunksRef (turn w') = chunksRef (turn w)
  /\ currentTurnRef (turn w') = currentTurnRef (turn w)
  /\ media w' = noMedia
  /\ released (media w) (browser w')
  /\ conn <$> sessions (browser w') !! sid = Some Errored
  /\ (ownsAll w -> audioHandleCount (browser w') = 0%nat)
  /\ forall now confirmed,
       match snd (handleFinish now confirmed w') with
       | Some r => chunksRef (turn w) `prefix_of` r_chunks r
       | None => chunksRef (turn w) = [] /\ confirmed = false
       end.
Proof.
  intros Hs Hc w'.
  set (w1 := setError
               (Some match message with
                     | Some m => m
                     | None => js "Connection error. Please try again."
                     end)
               (withBrowser (setConn sid Errored) w)).
  assert (Hw : w' = stopEverything w1).
  { subst w' w1. simpl. rewrite Hs, Hc. reflexivity. }
  assert (Ht : turn w' = turn w).
  { rewrite Hw, stopEverything_turn. reflexivity. }
  rewrite Hw. rewrite <- Hw at 1 2. rewrite Ht.
  split; [reflexivity|]. split; [reflexivity|].
  split; [apply stopEverything_media|].
  split; [exact (stopEverything_released w1)|].
  split.
  { rewrite stopEverything_sessions. subst w1. simpl.
    rewrite list_lookup_alter_eq, Hs. reflexivity. }
  split; [exact (stopEverything_no_handles w1)|].
  intros now confirmed. rewrite <- Hw.
  rewrite handleFinish_snd. cbv zeta.
  pose proof (handleFinish_chunks_prefix now confirmed w') as Hp.
  rewrite Ht in Hp.
  destruct (chunksRef (turn (fst (handleFinish now confirmed w')))) as [|c cs];
    simpl.
  - apply prefix_nil_inv in Hp. destruct confirmed; simpl; [|auto].
    rewrite Hp. reflexivity.
  - exact Hp.
Qed.

Lemma transport_error_keeps_transcript_witness :
  let w := step streaming (SessionMessage 0 turnCompleteMsg) in
  let w' := step w (SessionError 0 None) in
  sessions (browser w) !! 0%nat = Some (mkSession Open 0 0 [1%nat])
  /\ ownsAll w
  /\ audioHandleCount (browser w) = 4%nat
  /\ audioHandleCount (browser w') = 0%nat
  /\ chunksRef (turn w) = [mkChunk 0 (js "Hello")]
  /\ chunksRef (turn w') = [mkChunk 0 (js "Hello")]
  /\ [mkChunk 0 (js "Hello")]
       `prefix_of` chunksRef (turn (fst (handleFinish 9 false w'))).
Proof.
  intros w w'.
  assert (Hs : sessions (browser w) !! 0%nat = Some (mkSession Open 0 0 [1%nat]))
    by (vm_compute; reflexivity).
  assert (Ho : ownsAll w) by exact streaming_ownsAll.
  destruct (transport_error_keeps_transcript w 0 _ None Hs eq_refl)
    as (Hc & _ & _ & _ & _ & Hn & Hf).
  split; [exact Hs|]. split; [exact Ho|]. split; [vm_compute; reflexivity|].
  split; [exact (Hn Ho)|]. split; [vm_compute; reflexivity|].
  split; [transitivity (chunksRef (turn w)); [exact Hc|vm_compute; reflexivity]|].
  specialize (Hf 9 false). fold w' in Hf.
  rewrite handleFinish_snd in Hf. cbv zeta in Hf.
  destruct (chunksRef (turn (fst (handleFinish 9 false w')))) as [|c cs] eqn:E;
    simpl in Hf.
  - destruct Hf as [Hf _]. vm_compute in Hf. discriminate.
  - replace [mkChunk 0 (js "Hello")] with (chunksRef (turn w))
      by (vm_compute; reflexivity).
    exact Hf.
Defined.

(** ** Audio and the connection *)

Lemma wiring_initial : wiring (browser initialWorld).
Proof. repeat split; intros; discriminate. Qed.

Lemma fmap_alter_same {A B} (f : A -> B) (g : A -> A) (l : list A) i :
  (forall x, f (g x) = f x) -> f <$> alter g i l = f <$> l.
Proof.
  intros H. revert i. induction l as [|x l IH]; intros [|i]; simpl;
    try reflexivity.
  - rewrite H. reflexivity.
  - f_equal. apply IH.
Qed.

Lemma stopEverything_proc_sessions (w : World) :
  proc_session <$> processors (browser (stopEverything w))
  = proc_session <$> processors (browser w).
Proof.
  rewrite stopEverything_processors.
  destruct (processorRef (media w)); [|reflexivity].
  apply fmap_alter_same. reflexivity.
Qed.

Lemma wiring_stopEverything (w : World) :
  wiring (browser w) -> wiring (browser (stopEverything w)).
Proof.
  intros (W1 & W2 & W3). unfold wiring.
  rewrite stopEverything_proc_sessions, stopEverything_sessions.
  split; [exact W1|]. split; [|exact W3].
  intros i n p Hn Hp.
  destruct (stopEverything_opens_nothing w) as (_ & _ & Hsrc & _).
  destruct (Hsrc i n Hn) as [Hn' _]; [unfold sourceConnected; rewrite Hp; reflexivity|].
  eauto.
Qed.

Lemma wiring_setConn (b : Browser) sid c :
  c <> Connecting -> wiring b -> wiring (setConn sid c b).
Proof.
  intros Hc (W1 & W2 & W3). unfold wiring, setConn. simpl.
  rewrite fmap_alter_same by reflexivity. rewrite length_alter.
  split; [|split; [exact W2|exact W3]].
  intros sid' se Hs Hconn.
  destruct (decide (sid = sid')) as [->|Hne].
  - rewrite list_lookup_alter_eq in Hs.
    destruct (sessions b !! sid'); simpl in Hs; [|discriminate].
    injection Hs as <-. simpl in Hconn. congruence.
  - rewrite list_lookup_alter_ne in Hs by exact Hne. eauto.
Qed.

Lemma wiring_send (b : Browser) p pr frame :
  processors b !! p = Some pr -> wiring b ->
  wiring (sendRealtimeInput (proc_session pr) frame b).
Proof.
  intros Hp (W1 & W2 & W3). unfold wiring, sendRealtimeInput. simpl.
  rewrite fmap_alter_same by reflexivity. rewrite length_alter.
  split; [|split; [exact W2|exact W3]].
  intros sid se Hs Hconn.
  destruct (decide (proc_session pr = sid)) as [<-|Hne].
  - rewrite list_lookup_alter_eq in Hs.
    destruct (sessions b !! proc_session pr) as [se0|] eqn:E; simpl in Hs;
      [|discriminate].
    injection Hs as <-. simpl in Hconn.
    destruct (W1 _ _ E Hconn) as [_ Hno]. destruct (Hno p).
    rewrite list_lookup_fmap, Hp. reflexivity.
  - rewrite list_lookup_alter_ne in Hs by exact Hne. eauto.
Qed.

Lemma wiring_same (b b' : Browser) :
  sessions b' = sessions b -> processors b' = processors b ->
  sources b' = sources b -> wiring b -> wiring b'.
Proof. unfold wiring. intros -> -> ->. auto. Qed.

Lemma wiring_new_session (b : Browser) c s :
  wiring b ->
  wiring (set_sessions (sessions b ++ [mkSession Connecting c s []]) b).
Proof.
  intros (W1 & W2 & W3). unfold wiring. simpl.
  rewrite fmap_app, length_app. simpl. split; [|split].
  - intros sid se Hs Hconn. apply lookup_app_Some in Hs.
    destruct Hs as [Hs|[Hlen Hs]]; [eauto|].
    destruct (sid - length (sessions b))%nat eqn:E; [|discriminate].
    injection Hs as <-. split; [reflexivity|].
    intros p Hp. apply W3 in Hp. lia.
  - intros i n p Hn Hp. destruct (W2 i n p Hn Hp) as (s0 & H1 & H2).
    exists s0. split; [exact H1|]. apply lookup_app_l_Some, H2.
  - intros p s0 Hp. apply W3 in Hp. lia.
Qed.

Lemma wiring_onopen (b : Browser) sid se :
  sessions b !! sid = Some se -> conn se <> Connecting -> wiring b ->
  wiring (set_processors (processors b ++ [mkProcessor sid true])
            (set_sources
               (sources b
                ++ [mkSource (sess_stream se) (Some (length (processors b)))])
               b)).
Proof.
  intros Hs Hc (W1 & W2 & W3). unfold wiring. simpl.
  rewrite fmap_app. simpl. split; [|split].
  - intros sid' se' Hs' Hconn. destruct (W1 _ _ Hs' Hconn) as [H1 H2].
    split; [exact H1|]. intros p Hp. apply lookup_app_Some in Hp.
    destruct Hp as [Hp|[_ Hp]]; [exact (H2 p Hp)|].
    destruct (p - _)%nat; [|discriminate]. injection Hp as ->. congruence.
  - intros i n p Hn Hp. apply lookup_app_Some in Hn.
    destruct Hn as [Hn|[_ Hn]].
    + destruct (W2 i n p Hn Hp) as (s0 & H1 & H2).
      exists s0. split; [apply lookup_app_l_Some, H1|exact H2].
    + destruct (i - _)%nat; [|discriminate]. injection Hn as <-.
      simpl in Hp. injection Hp as <-. exists sid. split.
      * rewrite lookup_app_r by (rewrite length_fmap; lia).
        rewrite length_fmap, Nat.sub_diag. reflexivity.
      * rewrite list_lookup_fmap, Hs. reflexivity.
  - intros p s Hp. apply lookup_app_Some in Hp.
    destruct Hp as [Hp|[_ Hp]]; [eauto|].
    destruct (p - _)%nat; [|discriminate]. injection Hp as <-.
    apply lookup_lt_Some in Hs. exact Hs.
Qed.

Lemma onmessage_browser m (w : World) : browser (onmessage m w) = browser w.
Proof.
  unfold onmessage.
  match goal with |- context [if ?c then _ else _] => destruct c end;
    reflexivity.
Qed.

Lemma step_wiring (w : World) (e : Event) :
  wiring (browser w) -> wiring (browser (step w e)).
Proof.
  intros H.
  destruct e as [k now|now c| | |r|r msg|sid|sid m|sid|sid msg|t|s f]; simpl.
  - destruct (mounted w); [|exact H]. unfold toggleRecording.
    destruct (isRecording (ui w)); [apply wiring_stopEverything, H|].
    unfold startRecording. destruct k.
    + eapply wiring_same; [| | |exact H]; reflexivity.
    + apply wiring_stopEverything. exact H.
  - destruct (mounted w && finishEnabled w); [|exact H].
    rewrite handleFinish_browser.
    destruct (isRecording (ui w)); [apply wiring_stopEverything, H|exact H].
  - destruct (mounted w); [|exact H]. unfold unmount. cbn [browser].
    apply wiring_stopEverything, H.
  - destruct (mounted w); [|exact H]. unfold unmount. cbn [browser].
    apply wiring_stopEverything, H.
  - destruct (requests (browser w) !! r) as [q|]; [|exact H].
    destruct (req_settled q); [exact H|].
    apply (wiring_new_session
             (set_streams (streams (browser w) ++ [[Live]])
                          (settle r (browser w)))).
    eapply wiring_same; [| | |exact H]; reflexivity.
  - destruct (requests (browser w) !! r) as [q|]; [|exact H].
    destruct (req_settled q); [exact H|].
    unfold startRecording_denied. apply wiring_stopEverything.
    eapply wiring_same; [| | |exact H]; reflexivity.
  - destruct (sessions (browser w) !! sid) as [se|] eqn:Hs; [|exact H].
    destruct (conn se) eqn:Hc; try exact H.
    apply (wiring_onopen
             (set_timers (timers (browser w) ++ [true])
                         (setConn sid Open (browser w)))
             sid (mkSession Open (sess_context se) (sess_stream se) (sent se))).
    + simpl. rewrite list_lookup_alter_eq, Hs. reflexivity.
    + discriminate.
    + apply (wiring_same (setConn sid Open (browser w))); try reflexivity.
      apply wiring_setConn; [discriminate|exact H].
  - destruct (sessions (browser w) !! sid) as [se|]; [|exact H].
    destruct (conn se); try exact H. rewrite onmessage_browser. exact H.
  - destruct (sessions (browser w) !! sid) as [se|]; [|exact H].
    destruct (conn se); try exact H.
    apply (wiring_setConn (browser w) sid Closed); [discriminate|exact H].
  - destruct (sessions (browser w) !! sid) as [se|]; [|exact H].
    destruct (conn se); try exact H; unfold onerror;
      apply wiring_stopEverything;
      apply (wiring_setConn (browser w) sid Errored);
      (discriminate || exact H).
  - destruct (timers (browser w) !! t) as [[|]|]; exact H.
  - destruct (wiredProcessor (browser w) s) as [p|]; [|exact H].
    unfold onaudioprocess.
    destruct (processors (browser w) !! p) as [pr|] eqn:Hp; [|exact H].
    apply (wiring_send (browser w) p pr f Hp H).
Qed.

Lemma run_wiring (w : World) (evs : list Event) :
  wiring (browser w) -> wiring (browser (run w evs)).
Proof.
  revert w. induction evs as [|e evs IH]; intros w H; simpl; [exact H|].
  apply IH, step_wiring, H.
Qed.

Lemma carried_same (l : list Session) sid se extra :
  l !! sid = Some se -> carried se l sid extra.
Proof. intros H. exists se. repeat split; [exact H|lia]. Qed.

Lemma carried_setConn (b : Browser) sid sid' c se extra :
  sessions b !! sid = Some se ->
  carried se (sessions (setConn sid' c b)) sid extra.
Proof.
  intros H. unfold setConn, set_sessions. cbn [sessions].
  destruct (decide (sid' = sid)) as [->|Hne].
  - unfold carried. eexists.
    split; [rewrite list_lookup_alter_eq, H; reflexivity|]. simpl. lia.
  - apply carried_same. rewrite list_lookup_alter_ne by exact Hne. exact H.
Qed.

Lemma wired_stream (b : Browser) s p pr :
  wiring b -> wiredProcessor b s = Some p -> processors b !! p = Some pr ->
  (sess_stream <$> sessions b) !! proc_session pr = Some s.
Proof.
  intros (_ & W2 & _) Hw Hp. unfold wiredProcessor in Hw.
  apply head_Some_elem_of, list_elem_of_omap in Hw as (n & Hn & Hf).
  apply list_elem_of_lookup in Hn as [i Hi].
  unfold feeds in Hf.
  destruct ((src_stream n =? s)%nat && hasLiveTrack b s) eqn:E.
  2: discriminate.
  apply andb_prop in E as [E _]. apply Nat.eqb_eq in E.
  destruct (src_out n) as [p'|] eqn:Ho; [|discriminate].
  destruct (processors b !! p') as [pr'|] eqn:Hp'; [|discriminate].
  destruct (sessions b !! proc_session pr'); [|discriminate].
  destruct (proc_out pr' && _); [|discriminate].
  injection Hf as ->.
  destruct (W2 i n p Hi Ho) as (owner & H1 & H2).
  rewrite list_lookup_fmap, Hp in H1. injection H1 as <-.
  rewrite H2, E. reflexivity.
Qed.

Lemma step_sent (w : World) (e : Event) sid se :
  wiring (browser w) -> sessions (browser w) !! sid = Some se ->
  carried se (sessions (browser (step w e))) sid
          (if capturedOn (sess_stream se) e then 1 else 0).
Proof.
  intros W Hs.
  assert (Hstop : forall w' k, sessions (browser w') !! sid = Some se ->
                               carried se (sessions (browser (stopEverything w')))
                                       sid k).
  { intros w' k H'. rewrite stopEverything_sessions. apply carried_same, H'. }
  destruct e as [k now|now c| | |r|r msg|sid'|sid' m|sid'|sid' msg|t|s f]; simpl.
  - destruct (mounted w); [|apply carried_same, Hs]. unfold toggleRecording.
    destruct (isRecording (ui w)); [apply Hstop, Hs|].
    unfold startRecording. destruct k; [apply carried_same, Hs|apply Hstop, Hs].
  - destruct (mounted w && finishEnabled w); [|apply carried_same, Hs].
    rewrite handleFinish_browser.
    destruct (isRecording (ui w)); [apply Hstop, Hs|apply carried_same, Hs].
  - destruct (mounted w); [|apply carried_same, Hs]. unfold unmount.
    cbn [browser]. apply Hstop, Hs.
  - destruct (mounted w); [|apply carried_same, Hs]. unfold unmount.
    cbn [browser]. apply Hstop, Hs.
  - destruct (requests (browser w) !! r) as [q|]; [|apply carried_same, Hs].
    destruct (req_settled q); [apply carried_same, Hs|]. simpl.
    apply carried_same, lookup_app_l_Some, Hs.
  - destruct (requests (browser w) !! r) as [q|]; [|apply carried_same, Hs].
    destruct (req_settled q); [apply carried_same, Hs|].
    unfold startRecording_denied. apply Hstop, Hs.
  - destruct (sessions (browser w) !! sid') as [se0|] eqn:E;
      [|apply carried_same, Hs].
    destruct (conn se0); try apply carried_same, Hs.
    apply (carried_setConn (browser w) sid sid' Open se _ Hs).
  - destruct (sessions (browser w) !! sid') as [se0|];
      [|apply carried_same, Hs].
    destruct (conn se0); try apply carried_same, Hs.
    rewrite onmessage_browser. apply carried_same, Hs.
  - destruct (sessions (browser w) !! sid') as [se0|];
      [|apply carried_same, Hs].
    destruct (conn se0); try apply carried_same, Hs.
    apply (carried_setConn (browser w) sid sid' Closed se _ Hs).
  - destruct (sessions (browser w) !! sid') as [se0|];
      [|apply carried_same, Hs].
    destruct (conn se0); try apply carried_same, Hs; unfold onerror;
      rewrite stopEverything_sessions;
      apply (carried_setConn (browser w) sid sid' Errored se _ Hs).
  - destruct (timers (browser w) !! t) as [[|]|]; apply carried_same, Hs.
  - destruct (wiredProcessor (browser w) s) as [p|] eqn:Hw;
      [|apply carried_same, Hs].
    unfold onaudioprocess.
    destruct (processors (browser w) !! p) as [pr|] eqn:Hp;
      [|apply carried_same, Hs].
    simpl. destruct (decide (proc_session pr = sid)) as [Heq|Hne].
    + pose proof (wired_stream _ _ _ _ W Hw Hp) as Hst.
      rewrite Heq, list_lookup_fmap, Hs in Hst. simpl in Hst.
      injection Hst as Hst. rewrite Hst, Nat.eqb_refl, Heq.
      eexists. split; [rewrite list_lookup_alter_eq, Hs; reflexivity|].
      simpl. rewrite length_app. simpl. lia.
    + apply carried_same. rewrite list_lookup_alter_ne by exact Hne. exact Hs.
Qed.

Lemma run_sent (w : World) (evs : list Event) sid se :
  wiring (browser w) -> sessions (browser w) !! sid = Some se ->
  carried se (sessions (browser (run w evs))) sid
          (framesCaptured (sess_stream se) evs).
Proof.
  revert w se. induction evs as [|e evs IH]; intros w se W Hs; simpl.
  - apply carried_same, Hs.
  - destruct (step_sent w e sid se W Hs) as (se1 & H1 & Hst & Hlen).
    destruct (IH (step w e) se1 (step_wiring w e W) H1) as (se2 & H2 & Hst2 & Hl2).
    exists se2. rewrite Hst in Hl2. repeat split; [exact H2|congruence|lia].
Qed.

Lemma provenance_initial : provenance (browser initialWorld).
Proof. repeat split; intros; discriminate. Qed.

Lemma lookup_alter_inv {A} (g : A -> A) (l : list A) i j y :
  alter g i l !! j = Some y ->
  exists x, l !! j = Some x /\ (y = x \/ y = g x).
Proof.
  destruct (decide (i = j)) as [->|Hne].
  - rewrite list_lookup_alter_eq. destruct (l !! j) as [x|]; [|discriminate].
    intros [= <-]. eauto.
  - rewrite list_lookup_alter_ne by exact Hne. eauto.
Qed.

Lemma lookup_alter_fwd {A} (g : A -> A) (l : list A) i j x :
  l !! j = Some x ->
  exists y, alter g i l !! j = Some y /\ (y = x \/ y = g x).
Proof.
  intros H. destruct (decide (i = j)) as [->|Hne].
  - rewrite list_lookup_alter_eq, H. simpl. eauto.
  - rewrite list_lookup_alter_ne by exact Hne. eauto.
Qed.

Lemma provenance_alter (b : Browser) (g : Session -> Session) sid :
  (forall x, sess_stream (g x) = sess_stream x) ->
  (forall x, conn x <> Connecting -> conn (g x) <> Connecting) ->
  provenance b -> provenance (set_sessions (alter g sid (sessions b)) b).
Proof.
  intros Hst Hco (S1 & S2 & S3). unfold provenance. simpl.
  split; [|split].
  - intros k y Hy. apply lookup_alter_inv in Hy as (x & Hx & [->| ->]);
      rewrite ?Hst; eauto.
  - intros a c sa sc Ha Hc He.
    apply lookup_alter_inv in Ha as (xa & Hxa & Ea).
    apply lookup_alter_inv in Hc as (xc & Hxc & Ec).
    apply (S2 a c xa xc Hxa Hxc).
    destruct Ea as [->| ->], Ec as [->| ->]; rewrite ?Hst in He; exact He.
  - intros i s Hi. destruct (S3 i s Hi) as (k & x & Hx & Hs & Hc).
    destruct (lookup_alter_fwd g _ sid k x Hx) as (y & Hy & [->| ->]);
      exists k; eexists; (split; [exact Hy|]); rewrite ?Hst; auto.
Qed.

Lemma provenance_same (b b' : Browser) :
  sessions b' = sessions b -> length (streams b') = length (streams b) ->
  src_stream <$> sources b' = src_stream <$> sources b ->
  provenance b -> provenance b'.
Proof. unfold provenance. intros -> -> ->. auto. Qed.

Lemma provenance_stopEverything (w : World) :
  provenance (browser w) -> provenance (browser (stopEverything w)).
Proof.
  apply provenance_same.
  - apply stopEverything_sessions.
  - rewrite stopEverything_streams.
    destruct (streamRef (media w)); [apply length_alter|reflexivity].
  - rewrite stopEverything_sources.
    destruct (sourceRef (media w)); [|reflexivity].
    apply fmap_alter_same. reflexivity.
Qed.

Lemma provenance_new_session (b : Browser) c :
  provenance b ->
  provenance
    (set_sessions (sessions b ++ [mkSession Connecting c (length (streams b)) []])
                  (set_streams (streams b ++ [[Live]]) b)).
Proof.
  intros (S1 & S2 & S3). unfold provenance. simpl.
  rewrite length_app. simpl.
  assert (Hnew : forall k y,
             (sessions b ++ [mkSession Connecting c (length (streams b)) []]) !! k
             = Some y ->
             (sessions b !! k = Some y /\ sess_stream y < length (streams b))%nat
             \/ (k = length (sessions b)
                 /\ sess_stream y = length (streams b))).
  { intros k y Hy. apply lookup_app_Some in Hy as [Hy|[Hk Hy]]; [eauto|].
    destruct (k - length (sessions b))%nat eqn:E; [|discriminate].
    injection Hy as <-. right. split; [lia|reflexivity]. }
  split; [|split].
  - intros k y Hy. destruct (Hnew k y Hy) as [[_ H]|[_ H]]; lia.
  - intros a d sa sd Ha Hd He.
    destruct (Hnew a sa Ha) as [[Ha' La]|[-> La]],
             (Hnew d sd Hd) as [[Hd' Ld]|[-> Ld]]; try lia; eauto.
  - intros i s Hi. destruct (S3 i s Hi) as (k & x & Hx & Hs & Hc).
    exists k, x. split; [apply lookup_app_l_Some, Hx|auto].
Qed.

Lemma provenance_onopen (b : Browser) sid se p :
  sessions b !! sid = Some se -> conn se <> Connecting -> provenance b ->
  provenance (set_processors p
                (set_sources (sources b ++ [mkSource (sess_stream se) (Some (length (processors b)))])
                             b)).
Proof.
  intros Hs Hc (S1 & S2 & S3). unfold provenance. simpl.
  split; [exact S1|]. split; [exact S2|].
  intros i s Hi. rewrite fmap_app in Hi. apply lookup_app_Some in Hi.
  destruct Hi as [Hi|[_ Hi]]; [eauto|].
  destruct (i - _)%nat; [|discriminate]. injection Hi as <-. eauto.
Qed.

Lemma step_provenance (w : World) (e : Event) :
  provenance (browser w) -> provenance (browser (step w e)).
Proof.
  intros H.
  destruct e as [k now|now c| | |r|r msg|sid|sid m|sid|sid msg|t|s f]; simpl.
  - destruct (mounted w); [|exact H]. unfold toggleRecording.
    destruct (isRecording (ui w)); [apply provenance_stopEverything, H|].
    unfold startRecording. destruct k.
    + eapply provenance_same; [| | |exact H]; reflexivity.
    + apply provenance_stopEverything. exact H.
  - destruct (mounted w && finishEnabled w); [|exact H].
    rewrite handleFinish_browser.
    destruct (isRecording (ui w)); [apply provenance_stopEverything, H|exact H].
  - destruct (mounted w); [|exact H]. unfold unmount. cbn [browser].
    apply provenance_stopEverything, H.
  - destruct (mounted w); [|exact H]. unfold unmount. cbn [browser].
    apply provenance_stopEverything, H.
  - destruct (requests (browser w) !! r) as [q|]; [|exact H].
    destruct (req_settled q); [exact H|].
    apply (provenance_new_session (settle r (browser w))).
    eapply provenance_same; [| | |exact H]; reflexivity.
  - destruct (requests (browser w) !! r) as [q|]; [|exact H].
    destruct (req_settled q); [exact H|].
    unfold startRecording_denied. apply provenance_stopEverything.
    eapply provenance_same; [| | |exact H]; reflexivity.
  - destruct (sessions (browser w) !! sid) as [se|] eqn:Hs; [|exact H].
    destruct (conn se) eqn:Hc; try exact H.
    apply (provenance_onopen
             (set_timers (timers (browser w) ++ [true])
                         (setConn sid Open (browser w)))
             sid (mkSession Open (sess_context se) (sess_stream se) (sent se))).
    + simpl. rewrite list_lookup_alter_eq, Hs. reflexivity.
    + discriminate.
    + apply (provenance_same (setConn sid Open (browser w))); try reflexivity.
      apply provenance_alter; [reflexivity|discriminate|exact H].
  - destruct (sessions (browser w) !! sid) as [se|]; [|exact H].
    destruct (conn se); try exact H. rewrite onmessage_browser. exact H.
  - destruct (sessions (browser w) !! sid) as [se|]; [|exact H].
    destruct (conn se); try exact H.
    apply (provenance_alter (browser w)); [reflexivity|discriminate|exact H].
  - destruct (sessions (browser w) !! sid) as [se|]; [|exact H].
    destruct (conn se); try exact H; unfold onerror;
      apply provenance_stopEverything;
      apply (provenance_alter (browser w)); (reflexivity || discriminate || exact H).
  - destruct (timers (browser w) !! t) as [[|]|]; exact H.
  - destruct (wiredProcessor (browser w) s) as [p|]; [|exact H].
    unfold onaudioprocess.
    destruct (processors (browser w) !! p) as [pr|] eqn:Hp; [|exact H].
    apply (provenance_alter (browser w)); [reflexivity|auto|exact H].
Qed.

Lemma run_provenance (w : World) (evs : list Event) :
  provenance (browser w) -> provenance (browser (run w evs)).
Proof.
  revert w. induction evs as [|e evs IH]; intros w H; simpl; [exact H|].
  apply IH, step_provenance, H.
Qed.

(** No audio graph reads the stream of a session that is still connecting. *)
Lemma connecting_not_wired (b : Browser) sid se :
  provenance b -> sessions b !! sid = Some se -> conn se = Connecting ->
  wiredProcessor b (sess_stream se) = None.
Proof.
  intros (_ & S2 & S3) Hs Hc.
  destruct (wiredProcessor b (sess_stream se)) as [p|] eqn:Hw; [|reflexivity].
  exfalso. unfold wiredProcessor in Hw.
  apply head_Some_elem_of, list_elem_of_omap in Hw as (n & Hn & Hf).
  apply list_elem_of_lookup in Hn as [i Hi].
  unfold feeds in Hf.
  destruct ((src_stream n =? sess_stream se)%nat && _) eqn:E; [|discriminate].
  apply andb_prop in E as [E _]. apply Nat.eqb_eq in E.
  destruct (S3 i (src_stream n)) as (k & x & Hx & Hst & Hne).
  { rewrite list_lookup_fmap, Hi. reflexivity. }
  assert (k = sid) as -> by (apply (S2 k sid x se Hx Hs); congruence).
  congruence.
Qed.

(** C7 — take any moment at which a session is still connecting.  It has
    sent nothing so far, and whatever happens next, the number of buffers it
    ever sends is at most the number of buffers its stream captures from
    that moment on; the moment just before the connection opens included,
    so nothing captured before [Open] is sent.  A buffer captured while the
    session is connecting is dropped: it leaves the whole state as it is. *)
Theorem no_audio_sent_before_open
    (pre post : list Event) (sid : nat) (se : Session) :
  let w := run initialWorld pre in
  sessions (browser w) !! sid = Some se ->
  conn se = Connecting ->
  sent se = []
  /\ (forall frame, step w (AudioFrame (sess_stream se) frame) = w)
  /\ exists se', sessions (browser (run w post)) !! sid = Some se'
                 /\ (length (sent se') <= framesCaptured (sess_stream se) post)%nat.
Proof.
  intros w Hs Hc.
  assert (W : wiring (browser w)) by (apply run_wiring, wiring_initial).
  assert (P : provenance (browser w))
    by (apply run_provenance, provenance_initial).
  destruct W as (W1 & W'). destruct (W1 sid se Hs Hc) as [Hsent _].
  split; [exact Hsent|].
  split.
  { intros frame. simpl. rewrite (connecting_not_wired _ sid se P Hs Hc).
    reflexivity. }
  destruct (run_sent w post sid se (conj W1 W') Hs) as (se' & H1 & _ & Hl).
  exists se'. split; [exact H1|]. rewrite Hsent in Hl. simpl in Hl. exact Hl.
Qed.

Lemma no_audio_sent_before_open_witness :
  let pre := [ToggleClick true 0; MicGranted 0; AudioFrame 0 1] in
  let post := [AudioFrame 0 2; SessionOpen 0; AudioFrame 0 3; AudioFrame 0 4] in
  sessions (browser (run initialWorld pre)) !! 0%nat
  = Some (mkSession Connecting 0 0 [])
  /\ (sent <$> sessions (browser (run initialWorld (pre ++ post))) !! 0%nat)
     = Some [3%nat; 4%nat]
  /\ exists se', sessions (browser (run (run initialWorld pre) post)) !! 0%nat
                 = Some se'
                 /\ (length (sent se') <= 3)%nat.
Proof.
  intros pre post.
  assert (Hs : sessions (browser (run initialWorld pre)) !! 0%nat
               = Some (mkSession Connecting 0 0 []))
    by (vm_compute; reflexivity).
  split; [exact Hs|]. split; [vm_compute; reflexivity|].
  exact (proj2 (proj2 (no_audio_sent_before_open pre post 0 _ Hs eq_refl))).
Defined.

(** Outside a session: the connection is never closed, so a message can
    still arrive after the hand-off.  A [turnComplete] that follows the
    finish of [turnOpenedAtZero] appends the turn once more, stamped 0 after
    the chunk stamped 7. *)
Lemma stale_turn_complete_after_handoff :
  let w := run initialWorld
             (turnOpenedAtZero
              ++ [FinishClick 9 true; SessionMessage 0 turnCompleteMsg]) in
  handsOff (run initialWorld turnOpenedAtZero) (FinishClick 9 true) = true
  /\ map timestamp (chunksRef (turn w)) = [7; 0].
Proof. vm_compute. split; reflexivity. Qed.

(** The end-to-end scenario: three partial texts build one turn, the turn
    completes, a second turn is still open when the user finishes. *)
Example end_to_end_scenario :
  let w := run initialWorld
             [ToggleClick true 0; MicGranted 0; SessionOpen 0; TimerTick 0;
              SessionMessage 0 (partialText (js "Hel"));
              SessionMessage 0 (partialText (js "lo wo"));
              SessionMessage 0 (partialText (js "rld"));
              SessionMessage 0 turnCompleteMsg; TimerTick 0; TimerTick 0;
              SessionMessage 0 (partialText (js "Next point")); TimerTick 0] in
  transcript (ui w) = js "Hello world Next point"
  /\ snd (handleFinish 4000 true w)
     = Some (mkResult 0 4000 4 (js "Hello world Next point")
                      [mkChunk 1 (js "Hello world"); mkChunk 3 (js "Next point")]).
Proof. vm_compute. split; reflexivity. Qed.

(** * More properties of the recorder *)

(** ** Trimming *)

Lemma trimStart_kept (s : jsstring) c r :
  isWhiteSpace c = false -> s = c :: r -> trimStart s = s.
Proof. intros Hc ->. simpl. rewrite Hc. reflexivity. Qed.

Lemma trimStart_trimStart (s : jsstring) : trimStart (trimStart s) = trimStart s.
Proof.
  destruct (trimStart s) as [|c r] eqn:E; [reflexivity|].
  eapply trimStart_kept; [eapply trimStart_head, E|reflexivity].
Qed.

Lemma trimStart_suffix (s : jsstring) : exists k, s = k ++ trimStart s.
Proof.
  induction s as [|c s [k IH]]; [exists []; reflexivity|].
  simpl. destruct (isWhiteSpace c).
  - exists (c :: k). simpl. f_equal. exact IH.
  - exists []. reflexivity.
Qed.

Lemma trim_trim (s : jsstring) : trim (trim s) = trim s.
Proof.
  unfold trim, trimEnd.
  set (a := trimStart s). set (b := trimStart (rev a)).
  assert (H1 : trimStart (rev b) = rev b).
  { destruct (rev b) as [|c r] eqn:E; [reflexivity|].
    destruct (trimStart_suffix (rev a)) as [k Hk]. fold b in Hk.
    apply (f_equal (@rev N)) in Hk.
    rewrite rev_involutive, rev_app_distr, E in Hk. simpl in Hk.
    eapply trimStart_kept; [|reflexivity].
    eapply trimStart_head. exact Hk. }
  rewrite H1, rev_involutive. subst b. rewrite trimStart_trimStart.
  reflexivity.
Qed.

Lemma trimmed_wellFormed ts (s : jsstring) :
  truthy (trim s) = true -> wellFormedChunk (mkChunk ts (trim s)).
Proof. intros H. split; [exact H|apply trim_trim]. Qed.

Lemma join_truthy (c : TranscriptChunk) (cs : list TranscriptChunk) :
  Forall wellFormedChunk (c :: cs) -> truthy (join (map text (c :: cs))) = true.
Proof.
  intros H. apply Forall_cons_1 in H as [[Hc _] _].
  simpl. destruct (text c) as [|x xs]; [discriminate|].
  destruct (map text cs); reflexivity.
Qed.

(** ** What one event does to the refs and to the live transcript *)

Lemma stopEverything_transcript (w : World) :
  transcript (ui (stopEverything w)) = transcript (ui w).
Proof. rewrite stopEverything_ui. reflexivity. Qed.

Lemma handleFinish_transcript now confirmed (w : World) :
  transcript (ui (fst (handleFinish now confirmed w))) = transcript (ui w).
Proof.
  unfold handleFinish.
  assert (He : transcript (ui (if isRecording (ui w) then stopEverything w
                               else w)) = transcript (ui w)).
  { destruct (isRecording (ui w)); [|reflexivity].
    apply stopEverything_transcript. }
  repeat match goal with
         | |- context [if ?c then _ else _] =>
             lazymatch c with
             | isRecording _ => fail
             | _ => destruct c
             end
         end; simpl; exact He.
Qed.

Lemma onmessage_transcript m (w : World) :
  transcript (ui (onmessage m w))
  = if match incomingText m with Some _ => true | None => false end
       || isTurnComplete m
    then fullText (reconcile m (turn w))
    else transcript (ui w).
Proof.
  unfold onmessage.
  match goal with |- context [if ?c then _ else _] => destruct c end;
    reflexivity.
Qed.

Lemma reconcile_idle m (t : TurnRefs) :
  match incomingText m with Some _ => true | None => false end
  || isTurnComplete m = false ->
  reconcile m t = t.
Proof.
  unfold reconcile, afterTranscription.
  destruct (incomingText m), (isTurnComplete m); simpl; congruence.
Qed.

Ltac by_guards :=
  simpl;
  repeat match goal with
         | H : ?x = _ |- context [?x] => rewrite H
         end.

Lemma step_shape (w : World) (e : Event) : StepShape w e.
Proof.
  assert (Hstop : forall w', step w e = stopEverything w' -> turn w' = turn w ->
                             transcript (ui w') = transcript (ui w) ->
                             StepShape w e).
  { intros w' Hs Ht Hx. apply ss_quiet; rewrite Hs.
    - rewrite stopEverything_turn. exact Ht.
    - rewrite stopEverything_transcript. exact Hx. }
  assert (Hsame : step w e = w -> StepShape w e).
  { intros Hs. apply ss_quiet; rewrite Hs; reflexivity. }
  destruct e as [k now|now c| | |r|r msg|sid|sid m|sid|sid msg|t|s f].
  - destruct (mounted w) eqn:Hm; [|apply Hsame; by_guards; reflexivity].
    destruct (isRecording (ui w)) eqn:Hr.
    + apply (Hstop w); try reflexivity. by_guards. unfold toggleRecording.
      rewrite Hr. reflexivity.
    + apply (ss_start _ _ k now). by_guards. unfold toggleRecording.
      rewrite Hr. reflexivity.
  - destruct (mounted w && finishEnabled w) eqn:Hg;
      [|apply Hsame; by_guards; reflexivity].
    apply (ss_finish _ _ now c). by_guards. reflexivity.
  - destruct (mounted w) eqn:Hm; [|apply Hsame; by_guards; reflexivity].
    apply ss_quiet; by_guards; [apply unmount_turn|].
    unfold unmount. cbn [ui]. apply stopEverything_transcript.
  - destruct (mounted w) eqn:Hm; [|apply Hsame; by_guards; reflexivity].
    apply ss_quiet; by_guards; [apply unmount_turn|].
    unfold unmount. cbn [ui]. apply stopEverything_transcript.
  - destruct (requests (browser w) !! r) as [q|] eqn:Hq;
      [|apply Hsame; by_guards; reflexivity].
    destruct (req_settled q) eqn:Hs; [apply Hsame; by_guards; reflexivity|].
    apply ss_quiet; by_guards; reflexivity.
  - destruct (requests (browser w) !! r) as [q|] eqn:Hq;
      [|apply Hsame; by_guards; reflexivity].
    destruct (req_settled q) eqn:Hs; [apply Hsame; by_guards; reflexivity|].
    eapply Hstop; [by_guards; unfold startRecording_denied; reflexivity| |];
      reflexivity.
  - destruct (sessions (browser w) !! sid) as [se|] eqn:Hq;
      [|apply Hsame; by_guards; reflexivity].
    destruct (conn se) eqn:Hc; try (apply Hsame; by_guards; reflexivity).
    apply ss_quiet; by_guards; reflexivity.
  - destruct (sessions (browser w) !! sid) as [se|] eqn:Hq;
      [|apply Hsame; by_guards; reflexivity].
    destruct (conn se) eqn:Hc; try (apply Hsame; by_guards; reflexivity).
    apply (ss_message _ _ m). by_guards. reflexivity.
  - destruct (sessions (browser w) !! sid) as [se|] eqn:Hq;
      [|apply Hsame; by_guards; reflexivity].
    destruct (conn se) eqn:Hc; try (apply Hsame; by_guards; reflexivity).
    apply ss_quiet; by_guards; reflexivity.
  - destruct (sessions (browser w) !! sid) as [se|] eqn:Hq;
      [|apply Hsame; by_guards; reflexivity].
    destruct (conn se) eqn:Hc; try (apply Hsame; by_guards; reflexivity);
      (eapply Hstop; [by_guards; unfold onerror; reflexivity| |]; reflexivity).
  - destruct (timers (browser w) !! t) as [[|]|] eqn:Ht;
      try (apply Hsame; by_guards; reflexivity).
    apply ss_tick. by_guards. reflexivity.
  - destruct (wiredProcessor (browser w) s) as [p|] eqn:Hp;
      [|apply Hsame; by_guards; reflexivity].
    apply ss_quiet; by_guards; unfold onaudioprocess;
      destruct (processors (browser w) !! p); reflexivity.
Qed.

Lemma viewInv_reconcile m (w w' : World) :
  turn w' = reconcile m (turn w) ->
  transcript (ui w')
  = (if match incomingText m with Some _ => true | None => false end
        || isTurnComplete m
     then fullText (reconcile m (turn w)) else transcript (ui w)) ->
  viewInv w -> viewInv w'.
Proof.
  intros Ht Hx (Hc & Ha & Hb & Hv).
  destruct (match incomingText m with Some _ => true | None => false end
            || isTurnComplete m) eqn:Hn.
  2:{ rewrite reconcile_idle in Ht by exact Hn.
      unfold viewInv. rewrite Ht, Hx. auto. }
  assert (H3 : Forall wellFormedChunk (chunksRef (reconcile m (turn w)))
               /\ (isTurnActiveRef (reconcile m (turn w)) = true
                   \/ currentTurnRef (reconcile m (turn w)) = [])
               /\ 0 <= turnStartTimeRef (reconcile m (turn w))
                  <= elapsedTimeRef (reconcile m (turn w))).
  { unfold reconcile, afterTranscription, onTurnComplete, onTranscription.
    destruct (incomingText m), (isTurnComplete m),
      (isTurnActiveRef (turn w)) eqn:Eact; simpl;
      repeat match goal with
             | |- context [if truthy ?x then _ else _] =>
                 destruct (truthy x) eqn:?
             end;
      repeat split; auto; try lia;
      try (apply Forall_app; split; [exact Hc|];
           repeat constructor; simpl; auto using trim_trim). }
  destruct H3 as (Hc' & Ha' & Hb').
  unfold viewInv. rewrite Ht, Hx. repeat split; try tauto; try lia.
  unfold fullText.
  destruct (chunksRef (reconcile m (turn w))) as [|c cs] eqn:Ec.
  - destruct (currentTurnRef (reconcile m (turn w))); [left; auto|right].
    reflexivity.
  - right. pose proof (join_truthy c cs Hc') as Hj.
    destruct (join (map text (c :: cs))); [discriminate|reflexivity].
Qed.

Lemma viewInv_finish now c (w w' : World) :
  turn w' = turn (fst (handleFinish now c w)) ->
  transcript (ui w') = transcript (ui w) ->
  viewInv w -> viewInv w'.
Proof.
  intros Ht Hx (Hc & Ha & Hb & Hv). rewrite handleFinish_turn in Ht.
  unfold viewInv. rewrite Ht, Hx.
  destruct (truthy (trim (currentTurnRef (turn w)))) eqn:E; [|tauto].
  simpl. split; [|split; [exact Ha|split; [exact Hb|]]].
  - apply Forall_app; split; [exact Hc|].
    repeat constructor; simpl; auto using trim_trim.
  - right. destruct Hv as [[_ Hv]|Hv]; [|exact Hv].
    rewrite Hv in E. discriminate.
Qed.

Lemma step_viewInv (w : World) (e : Event) : viewInv w -> viewInv (step w e).
Proof.
  intros H. destruct (step_shape w e) as [Ht Hx|k now Hs|m Hs|Hs|now c Hs].
  - destruct H as (Hc & Ha & Hb & Hv). unfold viewInv. rewrite Ht, Hx. auto.
  - unfold viewInv. rewrite Hs, startRecording_turn. simpl.
    repeat split; auto; lia.
  - rewrite Hs. eapply viewInv_reconcile; [apply onmessage_turn| |exact H].
    apply onmessage_transcript.
  - destruct H as (Hc & Ha & Hb & Hv). unfold viewInv. rewrite Hs. simpl.
    repeat split; auto; lia.
  - rewrite Hs. eapply viewInv_finish; [reflexivity| |exact H].
    apply handleFinish_transcript.
Qed.

Lemma run_viewInv (evs : list Event) : viewInv (run initialWorld evs).
Proof.
  assert (H : forall w, viewInv w -> viewInv (run w evs)).
  { induction evs as [|e evs IH]; intros w Hw; simpl; [exact Hw|].
    apply IH, step_viewInv, Hw. }
  apply H. unfold viewInv. simpl. repeat split; auto; lia.
Qed.

(** X1 — every committed chunk, in every reachable state and in every
    result handed off, has a text that is not empty and has no white space
    at either end. *)
Theorem committed_chunks_are_trimmed_text
    (evs : list Event) (now : Z) (confirmed : bool) :
  let w := run initialWorld evs in
  Forall wellFormedChunk (chunksRef (turn w))
  /\ match snd (handleFinish now confirmed w) with
     | Some r => Forall wellFormedChunk (r_chunks r)
     | None => True
     end.
Proof.
  intros w. pose proof (run_viewInv evs) as Hw. fold w in Hw.
  split; [apply Hw|].
  assert (Hf : viewInv (fst (handleFinish now confirmed w))).
  { eapply viewInv_finish; [reflexivity|apply handleFinish_transcript|exact Hw]. }
  rewrite handleFinish_snd. cbv zeta.
  match goal with |- context [if ?c then _ else _] => destruct c end;
    [exact I|apply Hf].
Qed.

(** X2 — in every reachable state text is in flight only while a turn is
    active, and the recorded start of the turn lies between second 0 and
    the elapsed time. *)
Theorem text_in_flight_only_in_active_turn (evs : list Event) :
  let t := turn (run initialWorld evs) in
  (isTurnActiveRef t = true \/ currentTurnRef t = [])
  /\ 0 <= turnStartTimeRef t <= elapsedTimeRef t.
Proof. intros t. destruct (run_viewInv evs) as (_ & Ha & Hb & _). auto. Qed.

(** X3 — whenever there is a committed chunk or text in flight, the live
    transcript is not empty, so "Finish & Save" is enabled: what was
    transcribed can always be saved. *)
Theorem finish_enabled_when_something_to_save (evs : list Event) :
  let w := run initialWorld evs in
  (chunksRef (turn w) = [] /\ currentTurnRef (turn w) = [])
  \/ (truthy (transcript (ui w)) = true /\ finishEnabled w = true).
Proof.
  intros w. destruct (run_viewInv evs) as (_ & _ & _ & [H|H]); [left; exact H|].
  right. fold w in H. split; [exact H|]. unfold finishEnabled.
  destruct (transcript (ui w)); [discriminate|reflexivity].
Qed.

(** ** Order of the audio sent *)

Lemma sentSince_same (l : list Session) sid se :
  l !! sid = Some se -> sentSince se l sid [].
Proof. intros H. exists se. rewrite app_nil_r. auto. Qed.

Lemma sentSince_setConn (b : Browser) sid sid' c se :
  sessions b !! sid = Some se ->
  sentSince se (sessions (setConn sid' c b)) sid [].
Proof.
  intros H. unfold setConn, set_sessions. cbn [sessions].
  destruct (decide (sid' = sid)) as [->|Hne].
  - unfold sentSince. eexists.
    split; [rewrite list_lookup_alter_eq, H; reflexivity|]. simpl.
    rewrite app_nil_r. auto.
  - apply sentSince_same. rewrite list_lookup_alter_ne by exact Hne. exact H.
Qed.

Lemma step_sentSince (w : World) (e : Event) sid se :
  wiring (browser w) -> sessions (browser w) !! sid = Some se ->
  exists ext, sentSince se (sessions (browser (step w e))) sid ext
              /\ (ext = []
                  \/ exists frame, capturedFrame (sess_stream se) e = Some frame
                                   /\ ext = [frame]).
Proof.
  intros W Hs.
  assert (Hsame : sessions (browser (step w e)) = sessions (browser w) ->
                  exists ext, sentSince se (sessions (browser (step w e))) sid ext
                              /\ (ext = []
                                  \/ exists frame,
                                       capturedFrame (sess_stream se) e = Some frame
                                       /\ ext = [frame])).
  { intros ->. exists []. split; [apply sentSince_same, Hs|auto]. }
  destruct e as [k now|now c| | |r|r msg|sid'|sid' m|sid'|sid' msg|t|s f];
    try (apply Hsame; apply exit_paths_keep_sessions; exact I).
  - apply Hsame. simpl. destruct (mounted w); [|reflexivity].
    unfold toggleRecording. destruct (isRecording (ui w));
      [apply stopEverything_sessions|].
    unfold startRecording. destruct k; [reflexivity|].
    rewrite stopEverything_sessions. reflexivity.
  - simpl. destruct (requests (browser w) !! r) as [q|];
      [|exists []; split; [apply sentSince_same, Hs|auto]].
    destruct (req_settled q); exists [];
      (split; [apply sentSince_same|auto]); [exact Hs|].
    simpl. apply lookup_app_l_Some, Hs.
  - apply Hsame. simpl. destruct (requests (browser w) !! r) as [q|];
      [|reflexivity].
    destruct (req_settled q); [reflexivity|].
    unfold startRecording_denied. rewrite stopEverything_sessions.
    reflexivity.
  - simpl. destruct (sessions (browser w) !! sid') as [se0|];
      [|exists []; split; [apply sentSince_same, Hs|auto]].
    destruct (conn se0); exists [];
      (split; [|auto]); try (apply sentSince_same, Hs).
    apply (sentSince_setConn (browser w) sid sid' Open se Hs).
  - apply Hsame. simpl. destruct (sessions (browser w) !! sid') as [se0|];
      [|reflexivity].
    destruct (conn se0); try reflexivity. rewrite onmessage_browser.
    reflexivity.
  - simpl. destruct (sessions (browser w) !! sid') as [se0|];
      [|exists []; split; [apply sentSince_same, Hs|auto]].
    destruct (conn se0); exists [];
      (split; [|auto]); try (apply sentSince_same, Hs).
    apply (sentSince_setConn (browser w) sid sid' Closed se Hs).
  - simpl. destruct (sessions (browser w) !! sid') as [se0|];
      [|exists []; split; [apply sentSince_same, Hs|auto]].
    destruct (conn se0); exists [];
      (split; [|auto]); try (apply sentSince_same, Hs);
      unfold onerror; rewrite stopEverything_sessions;
      apply (sentSince_setConn (browser w) sid sid' Errored se Hs).
  - apply Hsame. simpl. destruct (timers (browser w) !! t) as [[|]|];
      reflexivity.
  - simpl. destruct (wiredProcessor (browser w) s) as [p|] eqn:Hw;
      [|exists []; split; [apply sentSince_same, Hs|auto]].
    unfold onaudioprocess.
    destruct (processors (browser w) !! p) as [pr|] eqn:Hp;
      [|exists []; split; [apply sentSince_same, Hs|auto]].
    simpl. destruct (decide (proc_session pr = sid)) as [Heq|Hne].
    + pose proof (wired_stream _ _ _ _ W Hw Hp) as Hst.
      rewrite Heq, list_lookup_fmap, Hs in Hst. simpl in Hst.
      injection Hst as Hst. exists [f]. split.
      * eexists. rewrite Heq.
        split; [rewrite list_lookup_alter_eq, Hs; reflexivity|]. auto.
      * right. exists f. rewrite Hst, Nat.eqb_refl. auto.
    + exists []. split; [|auto]. apply sentSince_same.
      rewrite list_lookup_alter_ne by exact Hne. exact Hs.
Qed.

Lemma run_sentSince (w : World) (evs : list Event) sid se :
  wiring (browser w) -> sessions (browser w) !! sid = Some se ->
  exists ext, sentSince se (sessions (browser (run w evs))) sid ext
              /\ ext `sublist_of` capturedFrames (sess_stream se) evs.
Proof.
  revert w se. induction evs as [|e evs IH]; intros w se W Hs; simpl.
  - exists []. split; [apply sentSince_same, Hs|constructor].
  - destruct (step_sentSince w e sid se W Hs) as (e1 & (se1 & H1 & Hst & Hx) & He).
    destruct (IH (step w e) se1 (step_wiring w e W) H1)
      as (e2 & (se2 & H2 & Hst2 & Hx2) & Hsub).
    exists (e1 ++ e2). split.
    + exists se2. rewrite Hx2, Hx, app_assoc. repeat split; [exact H2|congruence].
    + rewrite Hst in Hsub. unfold capturedFrames in *. simpl.
      destruct He as [->|(frame & Hc & ->)]; simpl.
      * destruct (capturedFrame (sess_stream se) e);
          [apply sublist_cons|]; exact Hsub.
      * rewrite Hc. apply sublist_skip. exact Hsub.
Qed.

(** X4 — audio is sent in capture order: what a session sends after any
    reachable moment is, in order and without repetition, a selection of
    the buffers its stream captures after that moment. *)
Theorem audio_sent_in_capture_order
    (pre post : list Event) (sid : nat) (se : Session) :
  sessions (browser (run initialWorld pre)) !! sid = Some se ->
  exists se' ext,
    sessions (browser (run initialWorld (pre ++ post))) !! sid = Some se'
    /\ sent se' = sent se ++ ext
    /\ ext `sublist_of` capturedFrames (sess_stream se) post.
Proof.
  intros Hs. rewrite run_app.
  destruct (run_sentSince (run initialWorld pre) post sid se)
    as (ext & (se' & H1 & _ & Hx) & Hsub); [|exact Hs|eauto].
  apply run_wiring, wiring_initial.
Qed.

Lemma audio_sent_in_capture_order_witness :
  let pre := [ToggleClick true 0; MicGranted 0; AudioFrame 0 1; SessionOpen 0;
              AudioFrame 0 2] in
  let post := [AudioFrame 0 3; TimerTick 0; AudioFrame 0 4;
               ToggleClick true 5; AudioFrame 0 5] in
  sessions (browser (run initialWorld pre)) !! 0%nat
  = Some (mkSession Open 0 0 [2%nat])
  /\ capturedFrames 0 post = [3%nat; 4%nat; 5%nat]
  /\ (sent <$> sessions (browser (run initialWorld (pre ++ post))) !! 0%nat)
     = Some [2%nat; 3%nat; 4%nat]
  /\ exists se' ext,
       sessions (browser (run initialWorld (pre ++ post))) !! 0%nat = Some se'
       /\ sent se' = [2%nat] ++ ext
       /\ ext `sublist_of` [3%nat; 4%nat; 5%nat].
Proof.
  intros pre post.
  assert (Hs : sessions (browser (run initialWorld pre)) !! 0%nat
               = Some (mkSession Open 0 0 [2%nat])) by (vm_compute; reflexivity).
  split; [exact Hs|]. split; [reflexivity|]. split; [vm_compute; reflexivity|].
  exact (audio_sent_in_capture_order pre post 0 _ Hs).
Defined.

(** ** Starting without a key, without a microphone; stopping the clock *)

Lemma stopEverything_lengths (w : World) :
  length (contexts (browser (stopEverything w))) = length (contexts (browser w))
  /\ length (streams (browser (stopEverything w)))
     = length (streams (browser w)).
Proof.
  rewrite stopEverything_contexts, stopEverything_streams.
  destruct (audioContextRef (media w)), (streamRef (media w));
    rewrite ?length_insert, ?length_alter; auto.
Qed.

(** X5 — a start without an API key shows "API Key not found" and opens
    nothing: no audio context, no microphone request, no stream, no
    session, and recording stays off.  The reset that precedes the check
    has already emptied the chunks, the in-flight text and the live
    transcript of the recording before. *)
Theorem start_without_api_key_opens_nothing (w : World) (now : Z) :
  mounted w = true ->
  isRecording (ui w) = false ->
  let w' := step w (ToggleClick false now) in
  error (ui w') = Some (js "API Key not found")
  /\ isRecording (ui w') = false
  /\ media w' = noMedia
  /\ length (contexts (browser w')) = length (contexts (browser w))
  /\ length (streams (browser w')) = length (streams (browser w))
  /\ requests (browser w') = requests (browser w)
  /\ sessions (browser w') = sessions (browser w)
  /\ turn w' = mkTurn [] [] 0 false 0
  /\ transcript (ui w') = [].
Proof.
  intros Hm Hr w'.
  assert (Hw : w' = stopEverything
                      (setError (Some (js "API Key not found"))
                         (withTurn resetTurn
                            (setStartTime (Some now)
                               (setElapsedTime (fun _ => 0)
                                  (setTranscript [] (setError None w))))))).
  { subst w'. simpl. rewrite Hm. unfold toggleRecording. rewrite Hr.
    reflexivity. }
  rewrite Hw.
  rewrite stopEverything_ui, stopEverything_media, stopEverything_requests,
    stopEverything_sessions, stopEverything_turn.
  match goal with
  | |- context [stopEverything ?x] =>
      destruct (stopEverything_lengths x) as [Hc Hs]
  end.
  rewrite Hc, Hs. repeat split.
Qed.

Lemma start_without_api_key_opens_nothing_witness :
  let w := step streaming (ToggleClick true 2) in
  let w' := step w (ToggleClick false 3) in
  mounted w = true /\ isRecording (ui w) = false
  /\ chunksRef (turn w) = [] /\ currentTurnRef (turn w) = js "Hello"
  /\ error (ui w') = Some (js "API Key not found")
  /\ requests (browser w') = requests (browser w)
  /\ turn w' = mkTurn [] [] 0 false 0.
Proof.
  intros w w'.
  destruct (start_without_api_key_opens_nothing w 3 eq_refl eq_refl)
    as (He & _ & _ & _ & _ & Hq & _ & Ht & _).
  do 4 (split; [reflexivity|]). split; [exact He|]. split; [exact Hq|exact Ht].
Defined.

(** X6 — when the microphone is refused, the message of the rejection (or
    "Could not start recording" when it has none) is shown, every ref is
    emptied, no stream and no session are created, and the request is
    settled: it cannot be answered twice.  The audio context that is closed
    is the one [audioContextRef] holds: the context opened for the refused
    request when no other start came after it.  After another start the ref
    holds the context of that start, which is closed instead, and the
    context of the refused request, like every other, is left as it was. *)
Theorem microphone_denied_closes_held_context
    (w : World) (r : nat) (q : MediaRequest) (message : jsstring) :
  requests (browser w) !! r = Some q ->
  req_settled q = false ->
  let w' := step w (MicDenied r message) in
  error (ui w')
  = Some (if truthy message then message else js "Could not start recording")
  /\ media w' = noMedia
  /\ isRecording (ui w') = false
  /\ length (streams (browser w')) = length (streams (browser w))
  /\ sessions (browser w') = sessions (browser w)
  /\ step w' (MicGranted r) = w'
  /\ step w' (MicDenied r message) = w'
  /\ (forall c, audioContextRef (media w) = Some c ->
                contextRunning (browser w') c = false)
  /\ (forall c, audioContextRef (media w) <> Some c ->
                contextRunning (browser w') c = contextRunning (browser w) c).
Proof.
  intros Hq Hs w'.
  set (w1 := setError
               (Some (if truthy message then message
                      else js "Could not start recording"))
               (withBrowser (settle r) w)).
  assert (Hw : w' = stopEverything w1).
  { subst w' w1. simpl. rewrite Hq, Hs. reflexivity. }
  assert (Hreq : requests (browser w') !! r = Some (mkRequest (req_context q) true)).
  { rewrite Hw, stopEverything_requests. subst w1. simpl.
    rewrite list_lookup_alter_eq, Hq. reflexivity. }
  split; [rewrite Hw, stopEverything_ui; reflexivity|].
  split; [rewrite Hw; apply stopEverything_media|].
  split; [rewrite Hw, stopEverything_ui; reflexivity|].
  split; [rewrite Hw; apply (stopEverything_lengths w1)|].
  split; [rewrite Hw, stopEverything_sessions; reflexivity|].
  split; [simpl; rewrite Hreq; reflexivity|].
  split; [simpl; rewrite Hreq; reflexivity|].
  split.
  - intros c Hc. rewrite Hw.
    destruct (stopEverything_released w1) as (Hrel & _). apply Hrel. exact Hc.
  - intros c Hc. rewrite Hw. unfold contextRunning.
    rewrite stopEverything_contexts.
    change (audioContextRef (media w1)) with (audioContextRef (media w)).
    change (contexts (browser w1)) with (contexts (browser w)).
    destruct (audioContextRef (media w)) as [c'|]; [|reflexivity].
    rewrite list_lookup_insert_ne by congruence. reflexivity.
Qed.

Lemma microphone_denied_closes_held_context_witness :
  let w := step initialWorld (ToggleClick true 0) in
  let w' := step w (MicDenied 0 []) in
  let again := step w (ToggleClick true 1) in
  let again' := step again (MicDenied 0 []) in
  (requests (browser w) !! 0%nat = Some (mkRequest 0 false)
   /\ contextRunning (browser w) 0 = true
   /\ error (ui w') = Some (js "Could not start recording")
   /\ contextRunning (browser w') 0 = false
   /\ audioHandleCount (browser w') = 0%nat
   /\ step w' (MicGranted 0) = w')
  /\ (requests (browser again) !! 0%nat = Some (mkRequest 0 false)
      /\ audioContextRef (media again) = Some 1%nat
      /\ contextRunning (browser again') 1 = false
      /\ contextRunning (browser again') 0 = true
      /\ media again' = noMedia).
Proof.
  intros w w' again again'. split.
  - destruct (microphone_denied_closes_held_context w 0 (mkRequest 0 false) []
                eq_refl eq_refl)
      as (He & _ & _ & _ & _ & Hg & _ & Hc & _).
    split; [reflexivity|]. split; [reflexivity|]. split; [exact He|].
    split; [exact (Hc 0%nat eq_refl)|]. split; [reflexivity|exact Hg].
  - destruct (microphone_denied_closes_held_context again 0
                (mkRequest 0 false) [] eq_refl eq_refl)
      as (_ & Hm & _ & _ & _ & _ & _ & Hc & Ho).
    split; [reflexivity|]. split; [reflexivity|].
    split; [exact (Hc 1%nat eq_refl)|].
    split; [|exact Hm].
    transitivity (contextRunning (browser again) 0);
      [apply (Ho 0%nat); discriminate|reflexivity].
Defined.

(** X7 — once [stopEverything] has run on a recorder whose only scheduled
    interval is the one [timerRef] holds, no timer tick changes anything:
    the elapsed time stands still. *)
Theorem stopped_clock_stands_still (w : World) (t : nat) :
  ownsTimers w ->
  step (stopEverything w) (TimerTick t) = stopEverything w.
Proof.
  intros Ho. unfold step. rewrite stopEverything_timers.
  destruct (timerRef (media w)) as [t0|] eqn:Et.
  - destruct (<[t0:=false]> (timers (browser w)) !! t) as [[|]|] eqn:E;
      try reflexivity.
    apply list_lookup_insert_Some in E.
    destruct E as [(_ & E & _)|(Hne & E)]; [discriminate|].
    apply Ho in E. congruence.
  - destruct (timers (browser w) !! t) as [[|]|] eqn:E; try reflexivity.
    apply Ho in E. congruence.
Qed.

Lemma stopped_clock_stands_still_witness :
  ownsTimers streaming
  /\ elapsedTime (ui (step streaming (TimerTick 0))) = 2
  /\ step (stopEverything streaming) (TimerTick 0) = stopEverything streaming.
Proof.
  assert (Ho : ownsTimers streaming).
  { intros [|t] H; [reflexivity|discriminate]. }
  split; [exact Ho|]. split; [reflexivity|].
  exact (stopped_clock_stands_still streaming 0 Ho).
Defined.

(** ** [formatTime] *)

Lemma js_inj (a b : string) : js a = js b -> a = b.
Proof.
  unfold js. intros H.
  rewrite <- (string_of_list_ascii_of_string a),
    <- (string_of_list_ascii_of_string b).
  f_equal. revert H.
  generalize (list_ascii_of_string a), (list_ascii_of_string b).
  induction l as [|x l IH]; intros [|y k]; simpl; intros H;
    try discriminate; [reflexivity|].
  injection H as Hx Hl. f_equal; [|apply IH, Hl].
  rewrite <- (ascii_N_embedding x), <- (ascii_N_embedding y), Hx. reflexivity.
Qed.

Lemma toString_inj (a b : Z) : toString a = toString b -> a = b.
Proof.
  unfold toString. intros H. apply js_inj in H.
  assert (Hn : forall z, Z.to_int z <> Decimal.Pos Decimal.Nil
                         /\ Z.to_int z <> Decimal.Neg Decimal.Nil).
  { intros [|p|p]; simpl; split; try discriminate;
      intros [= E]; exact (DecimalPos.Unsigned.to_uint_nonnil p E). }
  apply DecimalZ.to_int_inj.
  assert (Some (Z.to_int a) = Some (Z.to_int b)) as [= E]; [|exact E].
  destruct (Hn a) as [Ha1 Ha2], (Hn b) as [Hb1 Hb2].
  rewrite <- (NilZero.isi _ Ha1 Ha2), <- (NilZero.isi _ Hb1 Hb2), H.
  reflexivity.
Qed.

Lemma two_digits (secs : Z) :
  0 <= secs < 60 ->
  padStart 2 48%N (toString secs)
  = [Z.to_N (48 + secs / 10); Z.to_N (48 + secs mod 10)].
Proof.
  intros H.
  assert (Hall : forallb
                   (fun n => bool_decide
                               (padStart 2 48%N (toString (Z.of_nat n))
                                = [Z.to_N (48 + Z.of_nat n / 10);
                                   Z.to_N (48 + Z.of_nat n mod 10)]))
                   (seq 0 60) = true) by (vm_compute; reflexivity).
  rewrite forallb_forall in Hall.
  assert (Hin : In (Z.to_nat secs) (seq 0 60)) by (apply in_seq; lia).
  specialize (Hall _ Hin). rewrite Z2Nat.id in Hall by lia.
  apply bool_decide_eq_true in Hall. exact Hall.
Qed.

(** X8 — for whole seconds from 0 up to the largest safe integer,
    [formatTime] prints the minutes unpadded, a colon, and the seconds
    always as two digits. *)
Theorem formatTime_minutes_and_two_digit_seconds (seconds : Z) :
  wholeSeconds seconds ->
  formatTime seconds
  = toString (seconds / 60)
    ++ [58%N; Z.to_N (48 + (seconds mod 60) / 10);
        Z.to_N (48 + (seconds mod 60) mod 10)].
Proof.
  intros [H _]. unfold formatTime. cbv zeta.
  rewrite Z.rem_mod_nonneg by lia.
  rewrite two_digits by (apply Z.mod_pos_bound; lia). reflexivity.
Qed.

Lemma wholeSeconds_small (n : Z) : 0 <= n <= 3600 -> wholeSeconds n.
Proof. unfold wholeSeconds, MAX_SAFE_INTEGER. lia. Qed.

Lemma formatTime_minutes_and_two_digit_seconds_witness :
  wholeSeconds 125 /\ formatTime 125 = js "2:05"
  /\ formatTime 3600 = js "60:00".
Proof.
  assert (H : wholeSeconds 125) by (apply wholeSeconds_small; lia).
  split; [exact H|]. split; [|reflexivity].
  rewrite (formatTime_minutes_and_two_digit_seconds 125 H). reflexivity.
Defined.

(** X9 — [formatTime] never prints two different times alike, for whole
    seconds from 0 up to the largest safe integer. *)
Theorem formatTime_injective (a b : Z) :
  wholeSeconds a -> wholeSeconds b -> formatTime a = formatTime b -> a = b.
Proof.
  intros [Ha _] [Hb _] H. unfold formatTime in H. cbv zeta in H.
  rewrite !Z.rem_mod_nonneg in H by lia.
  rewrite !two_digits in H by (apply Z.mod_pos_bound; lia).
  apply app_inj_2 in H as [Hm Hs]; [|reflexivity].
  apply toString_inj in Hm. injection Hs as H1 H2.
  pose proof (Z.mod_pos_bound a 60 ltac:(lia)).
  pose proof (Z.mod_pos_bound b 60 ltac:(lia)).
  assert (a mod 60 = b mod 60).
  { apply Z2N.inj in H1, H2;
      try (apply Z.add_nonneg_nonneg; [lia|]);
      try (apply Z.div_pos; lia); try (apply Z.mod_pos_bound; lia).
    rewrite (Z.div_mod (a mod 60) 10), (Z.div_mod (b mod 60) 10) by lia.
    lia. }
  rewrite (Z.div_mod a 60), (Z.div_mod b 60) by lia. lia.
Qed.

Lemma formatTime_injective_witness :
  (wholeSeconds 60 /\ formatTime (59 + 1) = formatTime 60 /\ 59 + 1 = 60)
  /\ formatTime 59 <> formatTime 60.
Proof.
  assert (H59 : wholeSeconds 59) by (apply wholeSeconds_small; lia).
  assert (H60 : wholeSeconds 60) by (apply wholeSeconds_small; lia).
  split.
  - split; [exact H60|]. split; [reflexivity|].
    exact (formatTime_injective (59 + 1) 60 H60 H60 eq_refl).
  - intros H. pose proof (formatTime_injective 59 60 H59 H60 H). lia.
Defined.

(** * The PCM encoder *)

(** ** Samples *)

Lemma clamp_bounds (q : Q) : (-1 <= Qmax (-1) (Qmin 1 q) <= 1)%Q.
Proof.
  split; [apply Q.le_max_l|].
  apply Q.max_lub; [discriminate|apply Q.le_min_l].
Qed.

Lemma Qle_bool_false (a b : Q) : Qle_bool a b = false -> (b < a)%Q.
Proof.
  intros H. apply Qnot_le_lt. intros Hle. apply Qle_bool_iff in Hle.
  congruence.
Qed.

Lemma truncate_le (a b : Q) : (a <= b)%Q -> truncate a <= truncate b.
Proof.
  intros H. unfold truncate.
  destruct (Qle_bool 0 a) eqn:Ea, (Qle_bool 0 b) eqn:Eb.
  - apply Qfloor_resp_le, H.
  - apply Qle_bool_iff in Ea. apply Qle_bool_false in Eb.
    exfalso. apply (Qlt_irrefl 0).
    eapply Qle_lt_trans; [exact Ea|]. eapply Qle_lt_trans; eassumption.
  - apply Qle_bool_false in Ea. apply Qle_bool_iff in Eb.
    transitivity 0.
    + change 0 with (Qceiling (inject_Z 0)). rewrite <- (Qceiling_Z 0).
      apply Qceiling_resp_le, Qlt_le_weak, Ea.
    + rewrite <- (Qfloor_Z 0). apply Qfloor_resp_le, Eb.
  - apply Qceiling_resp_le, H.
Qed.

Lemma truncate_Z (z : Z) : truncate (inject_Z z) = z.
Proof.
  unfold truncate. destruct (Qle_bool 0 (inject_Z z));
    [apply Qfloor_Z|apply Qceiling_Z].
Qed.

(** The scaled sample, on rationals. *)
Lemma scaled_bounds (q : Q) :
  (-1 <= q <= 1)%Q ->
  match scaleSample (F_num q) with
  | F_num v => (inject_Z (-32768) <= v <= inject_Z 32767)%Q
  | _ => False
  end.
Proof.
  intros [Hl Hu]. simpl. destruct (Qle_bool 0 q) eqn:E.
  - apply Qle_bool_iff in E. unfold inject_Z. split.
    + apply Qle_trans with 0%Q; [discriminate|].
      apply Qmult_le_0_compat; [exact E|discriminate].
    + apply Qle_trans with (1 * (32767 # 1))%Q; [|discriminate].
      apply Qmult_le_compat_r; [exact Hu|discriminate].
  - apply Qle_bool_false in E. unfold inject_Z. split.
    + apply Qle_trans with (-1 * (32768 # 1))%Q; [discriminate|].
      apply Qmult_le_compat_r; [exact Hl|discriminate].
    + apply Qle_trans with (0 * (32768 # 1))%Q; [|discriminate].
      apply Qmult_le_compat_r; [apply Qlt_le_weak, E|discriminate].
Qed.

Lemma wrap16_small (z : Z) : -32768 <= z <= 32767 -> wrap16 z = z.
Proof. intros H. unfold wrap16. rewrite Z.mod_small by lia. lia. Qed.

Lemma truncate_bounds (v : Q) :
  (inject_Z (-32768) <= v <= inject_Z 32767)%Q ->
  -32768 <= truncate v <= 32767.
Proof.
  intros [Hl Hu]. split.
  - rewrite <- (truncate_Z (-32768)). apply truncate_le, Hl.
  - rewrite <- (truncate_Z 32767). apply truncate_le, Hu.
Qed.

Lemma scaled_in_range (x : float32) :
  match scaleSample (maxNeg1 (min1 x)) with
  | F_num v => (inject_Z (-32768) <= v <= inject_Z 32767)%Q
  | F_nan => True
  | F_inf _ => False
  end.
Proof.
  assert (H : match maxNeg1 (min1 x) with
              | F_num q => (-1 <= q <= 1)%Q
              | F_nan => True
              | F_inf _ => False
              end).
  { destruct x as [|[|]|q]; simpl; try exact I;
      try (split; discriminate). apply clamp_bounds. }
  destruct (maxNeg1 (min1 x)) as [|b|q]; [exact I|destruct H|].
  pose proof (scaled_bounds q H) as Hs.
  destruct (scaleSample (F_num q)) as [| |v]; [exact I|destruct Hs|exact Hs].
Qed.

Lemma pcmSample_range (x : float32) : -32768 <= pcmSample x <= 32767.
Proof.
  unfold pcmSample. pose proof (scaled_in_range x) as H.
  destruct (scaleSample (maxNeg1 (min1 x))) as [|b|v]; simpl; try lia.
  apply truncate_bounds in H. rewrite wrap16_small by exact H. exact H.
Qed.

(** X10 — a sample is always stored as a 16-bit value that did not wrap
    around: whatever the input (not-a-number and the infinities included),
    the stored value is the clamped and scaled sample rounded toward zero
    and lies between -32768 and 32767. *)
Theorem pcmSample_never_wraps (x : float32) :
  -32768 <= pcmSample x <= 32767
  /\ pcmSample x
     = match scaleSample (maxNeg1 (min1 x)) with
       | F_num v => truncate v
       | _ => 0
       end.
Proof.
  unfold pcmSample. pose proof (scaled_in_range x) as H.
  destruct (scaleSample (maxNeg1 (min1 x))) as [|b|v]; simpl;
    [split; [lia|reflexivity]|destruct H|].
  apply truncate_bounds in H. rewrite wrap16_small by exact H. auto.
Qed.

(** The extremes. *)
Lemma pcmSample_extremes :
  pcmSample (F_num 1) = 32767 /\ pcmSample (F_num (-1)) = -32768
  /\ pcmSample (F_num 0) = 0 /\ pcmSample (F_num (5 # 2)) = 32767
  /\ pcmSample (F_inf false) = 32767 /\ pcmSample (F_inf true) = -32768
  /\ pcmSample F_nan = 0 /\ pcmSample (F_num (1 # 2)) = 16383
  /\ pcmSample (F_num (-1 # 2)) = -16384.
Proof. vm_compute. repeat split. Qed.

Lemma scale_le (a b : Q) :
  (a <= b)%Q ->
  match scaleSample (F_num a), scaleSample (F_num b) with
  | F_num u, F_num v => (u <= v)%Q
  | _, _ => False
  end.
Proof.
  intros H. simpl.
  destruct (Qle_bool 0 a) eqn:Ea, (Qle_bool 0 b) eqn:Eb.
  - apply Qmult_le_compat_r; [exact H|discriminate].
  - apply Qle_bool_iff in Ea. apply Qle_bool_false in Eb.
    exfalso. apply (Qlt_irrefl 0).
    eapply Qle_lt_trans; [exact Ea|]. eapply Qle_lt_trans; eassumption.
  - apply Qle_bool_false in Ea. apply Qle_bool_iff in Eb.
    apply Qle_trans with 0%Q.
    + apply Qle_trans with (0 * inject_Z 32768)%Q; [|discriminate].
      apply Qmult_le_compat_r; [apply Qlt_le_weak, Ea|discriminate].
    + apply Qmult_le_0_compat; [exact Eb|discriminate].
  - apply Qmult_le_compat_r; [exact H|discriminate].
Qed.

(** X11 — the conversion keeps the order of the samples: a sample that is
    not smaller is not stored as a smaller value. *)
Theorem pcmSample_monotone (a b : Q) :
  (a <= b)%Q -> pcmSample (F_num a) <= pcmSample (F_num b).
Proof.
  intros H. unfold pcmSample.
  pose proof (scaled_in_range (F_num a)) as Ra.
  pose proof (scaled_in_range (F_num b)) as Rb.
  cbn [min1 maxNeg1] in *.
  assert (Hc : (Qmax (-1) (Qmin 1 a) <= Qmax (-1) (Qmin 1 b))%Q).
  { apply Q.max_le_compat_l, Q.min_le_compat_l, H. }
  pose proof (scale_le _ _ Hc) as Hs.
  destruct (scaleSample (F_num (Qmax (-1) (Qmin 1 a)))) as [| |u];
    [destruct Hs|destruct Hs|].
  destruct (scaleSample (F_num (Qmax (-1) (Qmin 1 b)))) as [| |v];
    [destruct Hs|destruct Hs|].
  simpl. apply truncate_bounds in Ra, Rb.
  rewrite !wrap16_small by assumption. apply truncate_le, Hs.
Qed.

Lemma pcmSample_monotone_witness :
  (1 # 4 <= 1 # 2)%Q /\ pcmSample (F_num (1 # 4)) = 8191
  /\ pcmSample (F_num (1 # 4)) <= pcmSample (F_num (1 # 2)).
Proof.
  assert (H : (1 # 4 <= 1 # 2)%Q) by discriminate.
  split; [exact H|]. split; [reflexivity|].
  exact (pcmSample_monotone _ _ H).
Defined.

(** ** Bytes and base64 *)

Lemma base64Char_facts (i : Z) :
  0 <= i < 64 ->
  base64Index (base64Char i) = i
  /\ (base64Char i =? 61)%N = false
  /\ isBase64Char (base64Char i) = true.
Proof.
  intros H.
  assert (Hall : forallb
                   (fun n => let c := base64Char (Z.of_nat n) in
                             (base64Index c =? Z.of_nat n)
                             && negb (c =? 61)%N && isBase64Char c)
                   (seq 0 64) = true) by (vm_compute; reflexivity).
  rewrite forallb_forall in Hall.
  assert (Hin : In (Z.to_nat i) (seq 0 64)) by (apply in_seq; lia).
  specialize (Hall _ Hin). rewrite Z2Nat.id in Hall by lia. cbv zeta in Hall.
  apply andb_prop in Hall as [Hall H3]. apply andb_prop in Hall as [H1 H2].
  apply Z.eqb_eq in H1. apply negb_true_iff in H2. auto.
Qed.

Ltac sextet := unfold isByte in *; Z.div_mod_to_equations; lia.

Lemma unbase64_base64 (bytes : list Z) :
  Forall isByte bytes -> unbase64 (base64 bytes) = bytes.
Proof.
  assert (H : forall n bytes, (length bytes <= n)%nat -> Forall isByte bytes ->
                              unbase64 (base64 bytes) = bytes).
  { clear bytes. induction n as [|n IH]; intros bytes Hn Hb.
    - destruct bytes; [reflexivity|simpl in Hn; lia].
    - destruct bytes as [|a [|b [|c rest]]]; [reflexivity| | |].
      + apply Forall_cons_1 in Hb as [Ha _]. simpl.
        destruct (base64Char_facts (a / 4)) as (E1 & _); [sextet|].
        destruct (base64Char_facts (a mod 4 * 16)) as (E2 & _); [sextet|].
        rewrite E1, E2. f_equal. sextet.
      + apply Forall_cons_1 in Hb as [Ha Hb].
        apply Forall_cons_1 in Hb as [Hb _]. simpl.
        destruct (base64Char_facts (a / 4)) as (E1 & _); [sextet|].
        destruct (base64Char_facts (a mod 4 * 16 + b / 16)) as (E2 & _);
          [sextet|].
        destruct (base64Char_facts (b mod 16 * 4)) as (E3 & N3 & _); [sextet|].
        rewrite E1, E2, E3, N3. f_equal; [sextet|f_equal; sextet].
      + apply Forall_cons_1 in Hb as [Ha Hb].
        apply Forall_cons_1 in Hb as [Hb Hr].
        apply Forall_cons_1 in Hr as [Hc Hr].
        cbn [base64 unbase64].
        destruct (base64Char_facts (a / 4)) as (E1 & _); [sextet|].
        destruct (base64Char_facts (a mod 4 * 16 + b / 16)) as (E2 & _);
          [sextet|].
        destruct (base64Char_facts (b mod 16 * 4 + c / 64)) as (E3 & N3 & _);
          [sextet|].
        destruct (base64Char_facts (c mod 64)) as (E4 & N4 & _); [sextet|].
        cbv zeta. rewrite E1, E2, E3, E4, N3, N4.
        rewrite IH by (simpl in Hn; auto; lia).
        f_equal; [sextet|f_equal; [sextet|f_equal; sextet]]. }
  apply (H (length bytes)). lia.
Qed.

Lemma base64_shape (bytes : list Z) :
  Forall isByte bytes ->
  length (base64 bytes) = (4 * ((length bytes + 2) / 3))%nat
  /\ forallb isBase64Char (base64 bytes) = true.
Proof.
  assert (H : forall n bytes, (length bytes <= n)%nat -> Forall isByte bytes ->
                              length (base64 bytes)
                              = (4 * ((length bytes + 2) / 3))%nat
                              /\ forallb isBase64Char (base64 bytes) = true).
  { clear bytes. induction n as [|n IH]; intros bytes Hn Hb.
    - destruct bytes; [split; reflexivity|simpl in Hn; lia].
    - destruct bytes as [|a [|b [|c rest]]]; [split; reflexivity| | |].
      + apply Forall_cons_1 in Hb as [Ha _]. split; [reflexivity|]. simpl.
        destruct (base64Char_facts (a / 4)) as (_ & _ & C1); [sextet|].
        destruct (base64Char_facts (a mod 4 * 16)) as (_ & _ & C2); [sextet|].
        rewrite C1, C2. reflexivity.
      + apply Forall_cons_1 in Hb as [Ha Hb].
        apply Forall_cons_1 in Hb as [Hb _]. split; [reflexivity|]. simpl.
        destruct (base64Char_facts (a / 4)) as (_ & _ & C1); [sextet|].
        destruct (base64Char_facts (a mod 4 * 16 + b / 16)) as (_ & _ & C2);
          [sextet|].
        destruct (base64Char_facts (b mod 16 * 4)) as (_ & _ & C3); [sextet|].
        rewrite C1, C2, C3. reflexivity.
      + apply Forall_cons_1 in Hb as [Ha Hb].
        apply Forall_cons_1 in Hb as [Hb Hr].
        apply Forall_cons_1 in Hr as [Hc Hr].
        destruct (IH rest) as [Hl Hf]; [simpl in Hn; lia|exact Hr|].
        cbn [base64 length forallb]. rewrite Hl, Hf.
        destruct (base64Char_facts (a / 4)) as (_ & _ & C1); [sextet|].
        destruct (base64Char_facts (a mod 4 * 16 + b / 16)) as (_ & _ & C2);
          [sextet|].
        destruct (base64Char_facts (b mod 16 * 4 + c / 64)) as (_ & _ & C3);
          [sextet|].
        destruct (base64Char_facts (c mod 64)) as (_ & _ & C4); [sextet|].
        rewrite C1, C2, C3, C4. split; [|reflexivity].
        replace (S (S (S (length rest))) + 2)%nat
          with (1 * 3 + (length rest + 2))%nat by lia.
        rewrite Nat.div_add_l by lia. lia. }
  apply (H (length bytes)). lia.
Qed.

Lemma fold_snoc {A B} (f : A -> B) (l : list A) (init : list B) :
  fold_left (fun acc b => acc ++ [f b]) l init = init ++ map f l.
Proof.
  revert init. induction l as [|x l IH]; intros init; simpl.
  - rewrite app_nil_r. reflexivity.
  - rewrite IH, <- app_assoc. reflexivity.
Qed.

Lemma encode_bytes (bytes : list Z) :
  Forall isByte bytes -> encode bytes = Some (base64 bytes).
Proof.
  intros H. unfold encode, btoa. rewrite fold_snoc. simpl.
  assert (Hok : forallb (fun c => (c <=? 255)%N) (map Z.to_N bytes) = true).
  { induction H as [|b bs Hb _ IH]; [reflexivity|]. simpl. rewrite IH.
    rewrite andb_true_r. apply N.leb_le. unfold isByte in Hb. lia. }
  rewrite Hok. f_equal. f_equal. clear Hok.
  induction H as [|b bs Hb _ IH]; [reflexivity|]. simpl.
  rewrite IH, Z2N.id by (unfold isByte in Hb; lia). reflexivity.
Qed.

(** X12 — on the elements of a [Uint8Array], [encode] never throws: it
    returns four characters of the base64 alphabet for every three bytes
    begun. *)
Theorem encode_yields_base64 (bytes : list Z) :
  Forall isByte bytes ->
  exists s, encode bytes = Some s
            /\ length s = (4 * ((length bytes + 2) / 3))%nat
            /\ forallb isBase64Char s = true.
Proof.
  intros H. exists (base64 bytes). split; [apply encode_bytes, H|].
  apply base64_shape, H.
Qed.

Lemma encode_yields_base64_witness :
  Forall isByte [77; 97; 110; 255]
  /\ encode [77; 97; 110] = Some (js "TWFu")
  /\ encode [77; 97] = Some (js "TWE=")
  /\ encode [77] = Some (js "TQ==")
  /\ exists s, encode [77; 97; 110; 255] = Some s /\ length s = 8%nat
               /\ forallb isBase64Char s = true.
Proof.
  assert (H : Forall isByte [77; 97; 110; 255])
    by (repeat constructor; unfold isByte; lia).
  split; [exact H|]. do 3 (split; [reflexivity|]).
  exact (encode_yields_base64 _ H).
Defined.

(** X13 — [encode] loses nothing: two byte arrays with the same encoding
    are the same array. *)
Theorem encode_injective (a b : list Z) :
  Forall isByte a -> Forall isByte b -> encode a = encode b -> a = b.
Proof.
  intros Ha Hb H. rewrite !encode_bytes in H by assumption.
  injection H as H.
  rewrite <- (unbase64_base64 a Ha), <- (unbase64_base64 b Hb), H.
  reflexivity.
Qed.

Lemma encode_injective_witness :
  (Forall isByte [0; 1] /\ encode ([0] ++ [1]) = encode [0; 1]
   /\ [0] ++ [1] = [0; 1])
  /\ encode [0; 1] <> encode [0; 2].
Proof.
  assert (Ha : Forall isByte [0; 1]) by (repeat constructor; unfold isByte; lia).
  assert (Hb : Forall isByte [0; 2]) by (repeat constructor; unfold isByte; lia).
  split.
  - split; [exact Ha|]. split; [reflexivity|].
    exact (encode_injective ([0] ++ [1]) [0; 1] Ha Ha eq_refl).
  - intros H. pose proof (encode_injective _ _ Ha Hb H) as E. discriminate E.
Defined.

(** ** [createBlob] *)

Lemma bytesOfInt16Array_bytes (vs : list Z) :
  Forall isByte (bytesOfInt16Array vs)
  /\ length (bytesOfInt16Array vs) = (2 * length vs)%nat.
Proof.
  unfold bytesOfInt16Array. induction vs as [|v vs [IH1 IH2]];
    [split; [constructor|reflexivity]|].
  simpl. split; [|rewrite IH2; lia].
  constructor; [sextet|constructor; [sextet|exact IH1]].
Qed.

Lemma bytesOfInt16Array_inj (us vs : list Z) :
  Forall (fun v => -32768 <= v <= 32767) us ->
  Forall (fun v => -32768 <= v <= 32767) vs ->
  bytesOfInt16Array us = bytesOfInt16Array vs -> us = vs.
Proof.
  unfold bytesOfInt16Array. intros Hu. revert vs.
  induction Hu as [|u us Hu _ IH]; intros vs Hv H.
  - destruct vs; [reflexivity|discriminate].
  - destruct Hv as [|v vs Hv Hvs]; [discriminate|].
    simpl in H. injection H as H1 H2 H3. f_equal; [|apply IH; assumption].
    sextet.
Qed.

(** X14 — [createBlob] always produces data (the encoding never throws),
    of four base64 characters for every three bytes begun of the two bytes
    per sample, tagged [audio/pcm;rate=16000]; and the data determine every
    16-bit sample: frames with the same data have the same samples. *)
Theorem createBlob_data (data : list float32) :
  blob_mimeType (createBlob data) = js "audio/pcm;rate=16000"
  /\ exists s, blob_data (createBlob data) = Some s
               /\ length s = (4 * ((2 * length data + 2) / 3))%nat
               /\ forallb isBase64Char s = true
               /\ forall other, blob_data (createBlob other) = Some s ->
                                map pcmSample other = map pcmSample data.
Proof.
  split; [reflexivity|]. unfold createBlob. simpl.
  destruct (bytesOfInt16Array_bytes (map pcmSample data)) as [Hb Hl].
  destruct (base64_shape _ Hb) as [Hlen Hal].
  exists (base64 (bytesOfInt16Array (map pcmSample data))).
  rewrite Hl, length_map in Hlen.
  split; [apply encode_bytes, Hb|]. repeat split; try assumption.
  intros other Ho.
  destruct (bytesOfInt16Array_bytes (map pcmSample other)) as [Hb' _].
  rewrite encode_bytes in Ho by exact Hb'. injection Ho as Ho.
  apply (f_equal unbase64) in Ho. rewrite !unbase64_base64 in Ho by assumption.
  apply bytesOfInt16Array_inj in Ho; [exact Ho| |];
    apply Forall_map, Forall_forall; intros x _; apply pcmSample_range.
Qed.

Lemma createBlob_data_witness :
  blob_data (createBlob [F_num 1; F_num (-1); F_num 0]) = Some (js "/38AgAAA")
  /\ forall other,
       blob_data (createBlob other) = Some (js "/38AgAAA") ->
       map pcmSample other = [32767; -32768; 0].
Proof.
  destruct (createBlob_data [F_num 1; F_num (-1); F_num 0])
    as (_ & s & Hs & _ & _ & Hinj).
  assert (E : blob_data (createBlob [F_num 1; F_num (-1); F_num 0])
              = Some (js "/38AgAAA")) by (vm_compute; reflexivity).
  split; [exact E|]. intros other Ho.
  rewrite E in Hs. injection Hs as <-. exact (Hinj other Ho).
Defined.

(** * The lecture store *)

(** ** Sorting and finding *)

Lemma insertByDate_perm (x : LectureData) (ls : list LectureData) :
  insertByDate x ls ≡ₚ x :: ls.
Proof.
  induction ls as [|y ls IH]; simpl; [reflexivity|].
  destruct (l_date y <=? l_date x); [reflexivity|].
  rewrite IH. apply Permutation_swap.
Qed.

Lemma sortByDateDesc_perm (ls : list LectureData) : sortByDateDesc ls ≡ₚ ls.
Proof.
  induction ls as [|x ls IH]; simpl; [reflexivity|].
  rewrite insertByDate_perm, IH. reflexivity.
Qed.

Lemma insertByDate_sorted (x : LectureData) (ls : list LectureData) :
  latestFirst ls -> latestFirst (insertByDate x ls).
Proof.
  unfold latestFirst. induction 1 as [|y ls Hs IH Hy]; simpl.
  - repeat constructor.
  - destruct (l_date y <=? l_date x) eqn:E.
    + apply Z.leb_le in E. constructor; [constructor; assumption|].
      constructor; [exact E|].
      eapply Forall_impl; [exact Hy|]. simpl. intros; lia.
    + apply Z.leb_gt in E. constructor; [exact IH|].
      rewrite insertByDate_perm. constructor; [lia|exact Hy].
Qed.

Lemma sortByDateDesc_sorted (ls : list LectureData) :
  latestFirst (sortByDateDesc ls).
Proof.
  induction ls as [|x ls IH]; simpl; [constructor|].
  apply insertByDate_sorted, IH.
Qed.

Lemma sortByDateDesc_fixed (ls : list LectureData) :
  latestFirst ls -> sortByDateDesc ls = ls.
Proof.
  unfold latestFirst. induction 1 as [|y ls Hs IH Hy]; simpl; [reflexivity|].
  rewrite IH. destruct ls as [|z ls]; [reflexivity|]. simpl.
  apply Forall_cons_1 in Hy as [Hz _].
  apply Z.leb_le in Hz. rewrite Hz. reflexivity.
Qed.

Lemma uniqueIds_same_id (ls : list LectureData) (x y : LectureData) :
  uniqueIds ls -> x ∈ ls -> y ∈ ls -> l_id x = l_id y -> x = y.
Proof.
  unfold uniqueIds. induction ls as [|z ls IH]; simpl; intros Hn Hx Hy He.
  - inversion Hx.
  - apply NoDup_cons in Hn as [Hz Hn].
    apply elem_of_cons in Hx as [->|Hx], Hy as [->|Hy]; auto.
    + destruct Hz. rewrite He. apply list_elem_of_fmap. eauto.
    + destruct Hz. rewrite <- He. apply list_elem_of_fmap. eauto.
Qed.

Lemma findById_Some (id : jsstring) (ls : list LectureData) x :
  findById id ls = Some x -> x ∈ ls /\ l_id x = id.
Proof.
  unfold findById. destruct (list_find _ ls) as [[i y]|] eqn:E; [|discriminate].
  intros [= <-]. apply list_find_Some in E as (Hi & Hp & _).
  split; [eapply list_elem_of_lookup_2, Hi|exact Hp].
Qed.

Lemma findById_unique (id : jsstring) (ls : list LectureData) x :
  uniqueIds ls -> x ∈ ls -> l_id x = id -> findById id ls = Some x.
Proof.
  intros Hu Hx Hid. unfold findById.
  destruct (list_find (fun l => l_id l = id) ls) as [[i y]|] eqn:E.
  - apply list_find_Some in E as (Hi & Hp & _). simpl. f_equal.
    apply (uniqueIds_same_id ls); auto; [eapply list_elem_of_lookup_2, Hi|].
    congruence.
  - apply list_find_None in E. rewrite Forall_forall in E.
    destruct (E x Hx Hid).
Qed.

Lemma findById_None (id : jsstring) (ls : list LectureData) :
  findById id ls = None <-> id ∉ map l_id ls.
Proof.
  unfold findById. split.
  - destruct (list_find _ ls) as [[i y]|] eqn:E; [discriminate|]. intros _.
    apply list_find_None in E. rewrite Forall_forall in E.
    intros Hin. apply list_elem_of_fmap in Hin as (x & Hx & Hin).
    exact (E x Hin (eq_sym Hx)).
  - intros Hn. destruct (list_find _ ls) as [[i y]|] eqn:E; [|reflexivity].
    apply list_find_Some in E as (Hi & Hp & _). destruct Hn.
    apply list_elem_of_fmap. exists y. split; [auto|].
    eapply list_elem_of_lookup_2, Hi.
Qed.

Lemma findById_perm (id : jsstring) (ls ls' : list LectureData) :
  uniqueIds ls -> ls ≡ₚ ls' -> findById id ls' = findById id ls.
Proof.
  intros Hu Hp.
  assert (Hu' : uniqueIds ls').
  { unfold uniqueIds in *. rewrite <- Hp. exact Hu. }
  destruct (findById id ls) as [x|] eqn:E.
  - apply findById_Some in E as [Hx Hid].
    apply findById_unique; auto. rewrite <- Hp. exact Hx.
  - apply findById_None. apply findById_None in E.
    rewrite <- Hp. exact E.
Qed.

Lemma placed_ids (lecture : LectureData) (ls : list LectureData) :
  map l_id (placed lecture ls)
  = match findById (l_id lecture) ls with
    | Some _ => map l_id ls
    | None => map l_id ls ++ [l_id lecture]
    end.
Proof.
  unfold placed, findIndexById, findById.
  destruct (list_find _ ls) as [[i y]|] eqn:E; simpl.
  - apply list_find_Some in E as (Hi & Hp & _).
    change (map l_id (<[i:=lecture]> ls)) with (l_id <$> <[i:=lecture]> ls).
    rewrite list_fmap_insert. apply list_insert_id.
    rewrite list_lookup_fmap, Hi. simpl. congruence.
  - apply map_app.
Qed.

Lemma placed_unique (lecture : LectureData) (ls : list LectureData) :
  uniqueIds ls -> uniqueIds (placed lecture ls).
Proof.
  unfold uniqueIds. intros Hu. rewrite placed_ids.
  destruct (findById (l_id lecture) ls) eqn:E; [exact Hu|].
  apply findById_None in E. apply NoDup_app. repeat split.
  - exact Hu.
  - intros x Hx Hin. apply list_elem_of_singleton in Hin. subst x. auto.
  - apply NoDup_singleton.
Qed.

Lemma placed_elem (lecture : LectureData) (ls : list LectureData) x :
  uniqueIds ls ->
  x ∈ placed lecture ls
  <-> x = lecture \/ (x ∈ ls /\ l_id x <> l_id lecture).
Proof.
  intros Hu. unfold placed, findIndexById.
  destruct (list_find _ ls) as [[i y]|] eqn:E; simpl.
  - apply list_find_Some in E as (Hi & Hp & _). split.
    + intros Hx. apply list_elem_of_lookup in Hx as [j Hj].
      apply list_lookup_insert_Some in Hj as [(-> & -> & _)|(Hne & Hj)]; [auto|].
      right. split; [eapply list_elem_of_lookup_2, Hj|].
      intros Hid. apply Hne.
      unfold uniqueIds in Hu. eapply NoDup_lookup; [exact Hu| |].
      * rewrite list_lookup_fmap, Hi. reflexivity.
      * rewrite list_lookup_fmap, Hj. simpl. congruence.
    + intros [->|[Hx Hid]].
      * apply list_elem_of_lookup. exists i.
        apply list_lookup_insert_eq. eapply lookup_lt_Some, Hi.
      * apply list_elem_of_lookup in Hx as [j Hj].
        apply list_elem_of_lookup. exists j.
        rewrite list_lookup_insert_ne; [exact Hj|]. intros ->. congruence.
  - apply list_find_None in E. rewrite Forall_forall in E.
    rewrite elem_of_app, list_elem_of_singleton. split.
    + intros [Hx| ->]; [right|left]; auto.
    + intros [->|[Hx _]]; auto.
Qed.

Lemma placed_length (lecture : LectureData) (ls : list LectureData) :
  length (placed lecture ls)
  = match findById (l_id lecture) ls with
    | Some _ => length ls
    | None => S (length ls)
    end.
Proof.
  rewrite <- (length_map l_id), placed_ids.
  destruct (findById (l_id lecture) ls);
    rewrite ?length_app, length_map; simpl; lia.
Qed.

(** The list a save writes, against the list it read. *)
Lemma saved_list (lecture : LectureData) (ls : list LectureData) :
  uniqueIds ls ->
  let ls' := sortByDateDesc (placed lecture ls) in
  findById (l_id lecture) ls' = Some lecture
  /\ (forall id, id <> l_id lecture -> findById id ls' = findById id ls)
  /\ uniqueIds ls'
  /\ latestFirst ls'
  /\ length ls' = match findById (l_id lecture) ls with
                  | Some _ => length ls
                  | None => S (length ls)
                  end.
Proof.
  intros Hu ls'. pose proof (placed_unique lecture ls Hu) as Hu'.
  assert (Hperm : placed lecture ls ≡ₚ ls')
    by (symmetry; apply sortByDateDesc_perm).
  split; [|split; [|split; [|split]]].
  - rewrite (findById_perm _ (placed lecture ls)) by assumption.
    apply findById_unique; [exact Hu'| |reflexivity].
    apply placed_elem; auto.
  - intros id Hid.
    rewrite (findById_perm _ (placed lecture ls)) by assumption.
    destruct (findById id ls) as [x|] eqn:E.
    + apply findById_Some in E as [Hx Hx'].
      apply findById_unique; [exact Hu'| |exact Hx'].
      apply placed_elem; [exact Hu|]. right. split; [exact Hx|congruence].
    + apply findById_None. apply findById_None in E.
      rewrite placed_ids. destruct (findById (l_id lecture) ls); [exact E|].
      rewrite elem_of_app, list_elem_of_singleton. tauto.
  - unfold uniqueIds. rewrite <- Hperm. exact Hu'.
  - apply sortByDateDesc_sorted.
  - rewrite <- Hperm. apply placed_length.
Qed.

Section StorageFacts.

Variable fits : list LectureData -> bool.

Lemma saveLecture_parsed (lecture : LectureData) (st : Stored) ls :
  parsedStore st = Some ls ->
  saveLecture fits lecture st
  = if fits (sortByDateDesc (placed lecture ls))
    then Done (Items (sortByDateDesc (placed lecture ls)), false)
    else Done (st, true).
Proof. destruct st; simpl; intros [= <-]; reflexivity. Qed.

(** X15 — what is saved can be looked up: when the ids in the store occur
    once and the write fits, [getLectureById] afterwards returns the saved
    lecture under its id and what it returned before under every other
    id. *)
Theorem save_then_lookup (lecture : LectureData) (st : Stored) ls :
  parsedStore st = Some ls ->
  uniqueIds ls ->
  fits (sortByDateDesc (placed lecture ls)) = true ->
  exists st',
    saveLecture fits lecture st = Done (st', false)
    /\ getLectureById (l_id lecture) st' = Some lecture
    /\ forall id, id <> l_id lecture ->
                  getLectureById id st' = findById id ls.
Proof.
  intros Hp Hu Hf. eexists. rewrite (saveLecture_parsed _ _ _ Hp), Hf.
  split; [reflexivity|]. unfold getLectureById. simpl.
  destruct (saved_list lecture ls Hu) as (Hl & Ho & _). auto.
Qed.


(** X17 — a save that fails writes nothing: on a store that is no JSON
    array [saveLecture] throws, and when the quota is exceeded it alerts
    and leaves the store as it was. *)
Theorem failed_save_writes_nothing (lecture : LectureData) (st : Stored) :
  match saveLecture fits lecture st with
  | Threw => parsedStore st = None
  | Done (st', true) => st' = st
  | Done (st', false) =>
      exists ls, parsedStore st = Some ls
                 /\ st' = Items (sortByDateDesc (placed lecture ls))
  end.
Proof.
  destruct (parsedStore st) as [ls|] eqn:E.
  - rewrite (saveLecture_parsed _ _ _ E).
    destruct (fits (sortByDateDesc (placed lecture ls))); eauto.
  - destruct st; try discriminate; reflexivity.
Qed.

End StorageFacts.

Lemma save_then_lookup_witness :
  let ls := [lectureOf "b" 20; lectureOf "a" 10] in
  let lecture := lectureOf "c" 15 in
  parsedStore (Items ls) = Some ls
  /\ saveLecture alwaysFits lecture (Items ls)
     = Done (Items [lectureOf "b" 20; lecture; lectureOf "a" 10], false)
  /\ exists st',
       saveLecture alwaysFits lecture (Items ls) = Done (st', false)
       /\ getLectureById (js "c") st' = Some lecture
       /\ forall id, id <> js "c" -> getLectureById id st' = findById id ls.
Proof.
  intros ls lecture.
  assert (Hu : uniqueIds ls).
  { unfold uniqueIds. apply (bool_decide_unpack _). vm_compute. exact I. }
  split; [reflexivity|]. split; [reflexivity|].
  exact (save_then_lookup alwaysFits lecture (Items ls) ls eq_refl Hu eq_refl).
Defined.


(** ** Deleting and importing *)

Lemma findById_cons (id : jsstring) (x : LectureData) (ls : list LectureData) :
  findById id (x :: ls)
  = if decide (l_id x = id) then Some x else findById id ls.
Proof.
  unfold findById. simpl. destruct (decide (l_id x = id)); [reflexivity|].
  destruct (list_find _ ls) as [[i y]|]; reflexivity.
Qed.

Lemma findById_app (id : jsstring) (l1 l2 : list LectureData) :
  findById id (l1 ++ l2)
  = match findById id l1 with
    | Some x => Some x
    | None => findById id l2
    end.
Proof.
  induction l1 as [|x l1 IH]; [reflexivity|]. simpl.
  rewrite !findById_cons. destruct (decide (l_id x = id)); [reflexivity|].
  exact IH.
Qed.

Lemma findById_filter_other (id id' : jsstring) (ls : list LectureData) :
  id' <> id ->
  findById id' (filter (fun l => l_id l <> id) ls) = findById id' ls.
Proof.
  intros Hne. induction ls as [|x ls IH]; [reflexivity|].
  rewrite filter_cons, (findById_cons id' x ls).
  destruct (decide (l_id x <> id)) as [Hx|Hx].
  - rewrite findById_cons. destruct (decide (l_id x = id')); [reflexivity|].
    exact IH.
  - destruct (decide (l_id x = id')) as [He|_]; [|exact IH].
    destruct Hx. congruence.
Qed.

Section StorageMore.

Variable fits : list LectureData -> bool.

(** X18 — after a delete that is written, the id is gone from the store,
    every other id is looked up as before, and the lectures that remain
    keep their order; a store that could not be read is replaced by the
    empty list. *)
Theorem delete_then_lookup (id : jsstring) (st : Stored) :
  fits (filter (fun l => l_id l <> id) (getLectures st)) = true ->
  exists st',
    deleteLecture fits id st = Done st'
    /\ getLectureById id st' = None
    /\ (forall id', id' <> id ->
                    getLectureById id' st' = getLectureById id' st)
    /\ getLectures st' `sublist_of` getLectures st
    /\ (parsedStore st = None -> st' = Items []).
Proof.
  intros Hf. unfold deleteLecture. cbv zeta. rewrite Hf. eexists.
  split; [reflexivity|]. unfold getLectureById. simpl. split; [|split; [|split]].
  - apply findById_None. intros Hin.
    apply list_elem_of_fmap in Hin as (x & Hx & Hin).
    apply list_elem_of_filter in Hin as [Hne _]. congruence.
  - intros id' Hne. apply findById_filter_other, Hne.
  - apply sublist_filter.
  - destruct st; simpl; try discriminate; reflexivity.
Qed.

Lemma merge_fold (news : list LectureData) (cur : list LectureData) (n : nat) :
  exists added,
    fold_left mergeLecture news (cur, n) = (cur ++ added, (n + length added)%nat)
    /\ added `sublist_of` news
    /\ (uniqueIds cur -> uniqueIds (cur ++ added))
    /\ Forall (fun nl => l_id nl ∈ map l_id (cur ++ added)) news.
Proof.
  revert cur n. induction news as [|nl news IH]; intros cur n; simpl.
  - exists []. rewrite app_nil_r, Nat.add_0_r.
    repeat split; auto; constructor.
  - unfold mergeLecture at 2. simpl.
    destruct (findById (l_id nl) cur) as [x|] eqn:E.
    + destruct (IH cur n) as (added & Hf & Hs & Hu & Hall).
      exists added. rewrite Hf. repeat split; auto.
      * apply sublist_cons, Hs.
      * constructor; [|exact Hall].
        apply findById_Some in E as [Hx Hid]. rewrite map_app, elem_of_app.
        left. rewrite <- Hid. apply list_elem_of_fmap. eauto.
    + destruct (IH (cur ++ [nl]) (S n)) as (added & Hf & Hs & Hu & Hall).
      exists (nl :: added). rewrite Hf, <- app_assoc. simpl.
      split; [f_equal; lia|]. split; [apply sublist_skip, Hs|]. split.
      * intros Hc.
        replace (cur ++ nl :: added) with ((cur ++ [nl]) ++ added)
          by (rewrite <- app_assoc; reflexivity).
        apply Hu. unfold uniqueIds in *. rewrite map_app. simpl.
        apply findById_None in E. apply NoDup_app. repeat split; auto.
        -- intros y Hy Hin. apply list_elem_of_singleton in Hin. subst y. auto.
        -- apply NoDup_singleton.
      * rewrite <- app_assoc in Hall. simpl in Hall.
        constructor; [|exact Hall].
        rewrite map_app, elem_of_app. right. simpl. left.
Qed.

(** X19 — an import that is written only adds: the lectures of the store
    stay where they are, the imported ones whose id is new follow in file
    order, the number resolved is how many were added, an id that occurs
    once still does, and under an id that was in the store the lecture of
    the store is still found.  A file without a [data] array, or one that
    does not fit, changes nothing and rejects. *)
Theorem import_only_adds (file : ImportFile) (st : Stored) :
  match importData fits file st with
  | (st', Some count) =>
      exists news added,
        file = Data news
        /\ st' = Items (getLectures st ++ added)
        /\ count = length added
        /\ added `sublist_of` news
        /\ Forall (fun nl => l_id nl ∈ map l_id (getLectures st')) news
        /\ (uniqueIds (getLectures st) -> uniqueIds (getLectures st'))
        /\ forall id x, getLectureById id st = Some x ->
                        getLectureById id st' = Some x
  | (st', None) => st' = st
  end.
Proof.
  destruct file as [| |news]; simpl; try reflexivity.
  destruct (merge_fold news (getLectures st) 0) as (added & Hf & Hs & Hu & Hall).
  rewrite Hf. simpl. destruct (fits (getLectures st ++ added)); [|reflexivity].
  exists news, added. repeat split; auto.
  intros id x Hx. unfold getLectureById in *. simpl.
  rewrite findById_app, Hx. reflexivity.
Qed.

End StorageMore.

Lemma delete_then_lookup_witness :
  let ls := [lectureOf "b" 20; lectureOf "a" 10; lectureOf "c" 5] in
  deleteLecture alwaysFits (js "a") (Items ls)
  = Done (Items [lectureOf "b" 20; lectureOf "c" 5])
  /\ exists st',
       deleteLecture alwaysFits (js "a") (Items ls) = Done st'
       /\ getLectureById (js "a") st' = None.
Proof.
  intros ls. split; [reflexivity|].
  destruct (delete_then_lookup alwaysFits (js "a") (Items ls) eq_refl)
    as (st' & H1 & H2 & _).
  exists st'. split; [exact H1|exact H2].
Defined.

Lemma import_only_adds_example :
  importData alwaysFits
    (Data [lectureOf "a" 99; lectureOf "d" 1; lectureOf "d" 2])
    (Items [lectureOf "b" 20; lectureOf "a" 10])
  = (Items [lectureOf "b" 20; lectureOf "a" 10; lectureOf "d" 1], Some 1%nat)
  /\ importData alwaysFits NoDataArray NotJson = (NotJson, None).
Proof. split; reflexivity. Qed.

Lemma import_only_adds_witness :
  let st := Items [lectureOf "b" 20; lectureOf "a" 10] in
  let file := Data [lectureOf "a" 99; lectureOf "d" 1; lectureOf "d" 2] in
  importData alwaysFits file st
  = (Items [lectureOf "b" 20; lectureOf "a" 10; lectureOf "d" 1], Some 1%nat)
  /\ uniqueIds (getLectures (fst (importData alwaysFits file st)))
  /\ getLectureById (js "a") (fst (importData alwaysFits file st))
     = Some (lectureOf "a" 10).
Proof.
  intros st file.
  pose proof (import_only_adds alwaysFits file st) as H.
  assert (E : importData alwaysFits file st
              = (Items [lectureOf "b" 20; lectureOf "a" 10; lectureOf "d" 1],
                 Some 1%nat)) by reflexivity.
  rewrite E in H |- *.
  destruct H as (news & added & _ & _ & _ & _ & _ & Hu & Hk).
  split; [reflexivity|]. split.
  - apply Hu. unfold uniqueIds. apply (bool_decide_unpack _). vm_compute.
    exact I.
  - apply Hk. reflexivity.
Defined.

(** * The handlers of App.tsx *)

Section Handlers.

Variable fits : list LectureData -> bool.

Lemma saveAndShow_saved (lecture : LectureData) (a : App) ls :
  parsedStore (storage a) = Some ls ->
  uniqueIds ls ->
  fits (sortByDateDesc (placed lecture ls)) = true ->
  exists a',
    saveAndShow fits lecture a = Returned a'
    /\ lectures a' = getLectures (storage a')
    /\ findById (l_id lecture) (lectures a') = Some lecture
    /\ (forall id, id <> l_id lecture ->
                   findById id (lectures a') = findById id ls)
    /\ viewMode a' = detail
    /\ selectedLectureId a' = selectedLectureId a
    /\ pendingLectureId a' = Some (l_id lecture)
    /\ showGenModal a' = true
    /\ uniqueIds (lectures a')
    /\ latestFirst (lectures a').
Proof.
  intros Hp Hu Hf.
  destruct (saved_list lecture ls Hu) as (Hl & Ho & Hu' & Hd & _).
  unfold saveAndShow. rewrite (saveLecture_parsed _ _ _ _ Hp), Hf.
  eexists. split; [reflexivity|]. simpl. repeat split; auto.
Qed.

(** X20 — a recording finished with no lecture selected becomes a new
    lecture: when the store can be read, its ids occur once, the new id is
    not among them and the write fits, the handler returns with the lecture
    in the list under its id, every other lecture looked up as before, the
    new lecture selected and shown, and the prompt for generated content
    open. *)
Theorem finished_recording_creates_lecture
    (f : Fresh) (result : RecordingResult) (a : App) ls :
  createsNew a ->
  parsedStore (storage a) = Some ls ->
  uniqueIds ls ->
  fits (sortByDateDesc (placed (createdLecture f result) ls)) = true ->
  exists a',
    handleRecordingFinished fits f result a = Returned a'
    /\ findById (lectureId f) (lectures a') = Some (createdLecture f result)
    /\ (forall id, id <> lectureId f ->
                   findById id (lectures a') = findById id ls)
    /\ viewMode a' = detail
    /\ selectedLectureId a' = Some (lectureId f)
    /\ pendingLectureId a' = Some (lectureId f)
    /\ showGenModal a' = true.
Proof.
  intros Hc Hp Hu Hf.
  destruct (saveAndShow_saved (createdLecture f result)
              (setSelectedLectureId (Some (lectureId f)) a) ls Hp Hu Hf)
    as (a' & Hs & _ & Hl & Ho & Hv & Hsel & Hpe & Hg & _).
  exists a'. split; [|repeat split; auto].
  unfold handleRecordingFinished, createsNew in *.
  destruct (selectedLectureId a) as [id|]; [|exact Hs].
  rewrite Hc. exact Hs.
Qed.

(** X21 — a recording finished on a selected lecture is appended to it:
    the saved lecture keeps its id, title, date, tags and chat, adds the
    durations, joins the texts with a blank line, appends the new chunks
    after the old ones unchanged, and drops the generated summary,
    flashcards, quiz, notes and mind map; every other lecture is looked up
    as before. *)
Theorem finished_recording_appends
    (f : Fresh) (result : RecordingResult) (a : App) id existing ls :
  appendsTo a id ->
  findById id (lectures a) = Some existing ->
  parsedStore (storage a) = Some ls ->
  uniqueIds ls ->
  fits (sortByDateDesc (placed (appendedLecture f existing result) ls)) = true ->
  exists a' saved,
    handleRecordingFinished fits f result a = Returned a'
    /\ findById id (lectures a') = Some saved
    /\ (forall id', id' <> id -> findById id' (lectures a') = findById id' ls)
    /\ l_id saved = id
    /\ l_title saved = l_title existing
    /\ l_date saved = l_date existing
    /\ l_tags saved = l_tags existing
    /\ l_chatHistory saved = l_chatHistory existing
    /\ l_duration saved = l_duration existing + r_duration result
    /\ l_transcriptText saved
       = l_transcriptText existing ++ js (String "010" (String "010" ""))
         ++ r_text result
    /\ l_chunks saved = Some (default [] (l_chunks existing) ++ r_chunks result)
    /\ (l_summary saved, l_flashcards saved, l_quiz saved, l_studyNotes saved,
        l_mindmap saved) = (None, None, None, None, None)
    /\ viewMode a' = detail
    /\ pendingLectureId a' = Some id.
Proof.
  intros (Hsel & Ht & Hv) He Hp Hu Hf.
  pose proof (findById_Some _ _ _ He) as [_ Hid].
  destruct (saveAndShow_saved (appendedLecture f existing result) a ls Hp Hu Hf)
    as (a' & Hs & _ & Hl & Ho & Hv' & _ & Hpe & _).
  simpl in Hl, Ho, Hpe. rewrite Hid in Hl, Ho, Hpe.
  exists a', (appendedLecture f existing result).
  split.
  { unfold handleRecordingFinished. rewrite Hsel, Ht, Hv, He. exact Hs. }
  repeat split; auto.
Qed.

(** X22 — when the selected lecture is not in the list, the handler
    returns without saving and without leaving the recorder: nothing
    changes. *)
Theorem finished_recording_lecture_missing
    (f : Fresh) (result : RecordingResult) (a : App) id :
  appendsTo a id ->
  findById id (lectures a) = None ->
  handleRecordingFinished fits f result a = Returned a.
Proof.
  intros (Hsel & Ht & Hv) He. unfold handleRecordingFinished.
  rewrite Hsel, Ht, Hv, He. reflexivity.
Qed.

End Handlers.




Lemma finished_recording_creates_lecture_witness :
  let a := mkApp [] record None None false NoItem in
  createsNew a
  /\ handleRecordingFinished alwaysFits someFresh someResult a
     = Returned (mkApp [createdLecture someFresh someResult] detail
                       (Some (js "lect_1")) (Some (js "lect_1")) true
                       (Items [createdLecture someFresh someResult]))
  /\ exists a',
       handleRecordingFinished alwaysFits someFresh someResult a = Returned a'
       /\ findById (js "lect_1") (lectures a')
          = Some (createdLecture someFresh someResult).
Proof.
  intros a.
  assert (Hu : uniqueIds []) by constructor.
  destruct (finished_recording_creates_lecture alwaysFits someFresh someResult
              a [] I eq_refl Hu eq_refl) as (a' & H1 & H2 & _).
  split; [exact I|]. split; [reflexivity|]. exists a'. auto.
Defined.

Lemma finished_recording_appends_witness :
  let old := lectureOf "a" 10 in
  let a := mkApp [old] record (Some (js "a")) None false (Items [old]) in
  appendsTo a (js "a")
  /\ exists a' saved,
       handleRecordingFinished alwaysFits someFresh someResult a = Returned a'
       /\ findById (js "a") (lectures a') = Some saved
       /\ l_duration saved = 63
       /\ l_chunks saved = Some [mkChunk 0 (js "Hello"); mkChunk 2 (js "world")]
       /\ option_map (map s_duration) (l_sessions saved) = Some [60; 3].
Proof.
  intros old a.
  assert (Ha : appendsTo a (js "a")) by (repeat split).
  assert (Hu : uniqueIds [old]).
  { unfold uniqueIds. apply (bool_decide_unpack _). vm_compute. exact I. }
  destruct (finished_recording_appends alwaysFits someFresh someResult a
              (js "a") old [old] Ha eq_refl eq_refl Hu eq_refl)
    as (a' & saved & H1 & H2 & _ & _ & _ & _ & _ & _ & H3 & _ & H4 & _).
  split; [exact Ha|]. exists a', saved.
  split; [exact H1|]. split; [exact H2|]. split; [exact H3|].
  split; [exact H4|].
  assert (E : Some saved = Some (appendedLecture someFresh old someResult)).
  { rewrite <- H2. unfold handleRecordingFinished in H1. simpl in H1.
    injection H1 as <-. reflexivity. }
  injection E as ->. reflexivity.
Defined.

Lemma finished_recording_lecture_missing_witness :
  let a := mkApp [lectureOf "b" 20] record (Some (js "a")) None false
                 (Items [lectureOf "b" 20]) in
  appendsTo a (js "a")
  /\ handleRecordingFinished neverFits someFresh someResult a = Returned a.
Proof.
  intros a.
  assert (Ha : appendsTo a (js "a")) by (repeat split).
  split; [exact Ha|].
  exact (finished_recording_lecture_missing neverFits someFresh someResult a
           (js "a") Ha eq_refl).
Defined.


(** X24 — whatever the handlers do to a list that shows the store, it
    shows the store afterwards, whether they return or are left by an
    exception: after a finished recording, after a delete, after an
    update. *)
Theorem shown_list_is_the_store
    (fits : list LectureData -> bool) (a : App) :
  inSync a ->
  (forall f result, endsInSync (handleRecordingFinished fits f result a))
  /\ (forall id, endsInSync (handleDeleteLecture fits id a))
  /\ (forall lecture, endsInSync (handleUpdateLecture fits lecture a)).
Proof.
  intros Ha.
  assert (Hsave : forall lecture a0, inSync a0 ->
                                     endsInSync (saveAndShow fits lecture a0)).
  { intros lecture a0 H0. unfold saveAndShow.
    destruct (saveLecture fits lecture (storage a0)) as [|[st alerted]];
      [exact H0|reflexivity]. }
  split; [|split].
  - intros f result. unfold handleRecordingFinished.
    destruct (selectedLectureId a) as [id|]; [|apply Hsave; exact Ha].
    destruct (truthy id && isRecordMode (viewMode a)); [|apply Hsave; exact Ha].
    destruct (findById id (lectures a)); [apply Hsave|]; exact Ha.
  - intros id. unfold handleDeleteLecture.
    destruct (deleteLecture fits id (storage a)); [exact Ha|reflexivity].
  - intros lecture. unfold handleUpdateLecture.
    destruct (saveLecture fits lecture (storage a)) as [|[st alerted]];
      [exact Ha|reflexivity].
Qed.

Lemma shown_list_is_the_store_witness :
  let a := mkApp [lectureOf "b" 20] detail (Some (js "b")) None false
                 (Items [lectureOf "b" 20]) in
  inSync a
  /\ endsInSync (handleDeleteLecture alwaysFits (js "b") a)
  /\ handleDeleteLecture alwaysFits (js "b") a
     = Returned (mkApp [] dashboard None None false (Items [])).
Proof.
  intros a.
  destruct (shown_list_is_the_store alwaysFits a eq_refl) as (_ & Hd & _).
  split; [reflexivity|]. split; [exact (Hd (js "b"))|reflexivity].
Defined.

(** X25 — the lecture made of a first recording says what the recorder
    measured: its duration is the elapsed seconds of the clock, its chunks
    are the chunks handed off, each with trimmed text that is not empty,
    and its text is the chunk texts with one blank between them. *)
Theorem recording_becomes_lecture
    (evs : list Event) (now : Z) (confirmed : bool) (f : Fresh) :
  let w := run initialWorld evs in
  match snd (handleFinish now confirmed w) with
  | Some r =>
      let lecture := createdLecture f r in
      l_duration lecture = elapsedTimeRef (turn w)
      /\ l_chunks lecture = Some (r_chunks r)
      /\ Forall wellFormedChunk (r_chunks r)
      /\ l_transcriptText lecture = join (map text (r_chunks r))
      /\ l_sessions lecture
         = Some [mkSessionRec (sessionId f) (r_startTime r) now
                              (elapsedTimeRef (turn w)) (r_text r)]
  | None => True
  end.
Proof.
  intros w. pose proof (run_viewInv evs) as Hw. fold w in Hw.
  assert (Hs : synced w) by (apply run_synced; reflexivity).
  assert (Hf : viewInv (fst (handleFinish now confirmed w))).
  { eapply viewInv_finish; [reflexivity|apply handleFinish_transcript|exact Hw]. }
  rewrite handleFinish_snd. cbv zeta.
  match goal with |- context [if ?c then _ else _] => destruct c end;
    [exact I|].
  unfold createdLecture, sessionOf. simpl. rewrite Hs.
  repeat split. apply Hf.
Qed.

Lemma recording_becomes_lecture_witness :
  exists r,
    snd (handleFinish 9000 true streaming) = Some r
    /\ r_chunks r = [mkChunk 1 (js "Hello")]
    /\ l_duration (createdLecture someFresh r) = 1
    /\ Forall wellFormedChunk (r_chunks r).
Proof.
  pose proof (recording_becomes_lecture streamingTrace 9000 true someFresh)
    as H.
  cbv zeta in H. rewrite <- streaming_reached in H.
  destruct (snd (handleFinish 9000 true streaming)) as [r|] eqn:E;
    [|vm_compute in E; discriminate].
  exists r. destruct H as (H1 & _ & H3 & _).
  split; [reflexivity|].
  split; [vm_compute in E; injection E as <-; reflexivity|].
  split; [rewrite H1; reflexivity|exact H3].
Defined.

(** ** Microphone selection and the level preview *)

Lemma stopPreview_closed_form (s : Setup) :
  stopPreview s
  = mkSetup
      (withBrowser
         (fun b =>
            let b := match previewStreamRef (preview s) with
                     | Some m => stopTracks m b
                     | None => b
                     end in
            match previewContextRef (preview s) with
            | Some c => closeContext c b
            | None => b
            end)
         (recorder s))
      (devices s) (selectedDeviceId s) 0%Q (mkPreview None None None)
      (match previewAnimationFrameRef (preview s) with
       | Some f => <[f := false]> (frames s)
       | None => frames s
       end)
      (previewRequests s).
Proof.
  destruct s as [[u t m [cs ss so ps se ti rq] mt] ds sel v [pc pm pf] fr rqs].
  destruct pc, pm, pf; reflexivity.
Qed.

Lemma stopTracks_not_live (m : nat) (b : Browser) :
  hasLiveTrack (stopTracks m b) m = false.
Proof.
  unfold hasLiveTrack, stopTracks. destruct b as [cs ss so ps se ti rq].
  cbn. rewrite list_lookup_alter_eq.
  destruct (_ !! m) as [ts|]; cbn; [|reflexivity].
  apply existsb_all_ended.
Qed.

Lemma closeContext_not_running (c : nat) (b : Browser) :
  contextRunning (closeContext c b) c = false.
Proof.
  unfold contextRunning, closeContext. destruct b as [cs ss so ps se ti rq].
  cbn. destruct (<[c := ContextClosed]> cs !! c) as [x|] eqn:E; [|reflexivity].
  apply list_lookup_insert_Some in E.
  destruct E as [(_ & <- & _)|(H & _)]; [reflexivity|congruence].
Qed.

(** X26 — [stopPreview] gives back all the preview holds and nothing else:
    its refs are empty and the meter at zero, the stream it held has no live
    track, the context it held is not running, the frame it held is not
    pending; the other streams and contexts of the store, and all nodes,
    connections and timers, are as before, as are the state and the refs of
    the recorder; nothing is opened; a second call changes nothing. *)
Theorem stopPreview_releases_preview_only (s : Setup) :
  let s' := stopPreview s in
  let b := browser (recorder s) in
  let b' := browser (recorder s') in
  previewIdle s'
  /\ previewVolume s' = 0%Q
  /\ streamActive b' (previewStreamRef (preview s)) = false
  /\ (forall c, previewContextRef (preview s) = Some c ->
                contextRunning b' c = false)
  /\ (forall f, previewAnimationFrameRef (preview s) = Some f ->
                frames s' !! f <> Some true)
  /\ (forall m, previewStreamRef (preview s) <> Some m ->
                streams b' !! m = streams b !! m)
  /\ (forall c, previewContextRef (preview s) <> Some c ->
                contexts b' !! c = contexts b !! c)
  /\ (forall f, previewAnimationFrameRef (preview s) <> Some f ->
                frames s' !! f = frames s !! f)
  /\ (length (streams b') = length (streams b)
      /\ length (contexts b') = length (contexts b)
      /\ length (frames s') = length (frames s))
  /\ (sources b' = sources b /\ processors b' = processors b
      /\ sessions b' = sessions b /\ timers b' = timers b
      /\ requests b' = requests b)
  /\ (ui (recorder s') = ui (recorder s)
      /\ turn (recorder s') = turn (recorder s)
      /\ media (recorder s') = media (recorder s)
      /\ mounted (recorder s') = mounted (recorder s))
  /\ (devices s' = devices s /\ selectedDeviceId s' = selectedDeviceId s
      /\ previewRequests s' = previewRequests s)
  /\ stopPreview s' = s'.
Proof.
  cbv zeta. rewrite !stopPreview_closed_form.
  destruct s as [[u t m [cs ss so ps se ti rq] mt] ds sel v [pc pm pf] fr rqs].
  cbn [recorder preview previewStreamRef previewContextRef
       previewAnimationFrameRef frames previewVolume devices selectedDeviceId
       previewRequests browser withBrowser ui turn media mounted].
  split; [reflexivity|]. split; [reflexivity|].
  split.
  { destruct pm as [sm|]; [|reflexivity]. cbn [streamActive].
    destruct pc as [c|]; [|apply stopTracks_not_live].
    pose proof (stopTracks_not_live sm (mkBrowser cs ss so ps se ti rq)) as H.
    unfold hasLiveTrack in *. exact H. }
  split.
  { intros c [= ->]. apply closeContext_not_running. }
  split.
  { intros f [= ->] H. apply list_lookup_insert_Some in H.
    destruct H as [(_ & H & _)|(H & _)]; congruence. }
  split.
  { intros sm Hm. destruct pm as [sm'|], pc as [c|]; cbn; try reflexivity;
      apply list_lookup_alter_ne; congruence. }
  split.
  { intros c Hc. destruct pm as [sm'|], pc as [c'|]; cbn; try reflexivity;
      apply list_lookup_insert_ne; congruence. }
  split.
  { intros f Hf. destruct pf as [f'|]; [|reflexivity].
    apply list_lookup_insert_ne. congruence. }
  split.
  { destruct pm as [sm'|], pc as [c'|], pf as [f'|]; cbn;
      rewrite ?length_alter, ?length_insert; repeat split. }
  split; [destruct pm, pc; repeat split|].
  split; [repeat split|]. split; [repeat split|].
  reflexivity.
Qed.

Lemma lookup_snoc {A} (l : list A) (x : A) : (l ++ [x]) !! length l = Some x.
Proof. apply list_lookup_middle. reflexivity. Qed.

Lemma startPreview_granted_closed_form (r : nat) (data : list Z) (s : Setup) :
  startPreview_granted r data s
  = mkSetup
      (withBrowser
         (fun b => set_contexts (contexts b ++ [Running])
                     (set_streams (streams b ++ [[Live]]) b))
         (recorder s))
      (devices s) (selectedDeviceId s) (level data)
      (mkPreview (Some (length (contexts (browser (recorder s)))))
                 (Some (length (streams (browser (recorder s)))))
                 (Some (length (frames s))))
      (frames s ++ [true])
      (<[r := true]> (previewRequests s)).
Proof.
  destruct s as [[u t m [cs ss so ps se ti rq] mt] ds sel v [pc pm pf] fr rqs].
  unfold startPreview_granted, updateVolume.
  cbn -[level]. unfold hasLiveTrack. cbn -[level].
  rewrite lookup_snoc. reflexivity.
Qed.

Lemma stopPreview_releases_preview_only_witness :
  let s := previewGranted 0 [7; 9] (startPreview (js "mic-1") initialSetup) in
  preview s = mkPreview (Some 0%nat) (Some 0%nat) (Some 0%nat)
  /\ hasLiveTrack (browser (recorder s)) 0 = true
  /\ hasLiveTrack (browser (recorder (stopPreview s))) 0 = false
  /\ contextRunning (browser (recorder (stopPreview s))) 0 = false
  /\ frames (stopPreview s) !! 0%nat <> Some true.
Proof.
  intros s.
  destruct (stopPreview_releases_preview_only s) as (_ & _ & H3 & H4 & H5 & _).
  split; [reflexivity|]. split; [reflexivity|]. split; [exact H3|].
  split; [exact (H4 0%nat eq_refl)|exact (H5 0%nat eq_refl)].
Defined.

Lemma unmountSetup_idle (s : Setup) :
  media (recorder s) = noMedia ->
  isRecording (ui (recorder s)) = false ->
  unmountSetup s
  = withRecorder (fun w => mkWorld (ui w) (turn w) (media w) (browser w) false)
                 (stopPreview s).
Proof.
  destruct s as [w ds sel v p fr rqs]. cbn [recorder]. intros Hm Hr.
  unfold unmountSetup, withRecorder. cbn [recorder devices selectedDeviceId
    previewVolume preview frames previewRequests].
  unfold unmount. rewrite (stopEverything_stopped w Hm Hr).
  rewrite !stopPreview_closed_form. destruct w. reflexivity.
Qed.

(** X27 — a preview that is granted while another one is still asked for
    is overtaken by it: the refs go to the stream and the context of the
    second, and neither [stopPreview] nor the cleanup of the view stops the
    track of the first or closes its context. *)
Theorem overtaken_preview_is_never_released
    (s : Setup) (r1 r2 : nat) (d1 d2 : list Z) :
  previewRequests s !! r1 = Some false ->
  previewRequests s !! r2 = Some false ->
  r1 <> r2 ->
  media (recorder s) = noMedia ->
  isRecording (ui (recorder s)) = false ->
  let first := length (streams (browser (recorder s))) in
  let firstContext := length (contexts (browser (recorder s))) in
  let s2 := previewGranted r2 d2 (previewGranted r1 d1 s) in
  previewStreamRef (preview s2) = Some (S first)
  /\ previewContextRef (preview s2) = Some (S firstContext)
  /\ hasLiveTrack (browser (recorder (stopPreview s2))) first = true
  /\ contextRunning (browser (recorder (stopPreview s2))) firstContext = true
  /\ hasLiveTrack (browser (recorder (unmountSetup s2))) first = true
  /\ contextRunning (browser (recorder (unmountSetup s2))) firstContext = true.
Proof.
  intros H1 H2 Hne Hm Hr. cbv zeta.
  assert (E : previewGranted r2 d2 (previewGranted r1 d1 s)
              = startPreview_granted r2 d2 (startPreview_granted r1 d1 s)).
  { unfold previewGranted at 2. rewrite H1. unfold previewGranted.
    rewrite startPreview_granted_closed_form. cbn [previewRequests].
    rewrite list_lookup_insert_ne by exact Hne. rewrite H2. reflexivity. }
  rewrite E. clear E H1 H2 Hne.
  rewrite unmountSetup_idle
    by (rewrite !startPreview_granted_closed_form; assumption).
  rewrite stopPreview_closed_form, !startPreview_granted_closed_form.
  destruct s as [[u t m [cs ss so ps se ti rq] mt] ds sel v [pc pm pf] fr rqs].
  cbn [recorder preview previewStreamRef previewContextRef withRecorder
       browser withBrowser contexts streams set_contexts set_streams].
  rewrite !length_app. cbn [length].
  replace (length ss + 1)%nat with (S (length ss)) by lia.
  replace (length cs + 1)%nat with (S (length cs)) by lia.
  split; [reflexivity|]. split; [reflexivity|].
  assert (Hs : hasLiveTrack
                 (closeContext (S (length cs))
                    (stopTracks (S (length ss))
                       (mkBrowser ((cs ++ [Running]) ++ [Running])
                                  ((ss ++ [[Live]]) ++ [[Live]])
                                  so ps se ti rq)))
                 (length ss) = true).
  { unfold hasLiveTrack, closeContext, stopTracks. cbn.
    rewrite list_lookup_alter_ne by lia.
    rewrite lookup_app_l by (rewrite length_app; cbn; lia).
    rewrite lookup_snoc. reflexivity. }
  assert (Hc : contextRunning
                 (closeContext (S (length cs))
                    (stopTracks (S (length ss))
                       (mkBrowser ((cs ++ [Running]) ++ [Running])
                                  ((ss ++ [[Live]]) ++ [[Live]])
                                  so ps se ti rq)))
                 (length cs) = true).
  { unfold contextRunning, closeContext, stopTracks. cbn.
    rewrite list_lookup_insert_ne by lia.
    rewrite lookup_app_l by (rewrite length_app; cbn; lia).
    rewrite lookup_snoc. reflexivity. }
  repeat split; assumption.
Qed.

Lemma overtaken_preview_is_never_released_witness :
  let s := startPreview (js "mic-2") (startPreview (js "mic-1") initialSetup) in
  let s2 := previewGranted 1 [12; 40] (previewGranted 0 [7; 9] s) in
  previewRequests s = [false; false]
  /\ previewStreamRef (preview s2) = Some 1%nat
  /\ hasLiveTrack (browser (recorder (unmountSetup s2))) 0 = true
  /\ contextRunning (browser (recorder (unmountSetup s2))) 0 = true.
Proof.
  intros s s2.
  destruct (overtaken_preview_is_never_released s 0 1 [7; 9] [12; 40]
              eq_refl eq_refl ltac:(lia) eq_refl eq_refl)
    as (H1 & _ & _ & _ & H5 & H6).
  split; [reflexivity|]. split; [exact H1|]. split; [exact H5|exact H6].
Defined.

Lemma sumBytes_nonneg (data : list Z) (acc : Z) :
  Forall isByte data -> 0 <= acc -> 0 <= fold_left Z.add data acc.
Proof.
  intros H. revert acc. induction H as [|x l Hx _ IH]; intros acc Ha;
    [exact Ha|].
  cbn. apply IH. unfold isByte in Hx. lia.
Qed.

Lemma roundHalfEven_nonneg (x : Q) : (0 <= x)%Q -> 0 <= roundHalfEven x.
Proof.
  intros H. unfold roundHalfEven. cbv zeta.
  assert (Hf : 0 <= Qfloor x).
  { change 0 with (Qfloor 0). apply Qfloor_resp_le, H. }
  destruct (x - inject_Z (Qfloor x) ?= 1 # 2)%Q; [|lia|lia].
  destruct (Z.even (Qfloor x)); lia.
Qed.

Lemma roundDouble_nonneg (x : Q) : (0 <= x)%Q -> (0 <= roundDouble x)%Q.
Proof.
  intros H. unfold roundDouble.
  destruct x as [[|a|a] b]; cbn [Qnum].
  - apply Qle_refl.
  - unfold roundPositive. cbv zeta. apply Qmult_le_0_compat.
    + change 0%Q with (inject_Z 0). rewrite <- Zle_Qle.
      apply roundHalfEven_nonneg. apply Qmult_le_0_compat; [exact H|].
      apply Qpower_0_le. discriminate.
    + apply Qpower_0_le. discriminate.
  - exfalso. unfold Qle in H. cbn in H. lia.
Qed.

Lemma level_range (data : list Z) :
  Forall isByte data -> (0 <= level data)%Q /\ (level data <= 100)%Q.
Proof.
  intros H. unfold level. cbv zeta. split; [|apply Q.le_min_l].
  apply Q.min_glb; [discriminate|].
  unfold multiply, divide.
  apply roundDouble_nonneg, Qmult_le_0_compat; [|discriminate].
  apply roundDouble_nonneg, Qmult_le_0_compat; [|discriminate].
  apply roundDouble_nonneg, Qmult_le_0_compat.
  - change 0%Q with (inject_Z 0). rewrite <- Zle_Qle.
    apply sumBytes_nonneg; [exact H|lia].
  - apply Qinv_le_0_compat. change 0%Q with (inject_Z 0).
    rewrite <- Zle_Qle. lia.
Qed.

(** X28 — the number the meter stores, rounded as the machine rounds it,
    stays between 0 and 100 whatever bytes the analyser writes into its 128
    bins; the meter is at zero once the preview is stopped, and a callback
    of the loop that still runs after that changes nothing and asks for no
    further frame. *)
Theorem meter_stays_in_range (s : Setup) (data : list Z) :
  Forall isByte data -> length data = frequencyBinCount -> meterInRange s ->
  meterInRange (updateVolume data s)
  /\ previewVolume (stopPreview s) = 0%Q
  /\ updateVolume data (stopPreview s) = stopPreview s.
Proof.
  intros Hd _ Hs. split; [|split].
  - unfold updateVolume.
    destruct (streamActive _ _); [|exact Hs].
    apply (level_range data Hd).
  - rewrite stopPreview_closed_form. reflexivity.
  - rewrite stopPreview_closed_form. reflexivity.
Qed.

Lemma isByte_repeat (b : Z) (n : nat) : isByte b -> Forall isByte (repeat b n).
Proof. intros H. induction n; constructor; assumption. Qed.

Lemma meter_stays_in_range_witness :
  let quiet := 7 :: repeat 0 127 in
  let loud := repeat 255 128 in
  let granted := previewGranted 0 quiet
                   (startPreview (js "mic-1") initialSetup) in
  meterInRange granted
  /\ previewVolume granted = level quiet
  /\ (level quiet == 7881299347898369 # 72057594037927936)%Q
  /\ meterInRange (updateVolume loud granted)
  /\ previewVolume (updateVolume loud granted) = level loud
  /\ (level loud == 100)%Q.
Proof.
  intros quiet loud granted.
  assert (Hq : Forall isByte quiet).
  { constructor; [unfold isByte; lia|apply isByte_repeat; unfold isByte; lia]. }
  assert (Hl : Forall isByte loud) by (apply isByte_repeat; unfold isByte; lia).
  assert (Hg : meterInRange granted) by (apply (level_range quiet Hq)).
  destruct (meter_stays_in_range granted loud Hl eq_refl Hg) as (H1 & _ & _).
  split; [exact Hg|]. split; [reflexivity|].
  split; [vm_compute; reflexivity|]. split; [exact H1|].
  split; [reflexivity|vm_compute; reflexivity].
Defined.

Lemma initialId_spec (audioInputs : list MediaDeviceInfo) :
  match audioInputs with
  | [] => initialId audioInputs = None
  | first :: _ =>
      exists id,
        initialId audioInputs = Some id
        /\ (exists d, d ∈ audioInputs /\ deviceId d = id)
        /\ ((exists d, d ∈ audioInputs /\ deviceId d = js "default") ->
            id = js "default")
        /\ (~ (exists d, d ∈ audioInputs /\ deviceId d = js "default") ->
            id = deviceId first)
  end.
Proof.
  destruct audioInputs as [|first rest]; [reflexivity|].
  unfold initialId.
  destruct (find isDefaultDevice (first :: rest)) as [d|] eqn:E.
  - apply find_some in E. destruct E as [Hin Hd].
    unfold isDefaultDevice in Hd. apply bool_decide_eq_true in Hd.
    exists (deviceId d). split; [reflexivity|]. split.
    + exists d. split; [apply list_elem_of_In; exact Hin|reflexivity].
    + split; [intros _; exact Hd|].
      intros Hn. exfalso. apply Hn. exists d.
      split; [apply list_elem_of_In; exact Hin|exact Hd].
  - exists (deviceId first). split; [reflexivity|]. split.
    + exists first. split; [left|reflexivity].
    + split; [|reflexivity].
      intros (d & Hin & Hd). apply list_elem_of_In in Hin.
      pose proof (find_none _ _ E d Hin) as Hf.
      unfold isDefaultDevice in Hf. apply bool_decide_eq_false in Hf.
      contradiction.
Qed.

(** X29 — once the devices are listed, the recorder offers the audio
    inputs among them, in their order, and nothing else.  With none it
    keeps the selection it had; otherwise it selects an audio input that
    was listed: the one called [default] if there is one, the first audio
    input if not.  Neither the recorder nor the preview is touched. *)
Theorem initial_device_is_an_audio_input
    (all : list MediaDeviceInfo) (s : Setup) :
  let s' := initDevices_enumerated all s in
  devices s' = List.filter isAudioInput all
  /\ recorder s' = recorder s
  /\ preview s' = preview s
  /\ match devices s' with
     | [] => selectedDeviceId s' = selectedDeviceId s
     | first :: _ =>
         (exists d, d ∈ all /\ isAudioInput d = true
                    /\ selectedDeviceId s' = deviceId d)
         /\ (offersDefault all -> selectedDeviceId s' = js "default")
         /\ (~ offersDefault all -> selectedDeviceId s' = deviceId first)
     end.
Proof.
  cbv zeta. unfold initDevices_enumerated.
  pose proof (initialId_spec (List.filter isAudioInput all)) as H.
  assert (Hin : forall d, d ∈ List.filter isAudioInput all
                          <-> d ∈ all /\ isAudioInput d = true).
  { intros d. rewrite !list_elem_of_In. apply filter_In. }
  destruct (List.filter isAudioInput all) as [|first rest] eqn:E.
  - rewrite H. repeat split.
  - destruct H as (id & -> & (d & Hd & Hid) & Hdef & Hfirst).
    cbn [devices recorder preview selectedDeviceId setSelectedDeviceId
         setDevices].
    split; [reflexivity|]. split; [reflexivity|]. split; [reflexivity|].
    split; [|split].
    + exists d. apply Hin in Hd. destruct Hd. auto.
    + intros (d' & Hd' & Ha & Hn). apply Hdef. exists d'.
      split; [apply Hin; auto|exact Hn].
    + intros Hn. apply Hfirst. intros (d' & Hd' & Hn'). apply Hn.
      apply Hin in Hd'. destruct Hd'. exists d'. auto.
Qed.

Lemma initial_device_is_an_audio_input_example :
  let speakers := mkDevice (js "default") audiooutput (js "Speakers") in
  let usb := mkDevice (js "usb-1") audioinput (js "USB microphone") in
  let builtin := mkDevice (js "default") audioinput (js "Built-in") in
  selectedDeviceId (initDevices_enumerated [speakers; usb] initialSetup)
  = js "usb-1"
  /\ selectedDeviceId
       (initDevices_enumerated [speakers; usb; builtin] initialSetup)
     = js "default"
  /\ selectedDeviceId (initDevices_enumerated [speakers] initialSetup) = [].
Proof. repeat split. Qed.

Lemma initial_device_is_an_audio_input_witness :
  let speakers := mkDevice (js "default") audiooutput (js "Speakers") in
  let usb := mkDevice (js "usb-1") audioinput (js "USB microphone") in
  let builtin := mkDevice (js "default") audioinput (js "Built-in") in
  let all := [speakers; usb; builtin] in
  offersDefault all
  /\ selectedDeviceId (initDevices_enumerated all initialSetup) = js "default"
  /\ devices (initDevices_enumerated all initialSetup) = [usb; builtin].
Proof.
  intros speakers usb builtin all.
  destruct (initial_device_is_an_audio_input all initialSetup)
    as (Hd & _ & _ & Hm).
  assert (Ho : offersDefault all).
  { exists builtin. split; [|split; reflexivity].
    apply list_elem_of_In. simpl. auto. }
  split; [exact Ho|].
  change (devices (initDevices_enumerated all initialSetup))
    with [usb; builtin] in Hm.
  destruct Hm as (_ & Hdef & _). split; [exact (Hdef Ho)|exact Hd].
Defined.
